(** * pdf-loader: a shallow embedding of the PDF reader core

    The development follows the Go packages of the repository:

    - [Lexer]      pkg/pdf/lexer.go   (object tokenizer)
    - [XRef]       pkg/pdf/xref.go    (cross-reference tables and streams)
    - [Crypto]     pkg/pdf/encrypt.go (standard security handler)
    - [CryptoKeys] pkg/pdf/encrypt.go (password padding and the file key)
    - [CMapParser] pkg/pdf/cmap.go    (ToUnicode bfchar / bfrange)
    - [Pages]      pkg/pdf/reader.go  (page tree lookup)
    - [Document]   pkg/pdf/reader.go  (page count, information, decryption of objects)
    - [Extract]    pkg/pdf/extractor.go (graphics / text state machine)
    - [Fonts]      pkg/pdf/extractor.go (widths and encodings of fonts)
    - [Images]     pkg/pdf/extractor.go (image descriptors)

    Conventions.  A Go [byte] is an [ascii]; a [[]byte] is a [list ascii];
    a Go [string] is a [string].  A Go [int] / [int64] is a [Z] and every
    operation that can overflow goes through [int64].  A [float64] is a
    primitive binary64 [float], so the arithmetic of the extractor is the
    arithmetic of the program.  A Go [map] is a [gmap].  A call that can
    return an error, or panic, returns a [Result]. *)

From Stdlib Require Import ZArith Lia Bool List.
From Stdlib Require Import Strings.String Strings.Ascii.
From Stdlib Require Import Floats.PrimFloat Floats.FloatOps Floats.SpecFloat.
From stdpp Require Import base option list gmap strings fin_maps fin_sets.

#[local] Set Warnings "-register-all,-inexact-float,-clear-no-such-hyp".
#[local] Open Scope Z_scope.

(* ================================================================== *)
(** * Go values *)
(* ================================================================== *)

Module Go.

(** [byte(z)] : the low eight bits of an integer. *)
Definition byte (z : Z) : ascii := ascii_of_N (Z.to_N (z mod 256)).

(** [int(b)] : the value of a byte. *)
Definition byteZ (b : ascii) : Z := Z.of_N (N_of_ascii b).

(** The two's-complement wrap-around of a 64-bit [int]. *)
Definition int64 (z : Z) : Z := (z + 2 ^ 63) mod 2 ^ 64 - 2 ^ 63.

Definition in_int64 (z : Z) : Prop := - 2 ^ 63 <= z < 2 ^ 63.

(** [make([]byte, n)] : [n] zero bytes. *)
Definition make (n : nat) : list ascii := repeat Ascii.zero n.

(** [make] with a length that the file gives: the run time panics for a
    negative length and for one beyond [maxAlloc], the most it can ever
    allocate (2^48 bytes on amd64).  Up to that bound the model takes the
    memory to be there. *)
Definition maxAlloc : Z := 2 ^ 48.

Definition makeable (n : Z) : bool := (0 <=? n) && (n <=? maxAlloc).

(** [copy(dst, src)] : overwrites the first [min (len dst) (len src)]
    bytes of [dst]. *)
Definition copy (dst src : list ascii) : list ascii :=
  firstn (length dst) src ++ skipn (length src) dst.

(** [string(bs)] and [[]byte(s)]. *)
Definition string_of_bytes (bs : list ascii) : string := string_of_list_ascii bs.
Definition bytes_of_string (s : string) : list ascii := list_ascii_of_string s.

(** The unread bytes begin with [prefix]: [Peek(n)] returned [n] bytes
    and they spell [prefix]. *)
Definition hasPrefix (prefix : string) (input : list ascii) : bool :=
  if decide (take (String.length prefix) input = list_ascii_of_string prefix)
  then true else false.

(** [strings.Builder.WriteByte]. *)
Definition WriteByte (sb : string) (b : ascii) : string := sb +:+ String b EmptyString.

(** [int(f)] for a [float64]: truncation toward zero.  Outside the range of
    [int64] (and for NaN) Go leaves the result to the implementation; the
    value below is the one amd64 produces. *)
Definition float64_to_int (f : float) : Z :=
  match Prim2SF f with
  | S754_zero _ => 0
  | S754_finite s m e =>
      let v := if 0 <=? e then Z.pos m * 2 ^ e else Z.pos m / 2 ^ (- e) in
      let r := if s then - v else v in
      if (- 2 ^ 63 <=? r) && (r <? 2 ^ 63) then r else - 2 ^ 63
  | _ => - 2 ^ 63
  end.

(** [float64(i)] for an [int]: rounding to nearest even. *)
Definition float64_of_int (z : Z) : float :=
  SF2Prim (binary_normalize prec emax z 0 false).

(** Go errors: the two sentinels of package io, and errors made with
    [errors.New] / [fmt.Errorf] (the constant part of the message). *)
Inductive error :=
| EOF
| ErrUnexpectedEOF
| errorString (msg : string).

(** The outcome of a call: a value, an error return, a run-time panic, or
    (for the loops of the model that are bounded by a counter) the counter
    running out. *)
Inductive Result (A : Type) :=
| Ok (a : A)
| Err (e : error)
| Panic
| OutOfFuel.

Arguments Ok {A} a.
Arguments Err {A} e.
Arguments Panic {A}.
Arguments OutOfFuel {A}.

Definition bind {A B} (r : Result A) (k : A -> Result B) : Result B :=
  match r with
  | Ok a => k a
  | Err e => Err e
  | Panic => Panic
  | OutOfFuel => OutOfFuel
  end.

Definition is_Err {A} (r : Result A) : Prop :=
  match r with Err _ => True | _ => False end.

End Go.

Export Go.

#[export] Instance Result_ret : MRet Result := fun A a => Ok a.
#[export] Instance Result_bind : MBind Result := fun A B k r => Go.bind r k.

(* ================================================================== *)
(** * Objects *)
(* ================================================================== *)

(** Modelled from the spec: the declarations of the object types
    (objects.go) are not among the sources; section 3 of the design lists
    the variants and the code fixes their payloads by the conversions it
    uses ([HexStringObject(data)] with [data []byte], [NumberObject(f)]
    with [f float64], [IndirectObject{ObjectNumber, Generation}], ...). *)
Inductive Object :=
| NullObject
| BooleanObject (b : bool)
| NumberObject (f : float)
| NameObject (s : string)
| StringObject (s : string)
| HexStringObject (data : list ascii)
| ArrayObject (elems : list Object)
| DictionaryObject (dict : gmap string Object)
| StreamObject (Dictionary : gmap string Object) (Data : list ascii)
| IndirectObject (ObjectNumber Generation : Z)
| KeywordObject (s : string).

(** The functions of Go's standard library that the parsers call are not
    the repository's: the development is parametric in them.  [ParseInt]
    gives the value returned and whether the error is nil; of [Atoi] and
    [ParseFloat] the code only ever uses the value.  [zlibReadAll] is
    [zlib.NewReader] followed by [io.ReadAll], [None] when either fails. *)
Record GoLib := {
  ParseInt : string -> Z -> Z * bool;        (* strconv.ParseInt(s, base, _) *)
  Atoi : string -> Z;                        (* strconv.Atoi(s) *)
  ParseFloat : string -> float;              (* strconv.ParseFloat(s, 64) *)
  TrimSpace : string -> string;              (* strings.TrimSpace(s) *)
  zlibReadAll : list ascii -> option (list ascii);
}.

(* ================================================================== *)
(** * pkg/pdf/lexer.go *)
(* ================================================================== *)

(** The lexer reads from a [bufio.Reader]; the model keeps the bytes that
    are still unread.  [Peek n] is [take n], [ReadByte] removes the head,
    and a read past the end is [io.EOF]. *)
Module Lexer.

Definition isWhitespace (b : ascii) : bool :=
  let n := byteZ b in
  (n =? 0x00) || (n =? 0x09) || (n =? 0x0A) || (n =? 0x0C) || (n =? 0x0D) || (n =? 0x20).

Definition isDelimiter (b : ascii) : bool :=
  existsb (Ascii.eqb b) (bytes_of_string "()<>[]{}/%").

Definition isDigit (b : ascii) : bool :=
  (byteZ "0" <=? byteZ b) && (byteZ b <=? byteZ "9").

Definition isAlpha (b : ascii) : bool :=
  ((byteZ "a" <=? byteZ b) && (byteZ b <=? byteZ "z"))
  || ((byteZ "A" <=? byteZ b) && (byteZ b <=? byteZ "Z")).

Definition isOctal (b : ascii) : bool :=
  (byteZ "0" <=? byteZ b) && (byteZ b <=? byteZ "7").

Fixpoint skipWhitespace (input : list ascii) : list ascii :=
  match input with
  | b :: rest => if isWhitespace b then skipWhitespace rest else input
  | [] => []
  end.

(** [bufio.Reader.ReadLine] with the default 4096-byte buffer: the line up
    to and without its end-of-line, or a full buffer when the line is
    longer.  Only what it consumes matters to the lexer. *)
Fixpoint ReadLine_from (room : nat) (input : list ascii) {struct input} : list ascii :=
  match input with
  | [] => []
  | b :: rest =>
      if Ascii.eqb b "010" then rest
      else match room with
           | S (S _ as room') => ReadLine_from room' rest
           | _ => if Ascii.eqb b "013" then input else rest   (* buffer full *)
           end
  end.

Definition ReadLine (input : list ascii) : list ascii := ReadLine_from 4096 input.

(** [readTokenString]: bytes up to the next delimiter or white space. *)
Fixpoint token_of (input : list ascii) (sb : string) : string * list ascii :=
  match input with
  | [] => (sb, [])
  | b :: rest =>
      if isDelimiter b || isWhitespace b then (sb, input)
      else token_of rest (WriteByte sb b)
  end.

Definition readTokenString (input : list ascii) : Result (string * list ascii) :=
  match input with
  | [] => Err EOF
  | _ => Ok (token_of input "")
  end.

(** [l.readTokenString()] as a statement: the token and the error are
    dropped. *)
Definition skipToken (input : list ascii) : list ascii :=
  match readTokenString input with
  | Ok (_, rest) => rest
  | _ => input
  end.

Section WithGoLib.

Context (sc : GoLib).

(** The loop of [readName], after the slash.  [Read(hex)] on a two-byte
    buffer takes the bytes that are left, at most two; the buffer keeps
    its zeros where nothing was read.  This is [Read] on a reader that
    has both bytes in its buffer.  The model keeps the unread bytes, not
    the place where the 4096 bytes of the buffer end: there [Read]
    returns the one byte that is buffered and leaves the second digit
    unread.  No statement below depends on the difference. *)
Fixpoint readName_loop (input : list ascii) (sb : string) : string * list ascii :=
  match input with
  | [] => (sb, [])
  | b :: rest =>
      if isDelimiter b || isWhitespace b then (sb, input)
      else if Ascii.eqb b "#" then
        match rest with
        | h1 :: h2 :: rest' =>
            readName_loop rest'
              (WriteByte sb (byte (ParseInt sc (string_of_bytes [h1; h2]) 16).1))
        | [h1] =>
            (WriteByte sb (byte (ParseInt sc (string_of_bytes [h1; Ascii.zero]) 16).1), [])
        | [] =>
            (WriteByte sb (byte (ParseInt sc (string_of_bytes [Ascii.zero; Ascii.zero]) 16).1), [])
        end
      else readName_loop rest (WriteByte sb b)
  end.

Definition readName (input : list ascii) : Result (Object * list ascii) :=
  let '(name, rest) := readName_loop (tail input) "/" in
  Ok (NameObject name, rest).

(** The byte an escape sequence stands for, when the escape is not octal. *)
Definition escaped (next : ascii) : ascii :=
  if Ascii.eqb next "n" then "010"
  else if Ascii.eqb next "r" then "013"
  else if Ascii.eqb next "t" then "009"
  else if Ascii.eqb next "b" then "008"
  else if Ascii.eqb next "f" then "012"
  else next.

Definition octalByte (digits : list ascii) : ascii :=
  byte (ParseInt sc (string_of_bytes digits) 8).1.

(** The loop of [readString], after the opening parenthesis. *)
Fixpoint readString_loop (input : list ascii) (parens : Z) (sb : string)
  : Result (string * list ascii) :=
  match input with
  | [] => Err EOF
  | b :: rest =>
      if Ascii.eqb b "(" then readString_loop rest (parens + 1) (WriteByte sb b)
      else if Ascii.eqb b ")" then
        if parens - 1 =? 0 then Ok (sb, rest)
        else readString_loop rest (parens - 1) (WriteByte sb b)
      else if Ascii.eqb b "092" then
        match rest with
        | [] => Err EOF
        | next :: rest1 =>
            if isOctal next then
              match rest1 with
              | d1 :: rest2 =>
                  if isOctal d1 then
                    match rest2 with
                    | d2 :: rest3 =>
                        if isOctal d2
                        then readString_loop rest3 parens (WriteByte sb (octalByte [next; d1; d2]))
                        else readString_loop rest2 parens (WriteByte sb (octalByte [next; d1]))
                    | [] => readString_loop rest2 parens (WriteByte sb (octalByte [next; d1]))
                    end
                  else readString_loop rest1 parens (WriteByte sb (octalByte [next]))
              | [] => readString_loop rest1 parens (WriteByte sb (octalByte [next]))
              end
            else readString_loop rest1 parens (WriteByte sb (escaped next))
        end
      else readString_loop rest parens (WriteByte sb b)
  end.

Definition readString (input : list ascii) : Result (Object * list ascii) :=
  '(s, rest) ← readString_loop (tail input) 1 "";
  Ok (StringObject s, rest).

(** The loop of [readHexString], after the opening angle bracket: every
    byte that is neither the closing bracket nor white space is appended
    to [data] as it stands. *)
Fixpoint readHexString_loop (input : list ascii) (data : list ascii)
  : Result (list ascii * list ascii) :=
  match input with
  | [] => Err EOF
  | b :: rest =>
      if Ascii.eqb b ">" then Ok (data, rest)
      else if isWhitespace b then readHexString_loop rest data
      else readHexString_loop rest (data ++ [b])
  end.

Definition readHexString (input : list ascii) : Result (Object * list ascii) :=
  '(data, rest) ← readHexString_loop (tail input) [];
  Ok (HexStringObject data, rest).

Definition makeNumber (s : string) : Object :=
  if existsb (Ascii.eqb ".") (bytes_of_string s)
  then NumberObject (ParseFloat sc s)
  else NumberObject (float64_of_int (Atoi sc s)).

(** The scan of the peeked bytes in [readNumberOrReference]: the digits of
    a generation number, white space, and an [R] that ends there or is
    followed by white space or a delimiter. *)
Fixpoint span_digits (buf : list ascii) : list ascii * list ascii :=
  match buf with
  | b :: rest =>
      if isDigit b then let '(ds, after) := span_digits rest in (b :: ds, after)
      else ([], buf)
  | [] => ([], [])
  end.

Definition isReference (peekBuf : list ascii) : option string :=
  let '(gen, after) := span_digits peekBuf in
  match gen, after with
  | [], _ => None
  | _, [] => None
  | _, w :: _ =>
      if isWhitespace w then
        match skipWhitespace after with
        | r :: next =>
            if Ascii.eqb r "R" then
              match next with
              | [] => Some (string_of_bytes gen)
              | nextChar :: _ =>
                  if isWhitespace nextChar || isDelimiter nextChar
                  then Some (string_of_bytes gen) else None
              end
            else None
        | [] => None
        end
      else None
  end.

Definition readNumberOrReference (input : list ascii) : Result (Object * list ascii) :=
  '(num1Str, rest) ← readTokenString input;
  let rest := skipWhitespace rest in
  match isReference (take 24 rest) with
  | Some genStr =>
      let rest := skipToken rest in               (* the generation *)
      let rest := skipWhitespace rest in
      let rest := skipToken rest in               (* R *)
      Ok (IndirectObject (Atoi sc num1Str) (Atoi sc genStr), rest)
  | None => Ok (makeNumber num1Str, rest)
  end.

Definition readKeywordOrBoolean (input : list ascii) : Result (Object * list ascii) :=
  '(token, rest) ← readTokenString input;
  if String.eqb token "true" then Ok (BooleanObject true, rest)
  else if String.eqb token "false" then Ok (BooleanObject false, rest)
  else if String.eqb token "null" then Ok (NullObject, rest)
  else Ok (KeywordObject token, rest).

(** [ReadObject], [readArray] and [readDictionary] call one another; the
    counter bounds the depth of the calls and the number of loop rounds. *)
Fixpoint ReadObject_fuel (fuel : nat) (input : list ascii) : Result (Object * list ascii) :=
  match fuel with
  | O => OutOfFuel
  | S fuel =>
      let input := skipWhitespace input in
      match input with
      | [] => Err EOF
      | token :: rest =>
          if Ascii.eqb token "/" then readName input
          else if Ascii.eqb token "(" then readString input
          else if Ascii.eqb token "<" then
            match rest with
            | second :: rest' =>
                if Ascii.eqb second "<"
                then '(d, r) ← readDictionary_fuel fuel rest' ∅; Ok (DictionaryObject d, r)
                else readHexString input
            | [] => readHexString input
            end
          else if Ascii.eqb token "[" then
            '(arr, r) ← readArray_fuel fuel rest []; Ok (ArrayObject arr, r)
          else if Ascii.eqb token "%" then ReadObject_fuel fuel (ReadLine rest)
          else if Ascii.eqb token "039" || Ascii.eqb token "034"
          then Ok (KeywordObject (String token EmptyString), rest)
          else if isDigit token || Ascii.eqb token "-" || Ascii.eqb token "+"
                  || Ascii.eqb token "."
          then readNumberOrReference input
          else if isAlpha token then readKeywordOrBoolean input
          else Err (errorString "unexpected token")
      end
  end
with readArray_fuel (fuel : nat) (input : list ascii) (arr : list Object)
  : Result (list Object * list ascii) :=
  match fuel with
  | O => OutOfFuel
  | S fuel =>
      match skipWhitespace input with
      | [] => Panic                        (* b[0] on an empty peek *)
      | b :: rest =>
          if Ascii.eqb b "]" then Ok (arr, rest)
          else
            '(obj, r) ← ReadObject_fuel fuel (b :: rest);
            readArray_fuel fuel r (arr ++ [obj])
      end
  end
with readDictionary_fuel (fuel : nat) (input : list ascii) (dict : gmap string Object)
  : Result (gmap string Object * list ascii) :=
  match fuel with
  | O => OutOfFuel
  | S fuel =>
      let input := skipWhitespace input in
      if hasPrefix ">>" input then Ok (dict, drop 2 input)
      else
        '(keyObj, r1) ← ReadObject_fuel fuel input;
        match keyObj with
        | NameObject key =>
            '(valObj, r2) ← ReadObject_fuel fuel r1;
            readDictionary_fuel fuel r2 (<[key := valObj]> dict)
        | _ => Err (errorString "dictionary key must be a name")
        end
  end.

(** Every call consumes a byte before it calls again, and a loop round
    consumes one more: twice the length of the input, plus one, is enough
    ([ReadObject_fuel_enough] below). *)
Definition ReadObject (input : list ascii) : Result (Object * list ascii) :=
  ReadObject_fuel (2 * length input + 1) input.

(** What is left unread when [ReadObject] returns an error that is not
    [io.EOF].  There are two such errors.  The unexpected token is peeked,
    not read: only the white space before it is gone.  A dictionary key
    that is not a name has been read, with all that came before it.
    Either error can come from an element of an array or of a dictionary,
    after the elements before it have been read.  (After [io.EOF] nothing
    is left; no caller reads on.) *)
Fixpoint unreadAfterError_fuel (fuel : nat) (input : list ascii) : list ascii :=
  match fuel with
  | O => input
  | S fuel =>
      let input := skipWhitespace input in
      match input with
      | [] => []
      | token :: rest =>
          if Ascii.eqb token "<" then
            match rest with
            | second :: rest' =>
                if Ascii.eqb second "<" then unreadInDictionary_fuel fuel rest' else []
            | [] => []
            end
          else if Ascii.eqb token "[" then unreadInArray_fuel fuel rest
          else if Ascii.eqb token "%" then unreadAfterError_fuel fuel (ReadLine rest)
          else input
      end
  end
with unreadInArray_fuel (fuel : nat) (input : list ascii) : list ascii :=
  match fuel with
  | O => input
  | S fuel =>
      match skipWhitespace input with
      | [] => []
      | b :: rest =>
          if Ascii.eqb b "]" then rest
          else
            match ReadObject_fuel fuel (b :: rest) with
            | Ok (_, r) => unreadInArray_fuel fuel r
            | _ => unreadAfterError_fuel fuel (b :: rest)
            end
      end
  end
with unreadInDictionary_fuel (fuel : nat) (input : list ascii) : list ascii :=
  match fuel with
  | O => input
  | S fuel =>
      let input := skipWhitespace input in
      if hasPrefix ">>" input then drop 2 input
      else
        match ReadObject_fuel fuel input with
        | Ok (NameObject _, r1) =>
            match ReadObject_fuel fuel r1 with
            | Ok (_, r2) => unreadInDictionary_fuel fuel r2
            | _ => unreadAfterError_fuel fuel r1
            end
        | Ok (_, r1) => r1
        | _ => unreadAfterError_fuel fuel input
        end
  end.

Definition unreadAfterError (input : list ascii) : list ascii :=
  unreadAfterError_fuel (2 * length input + 1) input.

End WithGoLib.

(** [hex.EncodeToString]: two lower-case hexadecimal digits per byte. *)
Definition hexDigit (n : Z) : ascii :=
  if n <? 10 then byte (byteZ "0" + n) else byte (byteZ "a" + (n - 10)).

Definition hexEncode (b : list ascii) : list ascii :=
  flat_map (fun c => [hexDigit (byteZ c / 16); hexDigit (byteZ c mod 16)]) b.

End Lexer.

(* ================================================================== *)
(** * pkg/pdf/xref.go *)
(* ================================================================== *)

Module XRef.

Record XRefEntry := {
  Offset : Z;
  Generation : Z;
  Free : bool;
  Compressed : bool;
  StreamObj : Z;
  StreamIdx : Z;
}.

Record XRefTable := {
  Entries : gmap Z XRefEntry;
  Trailer : gmap string Object;
}.

Definition NewXRefTable : XRefTable := {| Entries := ∅; Trailer := ∅ |}.

(** [t.Entries[id] = e] under the guard [if _, exists := t.Entries[id]; !exists]. *)
Definition setIfAbsent (id : Z) (e : XRefEntry) (entries : gmap Z XRefEntry)
  : gmap Z XRefEntry :=
  match entries !! id with
  | Some _ => entries
  | None => <[id := e]> entries
  end.

(** [io.ReadFull(r, buf)] for a buffer of [n] bytes. *)
Definition ReadFull (n : nat) (input : list ascii) : Result (list ascii * list ascii) :=
  if (length input <? n)%nat
  then Err (match input with [] => EOF | _ => ErrUnexpectedEOF end)
  else Ok (take n input, drop n input).

(** [readField]: [width] bytes as a big-endian integer.  [Read] on a
    [bytes.Reader] stores the bytes that are left, at most [width]; the
    rest of the fresh buffer stays zero. *)
Definition readField (r : list ascii) (width : Z) : Result (Z * list ascii) :=
  if width =? 0 then Ok (0, r)
  else if negb (makeable width) then Panic       (* make([]byte, width) *)
  else
    let n := Z.to_nat width in
    let buf := copy (make n) (take n r) in
    Ok (fold_left (fun res b => Z.lor (int64 (Z.shiftl res 8)) (byteZ b)) buf 0,
        drop n r).

(** The body of the inner loop of [readXRefStream]: the switch on the type
    field, under the guard that the id has no entry yet. *)
Definition recordStreamEntry (id f1 f2 f3 : Z) (entries : gmap Z XRefEntry)
  : gmap Z XRefEntry :=
  match entries !! id with
  | Some _ => entries
  | None =>
      if f1 =? 1 then
        <[id := {| Offset := f2; Generation := f3; Free := false;
                   Compressed := false; StreamObj := 0; StreamIdx := 0 |}]> entries
      else if f1 =? 2 then
        <[id := {| Offset := 0; Generation := 0; Free := false;
                   Compressed := true; StreamObj := f2; StreamIdx := f3 |}]> entries
      else if f1 =? 0 then
        <[id := {| Offset := 0; Generation := f3; Free := true;
                   Compressed := false; StreamObj := 0; StreamIdx := 0 |}]> entries
      else entries
  end.

(** [for j := 0; j < count; j++]: the rounds that are left, the id of the
    next row, and the unread part of the decoded stream. *)
Fixpoint readStreamRows (w0 w1 w2 : Z) (rounds : nat) (id : Z) (reader : list ascii)
    (entries : gmap Z XRefEntry) : Result (list ascii * gmap Z XRefEntry) :=
  match rounds with
  | O => Ok (reader, entries)
  | S rounds =>
      '(f1, reader) ← readField reader w0;
      '(f2, reader) ← readField reader w1;
      '(f3, reader) ← readField reader w2;
      readStreamRows w0 w1 w2 rounds (int64 (id + 1)) reader
        (recordStreamEntry id f1 f2 f3 entries)
  end.

(** [for i := 0; i < len(index); i += 2]: [index[i+1]] panics when the
    array has an odd number of elements. *)
Fixpoint readStreamIndex (w0 w1 w2 : Z) (index : list Z) (reader : list ascii)
    (entries : gmap Z XRefEntry) {struct index} : Result (gmap Z XRefEntry) :=
  match index with
  | [] => Ok entries
  | [_] => Panic
  | start :: count :: index' =>
      '(reader, entries) ← readStreamRows w0 w1 w2 (Z.to_nat count) start reader entries;
      readStreamIndex w0 w1 w2 index' reader entries
  end.

(** ** PNG predictors *)

Definition abs (x : Z) : Z := if x <? 0 then - x else x.

Definition paethPredictor (a b c : Z) : Z :=
  let p := a + b - c in
  let pa := abs (p - a) in
  let pb := abs (p - b) in
  let pc := abs (p - c) in
  if (pa <=? pb) && (pa <=? pc) then a
  else if pb <=? pc then b
  else c.

(** One row: the filter byte, the bytes of the row and the previous
    decoded row give the decoded row. *)
Fixpoint subRow (rowBytes : list ascii) (left : Z) : list ascii :=
  match rowBytes with
  | [] => []
  | r :: rest => let val := byte (byteZ r + left) in val :: subRow rest (byteZ val)
  end.

Fixpoint upRow (rowBytes prevRow : list ascii) : list ascii :=
  match rowBytes, prevRow with
  | r :: rest, p :: prest => byte (byteZ r + byteZ p) :: upRow rest prest
  | _, _ => []
  end.

Fixpoint averageRow (rowBytes prevRow : list ascii) (left : Z) : list ascii :=
  match rowBytes, prevRow with
  | r :: rest, p :: prest =>
      let avg := (left + byteZ p) / 2 in
      let val := byte (byteZ r + avg) in
      val :: averageRow rest prest (byteZ val)
  | _, _ => []
  end.

Fixpoint paethRow (rowBytes prevRow : list ascii) (left upperLeft : Z) : list ascii :=
  match rowBytes, prevRow with
  | r :: rest, upper :: prest =>
      let val := byte (byteZ r + paethPredictor left (byteZ upper) upperLeft) in
      val :: paethRow rest prest (byteZ val) (byteZ upper)
  | _, _ => []
  end.

Definition unfilterRow (filter : ascii) (rowBytes prevRow : list ascii) : list ascii :=
  let f := byteZ filter in
  if f =? 1 then subRow rowBytes 0
  else if f =? 2 then upRow rowBytes prevRow
  else if f =? 3 then averageRow rowBytes prevRow 0
  else if f =? 4 then paethRow rowBytes prevRow 0 0
  else rowBytes.

Fixpoint unfilterRows (rowCount : nat) (columns : nat) (data prevRow : list ascii)
  : list ascii :=
  match rowCount with
  | O => []
  | S rowCount =>
      match data with
      | filter :: rest =>
          let outRow := unfilterRow filter (take columns rest) prevRow in
          outRow ++ unfilterRows rowCount columns (drop columns rest) outRow
      | [] => []
      end
  end.

Definition applyPngPredictor (data : list ascii) (columns predictor : Z)
  : Result (list ascii) :=
  if (predictor <? 10) || (15 <? predictor) then Err (errorString "unsupported predictor")
  else if negb (makeable columns) then Panic
    (* a division by zero for -1, and make([]byte, columns) for every other
       length that is negative or beyond maxAlloc *)
  else
    let rowSize := columns + 1 in
    let rowCount := Z.of_nat (length data) / rowSize in
    Ok (unfilterRows (Z.to_nat rowCount) (Z.to_nat columns) data
          (make (Z.to_nat columns))).

(** ** The two readers and [ParseXRef] *)

(** [bytes.LastIndex]. *)
Fixpoint LastIndex_from (i : Z) (buf sep : list ascii) : Z :=
  match buf with
  | [] => if decide (sep = []) then i else -1
  | _ :: rest =>
      let later := LastIndex_from (i + 1) rest sep in
      if later =? -1
      then (if decide (take (length sep) buf = sep) then i else -1)
      else later
  end.

Definition LastIndex (buf sep : list ascii) : Z := LastIndex_from 0 buf sep.

Fixpoint leadingDigits (content : list ascii) : list ascii :=
  match content with
  | c :: rest => if Lexer.isDigit c then c :: leadingDigits rest else []
  | [] => []
  end.

Section WithGoLib.

Context (sc : GoLib).

(** Modelled from the spec: the [String] method of the object types is
    declared in objects.go, which is not among the sources; the design
    only fixes that a name prints with its leading slash.  It is a
    parameter here. *)
Context (ObjectString : Object -> string).

Definition findStartXRef (file : list ascii) : Result Z :=
  let size := length file in
  let readSize := Nat.min 1024 size in
  let buf := drop (size - readSize)%nat file in
  let idx := LastIndex buf (bytes_of_string "startxref") in
  if idx =? -1 then Err (errorString "startxref not found")
  else
    let content := TrimSpace sc (string_of_bytes (drop (Z.to_nat (idx + 9)) buf)) in
    let digits := leadingDigits (bytes_of_string content) in
    let '(v, ok) := ParseInt sc (string_of_bytes digits) 10 in
    if ok then Ok v else Err (errorString "strconv.ParseInt").

(** The lines of one subsection of a classical table:
    [for i := 0; i < count; i++], twenty bytes a line. *)
Fixpoint readXRefLines (rounds : nat) (id : Z) (input : list ascii)
    (entries : gmap Z XRefEntry) : Result (list ascii * gmap Z XRefEntry) :=
  match rounds with
  | O => Ok (input, entries)
  | S rounds =>
      '(lineBuf, input) ← ReadFull 20 input;
      let offset := (ParseInt sc (string_of_bytes (take 10 lineBuf)) 10).1 in
      let gen := (ParseInt sc (string_of_bytes (take 5 (drop 11 lineBuf))) 10).1 in
      let flag := nth 17 lineBuf Ascii.zero in
      readXRefLines rounds (int64 (id + 1)) input
        (setIfAbsent id {| Offset := offset; Generation := gen;
                           Free := Ascii.eqb flag "f"; Compressed := false;
                           StreamObj := 0; StreamIdx := 0 |} entries)
  end.

(** The subsections of a classical table, up to the keyword [trailer].
    A round reads two objects, so the length of the input bounds the
    number of rounds. *)
Fixpoint readXRefSections (fuel : nat) (input : list ascii) (entries : gmap Z XRefEntry)
  : Result (list ascii * gmap Z XRefEntry) :=
  match fuel with
  | O => OutOfFuel
  | S fuel =>
      let input := Lexer.skipWhitespace input in
      if hasPrefix "trailer" input then Ok (drop 7 input, entries)
      else
        match Lexer.ReadObject sc input with
        | Err _ => Err (errorString "failed to read xref start number")
        | Panic => Panic
        | OutOfFuel => OutOfFuel
        | Ok (obj, input) =>
            '(obj2, input) ← Lexer.ReadObject sc input;
            match obj, obj2 with
            | NumberObject startNum, NumberObject countNum =>
                let start := float64_to_int startNum in
                let count := float64_to_int countNum in
                let input := Lexer.skipWhitespace input in
                '(input, entries) ← readXRefLines (Z.to_nat count) start input entries;
                readXRefSections fuel input entries
            | _, _ => Err (errorString "malformed xref table: expected integers")
            end
        end
  end.

(** [int64(p.(NumberObject))] for the [/Prev] entry of a dictionary. *)
Definition prevOf (tr : gmap string Object) : Result Z :=
  match tr !! "/Prev" with
  | Some (NumberObject p) => Ok (float64_to_int p)
  | Some _ => Panic
  | None => Ok 0
  end.

(** [readStandardXRef], on the bytes from the keyword [xref] on. *)
Definition readStandardXRef (t : XRefTable) (input : list ascii)
  : Result (Z * gmap string Object * XRefTable) :=
  let input := drop 4 input in
  '(input, entries) ← readXRefSections (S (length input)) input (Entries t);
  '(obj, _) ← Lexer.ReadObject sc input;
  match obj with
  | DictionaryObject tr =>
      prev ← prevOf tr;
      Ok (prev, tr, {| Entries := entries; Trailer := Trailer t |})
  | _ => Err (errorString "expected trailer dictionary")
  end.

Definition wrapErr {A} (msg : string) (r : Result A) : Result A :=
  match r with
  | Err _ => Err (errorString msg)
  | _ => r
  end.

(** [int(o.(NumberObject))], which panics on any other object. *)
Definition mustInt (o : Object) : Result Z :=
  match o with
  | NumberObject n => Ok (float64_to_int n)
  | _ => Panic
  end.

Fixpoint mustInts (os : list Object) : Result (list Z) :=
  match os with
  | [] => Ok []
  | o :: os => n ← mustInt o; ns ← mustInts os; Ok (n :: ns)
  end.

(** The [/W] array of an xref stream dictionary. *)
Definition streamWidths (streamDict : gmap string Object) : Result (Z * Z * Z) :=
  match streamDict !! "/W" with
  | Some (ArrayObject [a; b; c]) =>
      w0 ← mustInt a; w1 ← mustInt b; w2 ← mustInt c; Ok (w0, w1, w2)
  | _ => Err (errorString "invalid /W array")
  end.

(** [/Index], or [[0 Size]], or nothing. *)
Definition streamIndex (streamDict : gmap string Object) : Result (list Z) :=
  match streamDict !! "/Index" with
  | Some (ArrayObject idxObj) => mustInts idxObj
  | _ =>
      match streamDict !! "/Size" with
      | Some (NumberObject sizeObj) => Ok [0; float64_to_int sizeObj]
      | _ => Ok []
      end
  end.

(** [/DecodeParms]: the predictor and the columns. *)
Definition decodeParms (streamDict : gmap string Object) : Z * Z :=
  match streamDict !! "/DecodeParms" with
  | Some (DictionaryObject params) =>
      (match params !! "/Predictor" with
       | Some (NumberObject p) => float64_to_int p
       | _ => 1
       end,
       match params !! "/Columns" with
       | Some (NumberObject c) => float64_to_int c
       | _ => 1
       end)
  | _ => (1, 1)
  end.

(** [readXRefStream], on the bytes from the object header on. *)
Definition readXRefStream (t : XRefTable) (input : list ascii)
  : Result (Z * gmap string Object * XRefTable) :=
  '(_, input) ← wrapErr "failed reading xref stream obj number" (Lexer.ReadObject sc input);
  '(_, input) ← wrapErr "failed reading xref stream gen number" (Lexer.ReadObject sc input);
  '(_, input) ← wrapErr "failed reading xref stream 'obj' keyword" (Lexer.ReadObject sc input);
  '(obj, input) ← wrapErr "failed reading xref stream dictionary" (Lexer.ReadObject sc input);
  match obj with
  | DictionaryObject streamDict =>
      match streamDict !! "/Type" with
      | None => Err (errorString "XRef stream missing /Type field")
      | Some typeObj =>
          if negb (String.eqb (ObjectString typeObj) "/XRef")
          then Err (errorString "object is not an XRef stream")
          else
            match streamDict !! "/Length" with
            | Some (NumberObject lengthObj) =>
                '(w0, w1, w2) ← streamWidths streamDict;
                let stride := int64 (int64 (w0 + w1) + w2) in
                index ← streamIndex streamDict;
                let input := Lexer.skipWhitespace input in
                let input := if hasPrefix "stream" input then drop 6 input else input in
                let input := Lexer.skipWhitespace input in
                let len := float64_to_int lengthObj in
                if negb (makeable len) then Panic      (* make([]byte, len) *)
                else
                  '(compressedData, _) ←
                     wrapErr "failed to read compressed stream data"
                       (ReadFull (Z.to_nat len) input);
                  match zlibReadAll sc compressedData with
                  | None => Err (errorString "zlib")
                  | Some decoded =>
                      let '(predictor, columns) := decodeParms streamDict in
                      decoded ←
                        (if 10 <=? predictor then
                           let columns :=
                             if (columns =? 1) && (1 <? stride) then stride else columns in
                           applyPngPredictor decoded columns predictor
                         else Ok decoded);
                      entries ← readStreamIndex w0 w1 w2 index decoded (Entries t);
                      prev ← prevOf streamDict;
                      Ok (prev, streamDict, {| Entries := entries; Trailer := Trailer t |})
                  end
            | _ => Err (errorString "XRef stream missing /Length")
            end
      end
  | _ => Err (errorString "expected dictionary for xref stream")
  end.

(** [for k, v := range tr]: a key of [tr] is stored unless the trailer
    has it already. *)
Definition mergeTrailer (trailer tr : gmap string Object) : gmap string Object :=
  map_fold (fun k v acc => match acc !! k with
                           | Some _ => acc
                           | None => <[k := v]> acc
                           end) trailer tr.

(** One round of the loop of [ParseXRef] at [nextOffset]: the signature
    check, the reader it selects, and the merge of the trailer. *)
Definition readXRefAt (file : list ascii) (table : XRefTable) (nextOffset : Z)
  : Result (Z * XRefTable) :=
  if nextOffset <? 0 then Err (errorString "failed to seek to xref")
  else
    let input := drop (Z.to_nat nextOffset) file in
    let sig := take 5 input in
    if (length sig <? 4)%nat then Err (errorString "xref signature too short")
    else
      '(prevOffset, tr, table) ←
         (if decide (take 4 sig = bytes_of_string "xref")
          then wrapErr "readStandardXRef failed" (readStandardXRef table input)
          else wrapErr "readXRefStream failed" (readXRefStream table input));
      Ok (prevOffset,
          {| Entries := Entries table; Trailer := mergeTrailer (Trailer table) tr |}).

(** [for nextOffset != 0 { if visited[nextOffset] { break } ... }].  The
    counter bounds the number of rounds. *)
Fixpoint ParseXRef_loop (fuel : nat) (file : list ascii) (table : XRefTable)
    (visited : gset Z) (nextOffset : Z) : Result XRefTable :=
  if nextOffset =? 0 then Ok table
  else if decide (nextOffset ∈ visited) then Ok table
  else
    match fuel with
    | O => OutOfFuel
    | S fuel =>
        let visited := {[nextOffset]} ∪ visited in
        '(prevOffset, table) ← readXRefAt file table nextOffset;
        ParseXRef_loop fuel file table visited prevOffset
    end.

(** The offsets at which the loop runs a round, in order: the same
    recursion, keeping the offsets instead of the table. *)
Fixpoint ParseXRef_rounds (fuel : nat) (file : list ascii) (table : XRefTable)
    (visited : gset Z) (nextOffset : Z) : list Z :=
  if nextOffset =? 0 then []
  else if decide (nextOffset ∈ visited) then []
  else
    match fuel with
    | O => []
    | S fuel =>
        nextOffset ::
        match readXRefAt file table nextOffset with
        | Ok (prevOffset, table) =>
            ParseXRef_rounds fuel file table ({[nextOffset]} ∪ visited) prevOffset
        | _ => []
        end
    end.

(** A round that does not fail reads four bytes at its offset, so the
    offsets of such rounds lie in the file: its length bounds their
    number, and one more round may fail. *)
Definition ParseXRef (file : list ascii) : Result XRefTable :=
  match findStartXRef file with
  | Err _ => Err (errorString "findStartXRef failed")
  | Panic => Panic
  | OutOfFuel => OutOfFuel
  | Ok nextOffset =>
      table ← ParseXRef_loop (S (length file)) file NewXRefTable ∅ nextOffset;
      match Trailer table !! "/Root" with
      | Some _ => Ok table
      | None => Err (errorString "invalid PDF: missing /Root in trailer")
      end
  end.

End WithGoLib.

End XRef.

(* ================================================================== *)
(** * crypto/md5 *)
(* ================================================================== *)

(** The per-object key is an MD5 digest.  crypto/md5 is Go's; the digest
    is written out here after RFC 1321 so that the keys of the model are
    the keys of the program ([md5_empty] and [md5_abc] below are the test
    vectors of the RFC).  Words are integers below [2^32]. *)
Module MD5.

Definition w32 (z : Z) : Z := z mod 2 ^ 32.

Definition rotl (x : Z) (s : Z) : Z :=
  w32 (Z.lor (Z.shiftl x s) (Z.shiftr x (32 - s))).

Definition not32 (x : Z) : Z := 2 ^ 32 - 1 - x.

Definition K : list Z :=
  [ 0xd76aa478; 0xe8c7b756; 0x242070db; 0xc1bdceee;
    0xf57c0faf; 0x4787c62a; 0xa8304613; 0xfd469501;
    0x698098d8; 0x8b44f7af; 0xffff5bb1; 0x895cd7be;
    0x6b901122; 0xfd987193; 0xa679438e; 0x49b40821;
    0xf61e2562; 0xc040b340; 0x265e5a51; 0xe9b6c7aa;
    0xd62f105d; 0x02441453; 0xd8a1e681; 0xe7d3fbc8;
    0x21e1cde6; 0xc33707d6; 0xf4d50d87; 0x455a14ed;
    0xa9e3e905; 0xfcefa3f8; 0x676f02d9; 0x8d2a4c8a;
    0xfffa3942; 0x8771f681; 0x6d9d6122; 0xfde5380c;
    0xa4beea44; 0x4bdecfa9; 0xf6bb4b60; 0xbebfbc70;
    0x289b7ec6; 0xeaa127fa; 0xd4ef3085; 0x04881d05;
    0xd9d4d039; 0xe6db99e5; 0x1fa27cf8; 0xc4ac5665;
    0xf4292244; 0x432aff97; 0xab9423a7; 0xfc93a039;
    0x655b59c3; 0x8f0ccc92; 0xffeff47d; 0x85845dd1;
    0x6fa87e4f; 0xfe2ce6e0; 0xa3014314; 0x4e0811a1;
    0xf7537e82; 0xbd3af235; 0x2ad7d2bb; 0xeb86d391 ].

Definition S : list Z :=
  [ 7; 12; 17; 22; 7; 12; 17; 22; 7; 12; 17; 22; 7; 12; 17; 22;
    5;  9; 14; 20; 5;  9; 14; 20; 5;  9; 14; 20; 5;  9; 14; 20;
    4; 11; 16; 23; 4; 11; 16; 23; 4; 11; 16; 23; 4; 11; 16; 23;
    6; 10; 15; 21; 6; 10; 15; 21; 6; 10; 15; 21; 6; 10; 15; 21 ].

(** A little-endian word of four bytes, and back. *)
Definition word_of (bs : list ascii) : Z :=
  fold_right (fun b acc => byteZ b + 256 * acc) 0 bs.

Definition bytes_of (n : nat) (z : Z) : list ascii :=
  map (fun i => byte (Z.shiftr z (8 * Z.of_nat i))) (seq 0 n).

Fixpoint words (n : nat) (block : list ascii) : list Z :=
  match n with
  | O => []
  | Datatypes.S n => word_of (take 4 block) :: words n (drop 4 block)
  end.

Definition round (M : list Z) (st : Z * Z * Z * Z) (i : nat) : Z * Z * Z * Z :=
  let '(a, b, c, d) := st in
  let iz := Z.of_nat i in
  let '(f, g) :=
    if iz <? 16 then (Z.lor (Z.land b c) (Z.land (not32 b) d), iz)
    else if iz <? 32 then (Z.lor (Z.land d b) (Z.land (not32 d) c), (5 * iz + 1) mod 16)
    else if iz <? 48 then (Z.lxor (Z.lxor b c) d, (3 * iz + 5) mod 16)
    else (Z.lxor c (Z.lor b (not32 d)), (7 * iz) mod 16) in
  let f := w32 (f + a + nth i K 0 + nth (Z.to_nat g) M 0) in
  (d, w32 (b + rotl f (nth i S 0)), b, c).

Definition block (st : Z * Z * Z * Z) (blk : list ascii) : Z * Z * Z * Z :=
  let '(a0, b0, c0, d0) := st in
  let '(a, b, c, d) := fold_left (round (words 16 blk)) (seq 0 64) st in
  (w32 (a0 + a), w32 (b0 + b), w32 (c0 + c), w32 (d0 + d)).

Fixpoint blocks (n : nat) (st : Z * Z * Z * Z) (msg : list ascii) : Z * Z * Z * Z :=
  match n with
  | O => st
  | Datatypes.S n => blocks n (block st (take 64 msg)) (drop 64 msg)
  end.

Definition pad (msg : list ascii) : list ascii :=
  let len := Z.of_nat (length msg) in
  let zeros := Z.to_nat ((55 - len) mod 64) in
  msg ++ [byte 0x80] ++ make zeros ++ bytes_of 8 (8 * len).

(** [md5.Sum]. *)
Definition Sum (msg : list ascii) : list ascii :=
  let padded := pad msg in
  let '(a, b, c, d) :=
    blocks (length padded / 64) (0x67452301, 0xefcdab89, 0x98badcfe, 0x10325476) padded in
  bytes_of 4 a ++ bytes_of 4 b ++ bytes_of 4 c ++ bytes_of 4 d.

End MD5.

(* ================================================================== *)
(** * pkg/pdf/encrypt.go *)
(* ================================================================== *)

Module Crypto.

Module EncryptDict.
Record t := {
  Filter : string;
  V : Z;
  R : Z;
  O : list ascii;
  U : list ascii;
  P : Z;
  Length : Z;
  EncryptMetadata : bool;
}.
End EncryptDict.

Record EncryptionHandler := {
  Dict : EncryptDict.t;
  FileID : list ascii;
  EncryptKey : list ascii;
  V : Z;
  R : Z;
}.

(** The ciphers of crypto/rc4, crypto/aes and crypto/cipher are Go's: the
    key stream and the block decryption are parameters.  What the
    constructors refuse is written out in the functions that call them. *)
Record Ciphers := {
  rc4XORKeyStream : list ascii -> list ascii -> list ascii;            (* key, data *)
  aesCBCDecrypt : list ascii -> list ascii -> list ascii -> list ascii; (* key, iv, data *)
}.

(** [computeObjectKey]: Algorithm 1. *)
Definition computeObjectKey (h : EncryptionHandler) (objNum genNum : Z) : list ascii :=
  let keyLen := length (EncryptKey h) in
  let key := copy (make (keyLen + 5)) (EncryptKey h) in
  let key := <[keyLen := byte objNum]> key in
  let key := <[(keyLen + 1)%nat := byte (Z.shiftr objNum 8)]> key in
  let key := <[(keyLen + 2)%nat := byte (Z.shiftr objNum 16)]> key in
  let key := <[(keyLen + 3)%nat := byte genNum]> key in
  let key := <[(keyLen + 4)%nat := byte (Z.shiftr genNum 8)]> key in
  let key := if 4 <=? V h then key ++ [byte 0x73; byte 0x41; byte 0x6C; byte 0x54] else key in
  let hash := MD5.Sum key in
  let n := (keyLen + 5)%nat in
  let n := if (16 <? n)%nat then 16%nat else n in
  take n hash.

(** [removePadding]: PKCS7, the data as they are when the padding is not
    well formed. *)
Definition removePadding (data : list ascii) : list ascii :=
  match last data with
  | None => data
  | Some lastByte =>
      let paddingLen := Z.to_nat (byteZ lastByte) in
      if (paddingLen =? 0)%nat || (16 <? paddingLen)%nat || (length data <? paddingLen)%nat
      then data
      else if forallb (Ascii.eqb lastByte) (drop (length data - paddingLen) data)
      then take (length data - paddingLen) data
      else data
  end.

Section WithCiphers.

Context (cs : Ciphers).

Definition decryptRC4 (h : EncryptionHandler) (data : list ascii) (objNum genNum : Z)
  : Result (list ascii) :=
  if (length data =? 0)%nat then Ok data
  else
    let key := computeObjectKey h objNum genNum in
    if (length key <? 1)%nat || (256 <? length key)%nat       (* rc4.NewCipher *)
    then Err (errorString "failed to create RC4 cipher")
    else Ok (rc4XORKeyStream cs key data).

Definition decryptAES (h : EncryptionHandler) (data : list ascii) (objNum genNum : Z)
  : Result (list ascii) :=
  if (length data <? 16)%nat
  then Err (errorString "encrypted data too short for AES")
  else
    let key := computeObjectKey h objNum genNum in
    let iv := take 16 data in
    let ciphertext := drop 16 data in
    if negb ((length key =? 16)%nat || (length key =? 24)%nat || (length key =? 32)%nat)
    then Err (errorString "failed to create AES cipher")     (* aes.NewCipher *)
    else if negb (length ciphertext mod 16 =? 0)%nat
    then Panic                                               (* CryptBlocks: input not full blocks *)
    else Ok (removePadding (aesCBCDecrypt cs key iv ciphertext)).

Definition Decrypt (h : EncryptionHandler) (data : list ascii) (objNum genNum : Z)
  : Result (list ascii) :=
  if (length data =? 0)%nat then Ok data
  else if (V h =? 1) || (V h =? 2) then decryptRC4 h data objNum genNum
  else if V h =? 4 then decryptAES h data objNum genNum
  else Err (errorString "unsupported encryption version").

End WithCiphers.

End Crypto.

(* ================================================================== *)
(** * pkg/pdf/encrypt.go: the file key *)
(* ================================================================== *)

Module CryptoKeys.

Import Crypto.

(** The padding string of the standard security handler. *)
Definition paddingString : list ascii :=
  map byte
    [ 0x28; 0xBF; 0x4E; 0x5E; 0x4E; 0x75; 0x8A; 0x41;
      0x64; 0x00; 0x4E; 0x56; 0xFF; 0xFA; 0x01; 0x08;
      0x2E; 0x2E; 0x00; 0xB6; 0xD0; 0x68; 0x3E; 0x80;
      0x2F; 0x0C; 0xA9; 0xFE; 0x64; 0x53; 0x69; 0x7A ].

(** [padPassword]: [copy(padded, password)], then
    [copy(padded[len(password):], paddingString)] for a short password. *)
Definition padPassword (password : list ascii) : list ascii :=
  let padded := copy (make 32) password in
  if (length password <? 32)%nat
  then take (length password) padded
       ++ copy (drop (length password) padded) paddingString
  else padded.

(** [encodePermissions]: the four bytes of an [int32], least significant
    first. *)
Definition encodePermissions (p : Z) : list ascii :=
  [byte p; byte (Z.shiftr p 8); byte (Z.shiftr p 16); byte (Z.shiftr p 24)].

(** [digest[:keyLen]] for the 16 bytes that [hash.Sum(nil)] returns (the
    slice has no spare capacity): a panic outside [0 .. 16]. *)
Definition sliceTo (digest : list ascii) (keyLen : Z) : Result (list ascii) :=
  if (keyLen <? 0) || (Z.of_nat (length digest) <? keyLen) then Panic
  else Ok (take (Z.to_nat keyLen) digest).

(** [for i := 0; i < 50; i++ { digest = md5(digest[:keyLen]) }] *)
Fixpoint rehash (rounds : nat) (keyLen : Z) (digest : list ascii) : Result (list ascii) :=
  match rounds with
  | O => Ok digest
  | S rounds => key ← sliceTo digest keyLen; rehash rounds keyLen (MD5.Sum key)
  end.

(** [computeEncryptionKey]: Algorithm 2.  The division of [Length] by 8
    truncates toward zero. *)
Definition computeEncryptionKey (h : EncryptionHandler) (password : list ascii)
  : Result (list ascii) :=
  let padded := padPassword password in
  let d := Dict h in
  let message :=
    padded ++ EncryptDict.O d ++ encodePermissions (EncryptDict.P d) ++ FileID h
    ++ (if (4 <=? R h) && negb (EncryptDict.EncryptMetadata d)
        then [byte 0xFF; byte 0xFF; byte 0xFF; byte 0xFF] else []) in
  let digest := MD5.Sum message in
  let keyLen := Z.quot (EncryptDict.Length d) 8 in
  digest ← (if 3 <=? R h then rehash 50 keyLen digest else Ok digest);
  sliceTo digest keyLen.

(** [NewEncryptionHandler]: the handler for the empty user password. *)
Definition NewEncryptionHandler (encDict : option EncryptDict.t) (fileID : list ascii)
  : Result EncryptionHandler :=
  match encDict with
  | None => Err (errorString "encryption dictionary is nil")
  | Some d =>
      let handler := {| Dict := d; FileID := fileID; EncryptKey := [];
                        V := EncryptDict.V d; R := EncryptDict.R d |} in
      key ← computeEncryptionKey handler [];
      Ok {| Dict := d; FileID := fileID; EncryptKey := key;
            V := EncryptDict.V d; R := EncryptDict.R d |}
  end.

End CryptoKeys.

(* ================================================================== *)
(** * pkg/pdf/cmap.go *)
(* ================================================================== *)

Module CMapParser.

Record CMap := {
  SpaceWidth : float;
  Map : gmap string string;
}.

Definition NewCMap : CMap := {| SpaceWidth := 0%float; Map := ∅ |}.

Definition setMap (cmap : CMap) (key val : string) : CMap :=
  {| SpaceWidth := SpaceWidth cmap; Map := <[key := val]> (Map cmap) |}.

(** [hexToInt]: the bytes as a big-endian integer, in a 64-bit [int]. *)
Definition hexToInt (h : list ascii) : Z :=
  fold_left (fun val b => Z.lor (int64 (Z.shiftl val 8)) (byteZ b)) h 0.

(** [intToHex]: [out[i] = byte(val & 0xFF); val >>= 8] from the last byte
    to the first. *)
Fixpoint intToHex_loop (i : nat) (val : Z) (out : list ascii) : list ascii :=
  match i with
  | O => out
  | S i => intToHex_loop i (Z.shiftr val 8) (byte (Z.land val 0xFF) :: out)
  end.

Definition intToHex (val : Z) (byteLen : nat) : string :=
  string_of_bytes (intToHex_loop byteLen val []).

(** [utf16.Decode]: a surrogate pair is one rune, a lone surrogate is
    U+FFFD. *)
Fixpoint utf16Decode (s : list Z) : list Z :=
  match s with
  | [] => []
  | r :: rest =>
      if (r <? 0xd800) || (0xe000 <=? r) then r :: utf16Decode rest
      else
        match rest with
        | r2 :: rest' =>
            if (r <? 0xdc00) && (0xdc00 <=? r2) && (r2 <? 0xe000)
            then (Z.lor (Z.shiftl (r - 0xd800) 10) (r2 - 0xdc00) + 0x10000) :: utf16Decode rest'
            else 0xFFFD :: utf16Decode rest
        | [] => [0xFFFD]
        end
  end.

(** [string(rune)]: the UTF-8 encoding. *)
Definition utf8 (r : Z) : list ascii :=
  let r := if (r <? 0) || (0x10FFFF <? r) || ((0xd800 <=? r) && (r <? 0xe000))
           then 0xFFFD else r in
  if r <? 0x80 then [byte r]
  else if r <? 0x800 then [byte (0xC0 + Z.shiftr r 6); byte (0x80 + Z.land r 0x3F)]
  else if r <? 0x10000 then
    [byte (0xE0 + Z.shiftr r 12); byte (0x80 + Z.land (Z.shiftr r 6) 0x3F);
     byte (0x80 + Z.land r 0x3F)]
  else
    [byte (0xF0 + Z.shiftr r 18); byte (0x80 + Z.land (Z.shiftr r 12) 0x3F);
     byte (0x80 + Z.land (Z.shiftr r 6) 0x3F); byte (0x80 + Z.land r 0x3F)].

Fixpoint u16s (b : list ascii) : list Z :=
  match b with
  | hi :: lo :: rest => Z.lor (Z.shiftl (byteZ hi) 8) (byteZ lo) :: u16s rest
  | _ => []
  end.

Definition decodeUTF16BE (b : list ascii) : string :=
  if negb (length b mod 2 =? 0)%nat then string_of_bytes b
  else string_of_bytes (flat_map utf8 (utf16Decode (u16s b))).

(** The array form of a bfrange entry: [for i, elem := range arr]. *)
Fixpoint bfrangeArray (startCode endCode : Z) (width : nat) (i : Z)
    (arr : list Object) (cmap : CMap) : CMap :=
  match arr with
  | [] => cmap
  | elem :: arr =>
      let cmap :=
        match elem with
        | HexStringObject hexStr =>
            let currentCode := int64 (startCode + i) in
            if currentCode <=? endCode
            then setMap cmap (intToHex currentCode width) (decodeUTF16BE hexStr)
            else cmap
        | _ => cmap
        end in
      bfrangeArray startCode endCode width (i + 1) arr cmap
  end.

(** The sequential form: [for i := 0; i <= endCode - startCode; i++]. *)
Definition bfrangeStep (startCode dstCode : Z) (srcLen dstLen : nat)
    (cmap : CMap) (i : Z) : CMap :=
  let srcKey := intToHex (int64 (startCode + i)) srcLen in
  let dstVal := intToHex (int64 (dstCode + i)) dstLen in
  setMap cmap srcKey (decodeUTF16BE (bytes_of_string dstVal)).

Definition bfrangeSequential (startCode endCode dstCode : Z) (srcLen dstLen : nat)
    (cmap : CMap) : Result CMap :=
  let last := int64 (endCode - startCode) in
  if last =? 2 ^ 63 - 1 then OutOfFuel     (* i <= MaxInt64 holds for every i *)
  else Ok (foldl (bfrangeStep startCode dstCode srcLen dstLen) cmap (seqZ 0 (last + 1))).

(** One entry of a bfrange block, the three objects read. *)
Definition bfrangeEntry (startObj endObj nextObj : Object) (cmap : CMap) : Result CMap :=
  match startObj, endObj with
  | HexStringObject startHex, HexStringObject endHex =>
      let startCode := hexToInt startHex in
      let endCode := hexToInt endHex in
      match nextObj with
      | ArrayObject arr => Ok (bfrangeArray startCode endCode (length startHex) 0 arr cmap)
      | HexStringObject dstStartHex =>
          bfrangeSequential startCode endCode (hexToInt dstStartHex)
            (length startHex) (length dstStartHex) cmap
      | _ => Ok cmap
      end
  | _, _ => Ok cmap
  end.

Section WithGoLib.

Context (sc : GoLib).

(** [parseBFRange]: entries up to [endbfrange].  An entry reads three
    objects, so the counter need not exceed the length of the input. *)
Fixpoint parseBFRange (fuel : nat) (l : list ascii) (cmap : CMap)
  : Result (list ascii * CMap) :=
  match fuel with
  | O => OutOfFuel
  | S fuel =>
      '(startObj, l) ← Lexer.ReadObject sc l;
      match startObj with
      | KeywordObject keyword =>
          if String.eqb keyword "endbfrange" then Ok (l, cmap)
          else parseBFRange fuel l cmap
      | _ =>
          '(endObj, l) ← Lexer.ReadObject sc l;
          '(nextObj, l) ← Lexer.ReadObject sc l;
          cmap ← bfrangeEntry startObj endObj nextObj cmap;
          parseBFRange fuel l cmap
      end
  end.

(** [parseBFChar]: pairs up to [endbfchar]. *)
Fixpoint parseBFChar (fuel : nat) (l : list ascii) (cmap : CMap)
  : Result (list ascii * CMap) :=
  match fuel with
  | O => OutOfFuel
  | S fuel =>
      '(srcObj, l) ← Lexer.ReadObject sc l;
      match srcObj with
      | KeywordObject keyword =>
          if String.eqb keyword "endbfchar" then Ok (l, cmap)
          else parseBFChar fuel l cmap
      | _ =>
          '(dstObj, l) ← Lexer.ReadObject sc l;
          match srcObj, dstObj with
          | HexStringObject srcHex, HexStringObject dstHex =>
              parseBFChar fuel l (setMap cmap (string_of_bytes srcHex) (decodeUTF16BE dstHex))
          | _, _ => parseBFChar fuel l cmap
          end
      end
  end.

(** [ParseCMap].  An error other than the end of the input is skipped
    and the loop reads on where the lexer stopped.  When the lexer stopped
    in front of a byte it refuses, it refuses it again: the Go loop then
    does not end, and no counter of the model suffices. *)
Fixpoint ParseCMap_loop (fuel : nat) (l : list ascii) (cmap : CMap) : Result CMap :=
  match fuel with
  | O => OutOfFuel
  | S fuel =>
      match Lexer.ReadObject sc l with
      | Err EOF => Ok cmap
      | Err _ => ParseCMap_loop fuel (Lexer.unreadAfterError sc l) cmap
      | Panic => Panic
      | OutOfFuel => OutOfFuel
      | Ok (KeywordObject keyword, l) =>
          if String.eqb keyword "beginbfchar" then
            '(l, cmap) ← parseBFChar (S (length l)) l cmap; ParseCMap_loop fuel l cmap
          else if String.eqb keyword "beginbfrange" then
            '(l, cmap) ← parseBFRange (S (length l)) l cmap; ParseCMap_loop fuel l cmap
          else ParseCMap_loop fuel l cmap
      | Ok (_, l) => ParseCMap_loop fuel l cmap
      end
  end.

Definition ParseCMap (data : list ascii) : Result CMap :=
  ParseCMap_loop (S (length data)) data NewCMap.

End WithGoLib.

End CMapParser.

(* ================================================================== *)
(** * pkg/pdf/reader.go: the page tree *)
(* ================================================================== *)

Module Pages.

(** [Reader.GetObject] seeks to the offset of the object and parses it
    anew at every call; for a given file it is a function of the
    reference, and the model keeps that function ([objectAt]) next to the
    cross-reference table. *)
Record Reader := {
  xref : XRef.XRefTable;
  objectAt : Z -> Z -> Result Object;
}.

Definition GetObject (r : Reader) (ObjectNumber Generation : Z) : Result Object :=
  objectAt r ObjectNumber Generation.

(** [Resolve]: a reference is replaced by its object, by [Null] when the
    object cannot be read; any other object is returned as it is. *)
Definition Resolve (r : Reader) (obj : Object) : Result Object :=
  match obj with
  | IndirectObject n g =>
      match GetObject r n g with
      | Err _ => Ok NullObject
      | res => res
      end
  | _ => Ok obj
  end.

Section WithObjectString.

(** The [String] method of the objects, as in [XRef]. *)
Context (ObjectString : Object -> string).

(** The loop of [findPage] over the kids of a node; [findPage] is the
    recursive call.  The index is passed by pointer in the program; here a
    call returns its new value with the page. *)
Fixpoint findPage_kids
    (findPage : gmap string Object -> Z -> Result (option (gmap string Object) * Z))
    (r : Reader) (kids : list Object) (targetIndex : Z)
  : Result (option (gmap string Object) * Z) :=
  match kids with
  | [] => Ok (None, targetIndex)
  | kidRef :: kids =>
      kidObj ← Resolve r kidRef;
      match kidObj with
      | DictionaryObject kid =>
          match kid !! "/Count" with
          | Some (NumberObject countObj) =>
              let count := float64_to_int countObj in
              if targetIndex <? count then
                '(found, targetIndex) ← findPage kid targetIndex;
                match found with
                | Some _ => Ok (found, targetIndex)
                | None => findPage_kids findPage r kids targetIndex
                end
              else findPage_kids findPage r kids (int64 (targetIndex - count))
          | _ =>
              '(found, targetIndex) ← findPage kid targetIndex;
              match found with
              | Some _ => Ok (found, targetIndex)
              | None => findPage_kids findPage r kids targetIndex
              end
          end
      | _ => Panic
      end
  end.

(** [findPage].  A node without [/Type] panics in the method call on a
    nil interface, and so do the two type assertions.  The counter bounds
    the depth of the recursion. *)
Fixpoint findPage (fuel : nat) (r : Reader) (node : gmap string Object) (targetIndex : Z)
  : Result (option (gmap string Object) * Z) :=
  match fuel with
  | O => OutOfFuel
  | S fuel =>
      match node !! "/Type" with
      | None => Panic
      | Some nodeType =>
          if String.eqb (ObjectString nodeType) "/Page" then
            if targetIndex =? 0 then Ok (Some node, targetIndex)
            else Ok (None, int64 (targetIndex - 1))
          else
            match node !! "/Kids" with
            | None => Panic
            | Some kidsObj =>
                kidsObj ← Resolve r kidsObj;
                match kidsObj with
                | ArrayObject kids => findPage_kids (findPage fuel r) r kids targetIndex
                | _ => Panic
                end
            end
      end
  end.

(** [r.Resolve(d[key])], where a missing key is the nil object. *)
Definition resolveKey (r : Reader) (d : gmap string Object) (key : string)
  : Result (option Object) :=
  match d !! key with
  | None => Ok None
  | Some o => o ← Resolve r o; Ok (Some o)
  end.

(** [GetPage]: the page and a nil error, a nil page and a nil error
    ([Ok None]), or an error. *)
Definition GetPage (fuel : nat) (r : Reader) (pageIndex : Z)
  : Result (option (gmap string Object)) :=
  catalog ← resolveKey r (XRef.Trailer (xref r)) "/Root";
  match catalog with
  | Some (DictionaryObject catDict) =>
      rootPages ← resolveKey r catDict "/Pages";
      match rootPages with
      | Some (DictionaryObject rootPagesDict) =>
          '(found, _) ← findPage fuel r rootPagesDict pageIndex;
          Ok found
      | _ => Err (errorString "root pages is not a dictionary")
      end
  | _ => Err (errorString "catalog is not a dictionary")
  end.

(** The page tree below a node, as [findPage] walks it: [PageTree ok node n]
    when the walk from [node] ends and meets [n] leaves of type [/Page];
    [ok kid n] is required of every kid with its number of leaves. *)
Inductive PageTree (r : Reader) (ok : gmap string Object -> Z -> Prop)
  : gmap string Object -> Z -> Prop :=
| PageLeaf node nodeType :
    node !! "/Type" = Some nodeType ->
    ObjectString nodeType = "/Page" ->
    PageTree r ok node 1
| PageNode node nodeType kidsObj kids n :
    node !! "/Type" = Some nodeType ->
    ObjectString nodeType <> "/Page" ->
    node !! "/Kids" = Some kidsObj ->
    Resolve r kidsObj = Ok (ArrayObject kids) ->
    PageKids r ok kids n ->
    PageTree r ok node n
with PageKids (r : Reader) (ok : gmap string Object -> Z -> Prop)
  : list Object -> Z -> Prop :=
| PageKidsNil : PageKids r ok [] 0
| PageKidsCons kidRef kid kids n m :
    Resolve r kidRef = Ok (DictionaryObject kid) ->
    PageTree r ok kid n ->
    ok kid n ->
    PageKids r ok kids m ->
    PageKids r ok (kidRef :: kids) (n + m).

(** The [/Count] of a node, when it has one, is its number of leaves. *)
Definition countAccurate (kid : gmap string Object) (n : Z) : Prop :=
  forall countObj, kid !! "/Count" = Some (NumberObject countObj) ->
                   float64_to_int countObj = n.

Definition anyCount (kid : gmap string Object) (n : Z) : Prop := True.

(** The root of the page tree of a document, with its number of leaves. *)
Definition PagesRoot (r : Reader) (ok : gmap string Object -> Z -> Prop) (n : Z) : Prop :=
  exists catDict rootPagesDict,
    resolveKey r (XRef.Trailer (xref r)) "/Root" = Ok (Some (DictionaryObject catDict))
    /\ resolveKey r catDict "/Pages" = Ok (Some (DictionaryObject rootPagesDict))
    /\ PageTree r ok rootPagesDict n.

End WithObjectString.

End Pages.

(* ================================================================== *)
(** * pkg/pdf/reader.go: the document *)
(* ================================================================== *)

Module Document.

Import Pages.

(** [NumPages]: the [/Count] of the root of the page tree, 0 when the
    catalog, the root or the count is missing. *)
Definition NumPages (r : Reader) : Result Z :=
  catalog ← resolveKey r (XRef.Trailer (xref r)) "/Root";
  match catalog with
  | Some (DictionaryObject catDict) =>
      pages ← resolveKey r catDict "/Pages";
      match pages with
      | Some (DictionaryObject pagesDict) =>
          match pagesDict !! "/Count" with
          | Some (NumberObject count) => Ok (float64_to_int count)
          | _ => Ok 0
          end
      | _ => Ok 0
      end
  | _ => Ok 0
  end.

(** [GetInfo]: the information dictionary, or nil. *)
Definition GetInfo (r : Reader) : Result (option (gmap string Object)) :=
  match XRef.Trailer (xref r) !! "/Info" with
  | Some infoRef =>
      resolved ← Resolve r infoRef;
      match resolved with
      | DictionaryObject dict => Ok (Some dict)
      | _ => Ok None
      end
  | None => Ok None
  end.

Definition IsEncrypted (r : Reader) : bool :=
  bool_decide (is_Some (XRef.Trailer (xref r) !! "/Encrypt")).

(** The keys whose values are not encrypted. *)
Definition metadataKeys : list string :=
  [ "/Type"; "/Subtype"; "/Length"; "/Filter"; "/DecodeParms"; "/Width"; "/Height";
    "/BitsPerComponent"; "/ColorSpace"; "/Encrypt"; "/ID"; "/Size"; "/Root"; "/Info";
    "/Prev"; "/Index"; "/W"; "/First"; "/N" ]%string.

Definition isMetadataKey (key : string) : bool :=
  existsb (String.eqb key) metadataKeys.

Section WithCiphers.

Context (cs : Crypto.Ciphers).

(** [Decrypt] as [decryptObject] calls it: on an error the bytes stay as
    they are. *)
Definition decryptBytes (h : Crypto.EncryptionHandler) (objNum genNum : Z)
    (data : list ascii) : Result (list ascii) :=
  match Crypto.Decrypt cs h data objNum genNum with
  | Err _ => Ok data
  | res => res
  end.

(** The values of a dictionary once the loop over its keys is through: a
    panic when one of them panicked. *)
Definition collect (results : gmap string (Result Object)) : Result (gmap string Object) :=
  map_fold (fun key res acc => d ← acc; val ← res; Ok (<[key := val]> d)) (Ok ∅) results.

(** [decryptObject], for a reader with a handler; without one the object
    is returned as it is. *)
Fixpoint decryptObject (h : Crypto.EncryptionHandler) (objNum genNum : Z) (obj : Object)
  : Result Object :=
  match obj with
  | StringObject v =>
      decrypted ← decryptBytes h objNum genNum (bytes_of_string v);
      Ok (StringObject (string_of_bytes decrypted))
  | HexStringObject v =>
      decrypted ← decryptBytes h objNum genNum v;
      Ok (HexStringObject decrypted)
  | ArrayObject v =>
      elems ← mapM (decryptObject h objNum genNum) v;
      Ok (ArrayObject elems)
  | DictionaryObject v =>
      d ← collect (map_imap (fun key val =>
                     Some (if isMetadataKey key then Ok val
                           else decryptObject h objNum genNum val)) v);
      Ok (DictionaryObject d)
  | _ => Ok obj
  end.

End WithCiphers.

End Document.

(* ================================================================== *)
(** * pkg/pdf/extractor.go *)
(* ================================================================== *)

(** The sources hold two versions of the extractor; the later one adds
    the image operators [Do] and [INLINE_IMAGE] and is the one embedded
    here, the text and graphics-state operators being the same in both.
    The arithmetic is that of binary64, operation by operation, as the Go
    compiler emits it where it does not fuse a multiplication with an
    addition (amd64). *)
Module Extract.

#[local] Open Scope float_scope.

(** [Matrix]: [[6]float64], the last column (0, 0, 1) implicit. *)
Record Matrix := mkMatrix { m0 : float; m1 : float; m2 : float; m3 : float; m4 : float; m5 : float }.

Definition IdentityMatrix : Matrix := mkMatrix 1 0 0 1 0 0.

Definition Mult (a b : Matrix) : Matrix :=
  mkMatrix
    (m0 a * m0 b + m1 a * m2 b)
    (m0 a * m1 b + m1 a * m3 b)
    (m2 a * m0 b + m3 a * m2 b)
    (m2 a * m1 b + m3 a * m3 b)
    (m4 a * m0 b + m5 a * m2 b + m4 b)
    (m4 a * m1 b + m5 a * m3 b + m5 b).

Record GraphicsState := { CTM : Matrix }.

Record Font := {
  BaseFont : string;
  CMap : option CMapParser.CMap;       (* a pointer; nil is [None] *)
  Encoding : gmap Z string;
  Widths : gmap Z float;
  MissingW : float;
  SpaceWidth : float;
  IsCID : bool;
}.

Record TextState := {
  TextFont : option Font;              (* the field [Font], a pointer *)
  FontSize : float;
  CharSpacing : float;
  WordSpacing : float;
  Scale : float;
  Leading : float;
  Rise : float;
  TM : Matrix;
  TLM : Matrix;
}.

Definition NewTextState : TextState :=
  {| TextFont := None; FontSize := 0; CharSpacing := 0; WordSpacing := 0;
     Scale := 100; Leading := 0; Rise := 0;
     TM := IdentityMatrix; TLM := IdentityMatrix |}.

(** pkg/model/types.go *)
Record Image := {
  Type_ : string;
  ID : string;
  Rect : list float;
  Width : float;
  Height : float;
  ColorSpace : string;
}.

(** Modelled from the spec: [Operation] is declared with the
    content-stream parser, which is not among the sources; section 4.6 of
    the design gives it an operator keyword and the operands read before
    it, and the extractor builds [Operation{Operator: .., Operands: ..}]. *)
Record Operation := {
  Operator : string;
  Operands : list Object;
}.

Record Extractor := {
  reader : Pages.Reader;
  page : gmap string Object;
  gState : GraphicsState;
  gStack : list GraphicsState;
  textState : TextState;
  fonts : gmap string Font;
  lastX : float;
  lastY : float;
  buffer : string;
  images : option (list Image);        (* a pointer to a slice; nil when disabled *)
  xobjects : gmap string Object;
}.

Definition with_gState (e : Extractor) (gs : GraphicsState) : Extractor :=
  {| reader := reader e; page := page e; gState := gs; gStack := gStack e;
     textState := textState e; fonts := fonts e; lastX := lastX e; lastY := lastY e;
     buffer := buffer e; images := images e; xobjects := xobjects e |}.

Definition with_gStack (e : Extractor) (st : list GraphicsState) : Extractor :=
  {| reader := reader e; page := page e; gState := gState e; gStack := st;
     textState := textState e; fonts := fonts e; lastX := lastX e; lastY := lastY e;
     buffer := buffer e; images := images e; xobjects := xobjects e |}.

Definition with_textState (e : Extractor) (ts : TextState) : Extractor :=
  {| reader := reader e; page := page e; gState := gState e; gStack := gStack e;
     textState := ts; fonts := fonts e; lastX := lastX e; lastY := lastY e;
     buffer := buffer e; images := images e; xobjects := xobjects e |}.

Definition with_output (e : Extractor) (x y : float) (buf : string) : Extractor :=
  {| reader := reader e; page := page e; gState := gState e; gStack := gStack e;
     textState := textState e; fonts := fonts e; lastX := x; lastY := y;
     buffer := buf; images := images e; xobjects := xobjects e |}.

Definition setText (ts : TextState) (font : option Font)
    (size charSp wordSp scale leading : float) (tm tlm : Matrix) : TextState :=
  {| TextFont := font; FontSize := size; CharSpacing := charSp; WordSpacing := wordSp;
     Scale := scale; Leading := leading; Rise := Rise ts; TM := tm; TLM := tlm |}.

Definition with_TM (ts : TextState) (tm tlm : Matrix) : TextState :=
  setText ts (TextFont ts) (FontSize ts) (CharSpacing ts) (WordSpacing ts) (Scale ts)
    (Leading ts) tm tlm.

Definition number (o : option Object) : float :=
  match o with
  | Some (NumberObject n) => n
  | _ => 0
  end.

(** [args[i]]: a panic when the slice is shorter. *)
Definition arg (args : list Object) (i : nat) : Result Object :=
  match args !! i with
  | Some o => Ok o
  | None => Panic
  end.

Definition numberArg (args : list Object) (i : nat) : Result float :=
  o ← arg args i; Ok (number (Some o)).

Definition argsToMatrix (args : list Object) : Result Matrix :=
  a ← numberArg args 0; b ← numberArg args 1; c ← numberArg args 2;
  d ← numberArg args 3; e ← numberArg args 4; f ← numberArg args 5;
  Ok (mkMatrix a b c d e f).

(** ** handleText *)

Definition isPrintableASCII (b : ascii) : bool := (0x20 <=? byteZ b)%Z && (byteZ b <=? 0x7E)%Z.

Definition isWhitespaceChar (b : ascii) : bool :=
  (byteZ b =? 0x09)%Z || (byteZ b =? 0x0A)%Z || (byteZ b =? 0x0D)%Z.

Definition filterControlChars (rawBytes : list ascii) : string :=
  string_of_bytes (filter (fun b => isPrintableASCII b || isWhitespaceChar b = true) rawBytes).

(** [strings.HasSuffix(s, c)] for a one-byte suffix. *)
Definition hasSuffixByte (s : string) (c : ascii) : bool :=
  match last (bytes_of_string s) with
  | Some b => Ascii.eqb b c
  | None => false
  end.

Definition newline : string := String "010" EmptyString.

(** Step 2 of [handleText]: the width of a space in user space, zero
    without a font. *)
Definition spaceWidthUser (ts : TextState) : float :=
  match TextFont ts with
  | Some font => (SpaceWidth font / 1000) * FontSize ts * (Scale ts / 100)
  | None => 0
  end.

(** [threshold := FontSize * 0.2; if spaceWidth > 0 { threshold = spaceWidth * 0.5 }] *)
Definition threshold (ts : TextState) : float :=
  let spaceWidth := spaceWidthUser ts in
  if 0 <? spaceWidth then spaceWidth * 0.5 else FontSize ts * 0.2.

(** The line break or the space written before the text shown at (x, y). *)
Definition writeBreak (e : Extractor) (x y : float) : string :=
  let ts := textState e in
  if FontSize ts * 0.5 <? PrimFloat.abs (y - lastY e) then
    if (0 <? String.length (buffer e))%nat then buffer e +:+ newline else buffer e
  else
    let gap := x - lastX e in
    if threshold ts <? gap then
      if (0 <? String.length (buffer e))%nat
         && negb (hasSuffixByte (buffer e) "010")
         && negb (hasSuffixByte (buffer e) " ")
      then buffer e +:+ " " else buffer e
    else buffer e.

(** Step 3: the three ways to decode. *)
Fixpoint decodeWithCMap (m : gmap string string) (rawBytes : list ascii) (decoded : string)
  : string :=
  match rawBytes with
  | [] => decoded
  | b :: rest =>
      let one :=
        match m !! string_of_bytes [b] with
        | Some val => decodeWithCMap m rest (decoded +:+ val)
        | None => decodeWithCMap m rest (WriteByte decoded b)
        end in
      match rest with
      | b2 :: rest' =>
          match m !! string_of_bytes [b; b2] with
          | Some val => decodeWithCMap m rest' (decoded +:+ val)
          | None => one
          end
      | [] => one
      end
  end.

Section WithTables.

(** The table [glyphToUnicode] of the source has some 250 entries, glyph
    name to UTF-8 text; the development is parametric in it. *)
Context (glyphToUnicode : gmap string string).

Definition decodeGlyph (encoding : gmap Z string) (b : ascii) : string :=
  match encoding !! byteZ b with
  | Some glyphName =>
      match glyphToUnicode !! glyphName with
      | Some unicode => unicode
      | None =>
          match bytes_of_string glyphName with
          | [slash; c] => if Ascii.eqb slash "/" then String c EmptyString
                          else String b EmptyString
          | _ => String b EmptyString
          end
      end
  | None => String b EmptyString
  end.

Definition decodeText (ts : TextState) (rawBytes : list ascii) : string :=
  let viaEncoding :=
    match TextFont ts with
    | Some font =>
        if (0 <? size (Encoding font))%nat
        then Some (foldl (fun acc b => acc +:+ decodeGlyph (Encoding font) b) "" rawBytes)
        else None
    | None => None
    end in
  let viaCMap :=
    match TextFont ts with
    | Some font =>
        match CMap font with
        | Some cmap =>
            if (0 <? size (CMapParser.Map cmap))%nat
            then Some (decodeWithCMap (CMapParser.Map cmap) rawBytes "")
            else None
        | None => None
        end
    | None => None
    end in
  match viaCMap, viaEncoding with
  | Some decoded, _ => decoded
  | None, Some decoded => decoded
  | None, None => filterControlChars rawBytes
  end.

(** Step 4: the width of the string shown. *)
Definition textWidth (ts : TextState) (rawBytes : list ascii) (decoded : string) : float :=
  let byWidths :=
    match TextFont ts with
    | Some font =>
        if (0 <? size (Widths font))%nat then
          let totalWidth :=
            foldl (fun total b =>
                     total + match Widths font !! byteZ b with
                             | Some val => val
                             | None => MissingW font
                             end) 0 rawBytes in
          let totalWidth := (totalWidth / 1000) * FontSize ts in
          let totalWidth :=
            totalWidth + float64_of_int (Z.of_nat (length rawBytes)) * CharSpacing ts in
          let spaceCount :=
            length (filter (fun c => c = " "%char) (bytes_of_string decoded)) in
          let totalWidth :=
            totalWidth + float64_of_int (Z.of_nat spaceCount) * WordSpacing ts in
          Some (totalWidth * (Scale ts / 100))
        else None
    | None => None
    end in
  match byWidths with
  | Some totalWidth => totalWidth
  | None => float64_of_int (Z.of_nat (String.length decoded)) * FontSize ts * 0.5
            * (Scale ts / 100)
  end.

Definition handleText (e : Extractor) (obj : Object) : Extractor :=
  let shown :=
    match obj with
    | StringObject o => Some (bytes_of_string o)
    | HexStringObject o => Some o
    | _ => None
    end in
  match shown with
  | None => e
  | Some rawBytes =>
      let ts := textState e in
      let fm := Mult (TM ts) (CTM (gState e)) in
      let x := m4 fm in
      let y := m5 fm in
      let buf := writeBreak e x y in
      let decoded := decodeText ts rawBytes in
      let buf := buf +:+ decoded in
      let totalWidth := textWidth ts rawBytes decoded in
      let tm := TM ts in
      let tm := mkMatrix (m0 tm) (m1 tm) (m2 tm) (m3 tm)
                  (m4 tm + totalWidth * m0 tm) (m5 tm + totalWidth * m1 tm) in
      with_textState (with_output e (x + totalWidth) y buf) (with_TM ts tm (TLM ts))
  end.

(** ** processOp *)

(** The image operators record image descriptors through the reader and
    the content-stream parser, which is not among the sources; they are
    parameters of [processOp], and [Images] below has them. *)
Context (recordInlineImage : gmap string Object -> Extractor -> Result Extractor).
Context (recordImage : string -> Extractor -> Result Extractor).

Definition translate (tx ty : float) : Matrix := mkMatrix 1 0 0 1 tx ty.

(** The operator [T*]. *)
Definition nextLine (e : Extractor) : Extractor :=
  let ts := textState e in
  let m := translate 0 (- Leading ts) in
  let tlm := Mult m (TLM ts) in
  with_textState e (with_TM ts tlm tlm).

(** The operator [Tj]. *)
Definition showText (e : Extractor) (operands : list Object) : Extractor :=
  match operands with
  | obj :: _ => handleText e obj
  | [] => e
  end.

(** One element of the array of [TJ]. *)
Definition showElement (e : Extractor) (obj : Object) : Extractor :=
  match obj with
  | NumberObject numObj =>
      let ts := textState e in
      let shift := - numObj / 1000 * FontSize ts * (Scale ts / 100) in
      let tm := TM ts in
      let tm := mkMatrix (m0 tm) (m1 tm) (m2 tm) (m3 tm)
                  (m4 tm + shift * m0 tm) (m5 tm + shift * m1 tm) in
      with_textState e (with_TM ts tm (TLM ts))
  | _ => handleText e obj
  end.

Definition quote : string := String "034" EmptyString.

Definition processOp (e : Extractor) (op : Operation) : Result Extractor :=
  let ts := textState e in
  let operator := Operator op in
  let operands := Operands op in
  if String.eqb operator "q" then Ok (with_gStack e (gStack e ++ [gState e]))
  else if String.eqb operator "Q" then
    match last (gStack e) with
    | Some top => Ok (with_gStack (with_gState e top) (take (length (gStack e) - 1) (gStack e)))
    | None => Ok e
    end
  else if String.eqb operator "cm" then
    if (length operands =? 6)%nat then
      m ← argsToMatrix operands;
      Ok (with_gState e {| CTM := Mult m (CTM (gState e)) |})
    else Ok e
  else if String.eqb operator "BT" then
    Ok (with_textState e (with_TM ts IdentityMatrix IdentityMatrix))
  else if String.eqb operator "Tc" then
    v ← numberArg operands 0;
    Ok (with_textState e (setText ts (TextFont ts) (FontSize ts) v (WordSpacing ts)
                            (Scale ts) (Leading ts) (TM ts) (TLM ts)))
  else if String.eqb operator "Tw" then
    v ← numberArg operands 0;
    Ok (with_textState e (setText ts (TextFont ts) (FontSize ts) (CharSpacing ts) v
                            (Scale ts) (Leading ts) (TM ts) (TLM ts)))
  else if String.eqb operator "Tz" then
    v ← numberArg operands 0;
    Ok (with_textState e (setText ts (TextFont ts) (FontSize ts) (CharSpacing ts)
                            (WordSpacing ts) v (Leading ts) (TM ts) (TLM ts)))
  else if String.eqb operator "TL" then
    v ← numberArg operands 0;
    Ok (with_textState e (setText ts (TextFont ts) (FontSize ts) (CharSpacing ts)
                            (WordSpacing ts) (Scale ts) v (TM ts) (TLM ts)))
  else if String.eqb operator "Tf" then
    name ← arg operands 0;
    let font :=
      match name with
      | NameObject name =>
          match fonts e !! name with
          | Some font => Some font
          | None => TextFont ts
          end
      | _ => TextFont ts
      end in
    size ← numberArg operands 1;
    Ok (with_textState e (setText ts font size (CharSpacing ts) (WordSpacing ts)
                            (Scale ts) (Leading ts) (TM ts) (TLM ts)))
  else if String.eqb operator "Td" then
    tx ← numberArg operands 0;
    ty ← numberArg operands 1;
    let tlm := Mult (translate tx ty) (TLM ts) in
    Ok (with_textState e (with_TM ts tlm tlm))
  else if String.eqb operator "TD" then
    tx ← numberArg operands 0;
    ty ← numberArg operands 1;
    let tlm := Mult (translate tx ty) (TLM ts) in
    Ok (with_textState e (setText ts (TextFont ts) (FontSize ts) (CharSpacing ts)
                            (WordSpacing ts) (Scale ts) (- ty) tlm tlm))
  else if String.eqb operator "Tm" then
    if (length operands =? 6)%nat then
      m ← argsToMatrix operands;
      Ok (with_textState e (with_TM ts m m))
    else Ok e
  else if String.eqb operator "T*" then Ok (nextLine e)
  else if String.eqb operator "Tj" then Ok (showText e operands)
  else if String.eqb operator "TJ" then
    first ← arg operands 0;
    match first with
    | ArrayObject arr => Ok (foldl showElement e arr)
    | _ => Ok e
    end
  else if String.eqb operator "'" then Ok (showText (nextLine e) operands)
  else if String.eqb operator quote then
    aw ← numberArg operands 0;
    ac ← numberArg operands 1;
    let e := with_textState e (setText ts (TextFont ts) (FontSize ts) ac aw
                                 (Scale ts) (Leading ts) (TM ts) (TLM ts)) in
    Ok (showText (nextLine e) (drop 2 operands))
  else if String.eqb operator "INLINE_IMAGE" then
    match images e, operands with
    | Some _, DictionaryObject dict :: _ => recordInlineImage dict e
    | _, _ => Ok e
    end
  else if String.eqb operator "Do" then
    match images e, operands with
    | Some _, NameObject name :: _ => recordImage name e
    | _, _ => Ok e
    end
  else Ok e.

(** The loop of [ExtractText], over the operations that the parser of the
    content stream yields. *)
Definition processOps (e : Extractor) (ops : list Operation) : Result Extractor :=
  foldl (fun r op => e ← r; processOp e op) (Ok e) ops.

End WithTables.

End Extract.

(* ================================================================== *)
(** * pkg/pdf/extractor.go: fonts *)
(* ================================================================== *)

(** [loadFont] and [parseEncoding], as the extractor has them without the
    font cache of the reader (the cache is not among the sources). *)
Module Fonts.

Import Pages Extract.

#[local] Open Scope float_scope.

Definition with_Encoding (f : Font) (encoding : gmap Z string) : Font :=
  {| BaseFont := BaseFont f; CMap := CMap f; Encoding := encoding; Widths := Widths f;
     MissingW := MissingW f; SpaceWidth := SpaceWidth f; IsCID := IsCID f |}.

(** The loop of [parseEncoding] over the [/Differences] array: a number
    sets the current code, a name is assigned to the current code, which
    then moves on; any other object is passed over. *)
Fixpoint differences (diff : list Object) (currentCode : Z) (encoding : gmap Z string)
  : gmap Z string :=
  match diff with
  | [] => encoding
  | NumberObject num :: diff => differences diff (float64_to_int num) encoding
  | NameObject name :: diff =>
      differences diff (int64 (currentCode + 1)) (<[currentCode := name]> encoding)
  | _ :: diff => differences diff currentCode encoding
  end.

Definition parseEncoding (r : Reader) (f : Font) (encObj : Object) : Result Font :=
  resolved ← Resolve r encObj;
  match resolved with
  | DictionaryObject encDict =>
      diffObj ← resolveKey r encDict "/Differences";
      match diffObj with
      | Some (ArrayObject diff) => Ok (with_Encoding f (differences diff 0 (Encoding f)))
      | _ => Ok f
      end
  | _ => Ok f
  end.

(** The loop of [loadFont] over the [/Widths] array:
    [f.Widths[first+i] = float64(w)] for the elements that are numbers. *)
Fixpoint loadWidths (first i : Z) (widths : list Object) (m : gmap Z float) : gmap Z float :=
  match widths with
  | [] => m
  | wObj :: widths =>
      loadWidths first (i + 1) widths
        match wObj with
        | NumberObject w => <[int64 (first + i) := w]> m
        | _ => m
        end
  end.

Section WithGoLib.

Context (sc : GoLib).

Definition loadFont (r : Reader) (obj : gmap string Object) : Result Font :=
  bf ← resolveKey r obj "/BaseFont";
  let baseFont := match bf with Some (NameObject bf) => bf | _ => ""%string end in
  firstObj ← resolveKey r obj "/FirstChar";
  '(widths, isCID) ←
    match firstObj with
    | Some (NumberObject firstObj) =>
        widthsObj ← resolveKey r obj "/Widths";
        match widthsObj with
        | Some (ArrayObject widths) =>
            Ok (loadWidths (float64_to_int firstObj) 0 widths ∅, false)
        | _ => Ok (∅, false)
        end
    | _ => Ok (∅, true)
    end;
  let spaceWidth := match widths !! 32%Z with Some w => w | None => 250 end in
  let font cmap :=
    {| BaseFont := baseFont; CMap := Some cmap; Encoding := ∅; Widths := widths;
       MissingW := 0; SpaceWidth := spaceWidth; IsCID := isCID |} in
  toUnicode ← resolveKey r obj "/ToUnicode";
  match toUnicode with
  | Some (StreamObject _ data) =>
      match CMapParser.ParseCMap sc data with
      | Ok cmap => Ok (font cmap)
      | Err _ => Ok (font CMapParser.NewCMap)
      | Panic => Panic
      | OutOfFuel => OutOfFuel
      end
  | _ =>
      match obj !! "/Encoding" with
      | Some enc => parseEncoding r (font CMapParser.NewCMap) enc
      | None => Ok (font CMapParser.NewCMap)
      end
  end.

End WithGoLib.

End Fonts.

(* ================================================================== *)
(** * pkg/pdf/extractor.go: images *)
(* ================================================================== *)

(** The functions behind the operators [INLINE_IMAGE] and [Do]. *)
Module Images.

Import Pages Extract.

#[local] Open Scope float_scope.

Definition with_images (e : Extractor) (imgs : option (list Image)) : Extractor :=
  {| reader := reader e; page := page e; gState := gState e; gStack := gStack e;
     textState := textState e; fonts := fonts e; lastX := lastX e; lastY := lastY e;
     buffer := buffer e; images := imgs; xobjects := xobjects e |}.

(** [calculateImageRect]: an image is drawn in the unit square; the CTM
    gives its corner and the lengths of its sides. *)
Definition calculateImageRect (e : Extractor) : list float :=
  let ctm := CTM (gState e) in
  [m4 ctm; m5 ctm;
   sqrt (m0 ctm * m0 ctm + m1 ctm * m1 ctm);
   sqrt (m2 ctm * m2 ctm + m3 ctm * m3 ctm)].

(** The append to the slice behind the pointer [e.images]; the pointer
    is nil when images are not extracted, and [processOp] does not call
    then. *)
Definition appendImage (e : Extractor) (img : Image) : Result Extractor :=
  match images e with
  | Some imgs => Ok (with_images e (Some (imgs ++ [img])))
  | None => Panic
  end.

(** [d[key].(NumberObject)] and [d[key].(NameObject)]. *)
Definition numberAt (d : gmap string Object) (key : string) : option float :=
  match d !! key with
  | Some (NumberObject n) => Some n
  | _ => None
  end.

Definition nameAt (d : gmap string Object) (key : string) : option string :=
  match d !! key with
  | Some (NameObject n) => Some n
  | _ => None
  end.

(** [recordInlineImage]: the short key of the inline dictionary, or else
    the long one, or else the zero value. *)
Definition recordInlineImage (dict : gmap string Object) (e : Extractor)
  : Result Extractor :=
  let rect := calculateImageRect e in
  let width :=
    match numberAt dict "/W" with
    | Some w => w
    | None => default 0 (numberAt dict "/Width")
    end in
  let height :=
    match numberAt dict "/H" with
    | Some h => h
    | None => default 0 (numberAt dict "/Height")
    end in
  let colorSpace :=
    match nameAt dict "/CS" with
    | Some cs => cs
    | None => default ""%string (nameAt dict "/ColorSpace")
    end in
  appendImage e {| Type_ := "inline_image"; ID := ""; Rect := rect;
                   Width := width; Height := height; ColorSpace := colorSpace |}.

(** [recordNestedImage], and [recordImage] from its type switch on: the
    two functions have the same text there.  A form is handed to
    [processFormXObject], an image is recorded, anything else is left. *)
Definition recordNestedImage (processFormXObject : Object -> Extractor -> Result Extractor)
    (name : string) (xobj : Object) (e : Extractor) : Result Extractor :=
  let withDict (xobjDict : gmap string Object) : Result Extractor :=
    subtype ← resolveKey (reader e) xobjDict "/Subtype";
    match subtype with
    | Some (NameObject subtype) =>
        if String.eqb subtype "/Form" then processFormXObject xobj e
        else if negb (String.eqb subtype "/Image") then Ok e
        else
          let rect := calculateImageRect e in
          w ← resolveKey (reader e) xobjDict "/Width";
          h ← resolveKey (reader e) xobjDict "/Height";
          cs ← resolveKey (reader e) xobjDict "/ColorSpace";
          appendImage e
            {| Type_ := "image"; ID := name; Rect := rect;
               Width := match w with Some (NumberObject w) => w | _ => 0 end;
               Height := match h with Some (NumberObject h) => h | _ => 0 end;
               ColorSpace := match cs with Some (NameObject cs) => cs | _ => "" end |}
    | _ => Ok e
    end in
  match xobj with
  | DictionaryObject d => withDict d
  | StreamObject d _ => withDict d
  | _ => Ok e
  end.

Section WithParser.

(** The parser of content streams is not among the sources.
    [processFormXObject] takes from it the operations of the stream of a
    form, up to the end of the stream or to the first error, and looks at
    nothing else: these operations are a parameter. *)
Context (contentOperations : list ascii -> list Operation).

(** One operation of the stream of a form: a [Do] with a name is looked
    up in the [/XObject] resources of the form. *)
Definition formOperation (recordNested : string -> Object -> Extractor -> Result Extractor)
    (formResources : option (gmap string Object)) (e : Extractor) (op : Operation)
  : Result Extractor :=
  if String.eqb (Operator op) "Do" then
    match Operands op, formResources with
    | NameObject imgName :: _, Some formResources =>
        nestedXObjects ← resolveKey (reader e) formResources "/XObject";
        match nestedXObjects with
        | Some (DictionaryObject nestedXObjects) =>
            nestedXObj ← resolveKey (reader e) nestedXObjects imgName;
            match nestedXObj with
            | Some nestedXObj => recordNested imgName nestedXObj e
            | None => Ok e
            end
        | _ => Ok e
        end
    | _, _ => Ok e
    end
  else Ok e.

(** [processFormXObject]: a form may hold forms; the counter bounds the
    depth of the calls.  A form that holds itself is a recursion without
    end in the program. *)
Fixpoint processFormXObject (fuel : nat) (xobj : Object) (e : Extractor)
  : Result Extractor :=
  match fuel with
  | O => OutOfFuel
  | S fuel =>
      match xobj with
      | StreamObject formDict data =>
          res ← resolveKey (reader e) formDict "/Resources";
          let formResources :=
            match res with
            | Some (DictionaryObject d) => Some d
            | _ => None
            end in
          foldl (fun r op =>
                   e ← r;
                   formOperation (recordNestedImage (processFormXObject fuel))
                     formResources e op)
            (Ok e) (contentOperations data)
      | _ => Ok e
      end
  end.

(** [recordImage]: the name is looked up in the [/XObject] resources of
    the page; without them, or without the name in them, nothing is
    recorded. *)
Definition recordImage (fuel : nat) (name : string) (e : Extractor) : Result Extractor :=
  match xobjects e !! name with
  | None => Ok e
  | Some ref =>
      xobj ← Resolve (reader e) ref;
      recordNestedImage (processFormXObject fuel) name xobj e
  end.

End WithParser.

End Images.

(* ================================================================== *)
(** * A model of the library functions, for the examples *)
(* ================================================================== *)

(** Decimal, octal and hexadecimal numerals without sign, white space of
    ASCII, and no inflation: enough of [GoLib] to run the parsers on the
    inputs of the examples below.  No statement with a quantifier depends
    on it. *)
Module Fixture.

Definition digitValue (c : ascii) : option Z :=
  let n := byteZ c in
  if (48 <=? n) && (n <=? 57) then Some (n - 48)
  else if (97 <=? n) && (n <=? 102) then Some (n - 87)
  else if (65 <=? n) && (n <=? 70) then Some (n - 55)
  else None.

Fixpoint numeral (base : Z) (acc : Z) (s : list ascii) : option Z :=
  match s with
  | [] => Some acc
  | c :: s =>
      match digitValue c with
      | Some d => if d <? base then numeral base (base * acc + d) s else None
      | None => None
      end
  end.

Definition parseInt (s : string) (base : Z) : Z * bool :=
  match bytes_of_string s with
  | [] => (0, false)
  | cs => match numeral base 0 cs with
          | Some v => (v, true)
          | None => (0, false)
          end
  end.

Definition lib : GoLib :=
  {| ParseInt := parseInt;
     Atoi := fun s => (parseInt s 10).1;
     ParseFloat := fun _ => 0%float;
     TrimSpace := fun s => string_of_bytes (Lexer.skipWhitespace (bytes_of_string s));
     zlibReadAll := fun _ => None |}.

(** Names print as they are written. *)
Definition objectString (o : Object) : string :=
  match o with
  | NameObject s => s
  | _ => ""
  end.

Definition bytes (l : list Z) : list ascii := map byte l.

(** No example gets as far as a cipher: these leave the data as they are. *)
Definition ciphers : Crypto.Ciphers :=
  {| Crypto.rc4XORKeyStream := fun _ data => data;
     Crypto.aesCBCDecrypt := fun _ _ data => data |}.

End Fixture.

(* ================================================================== *)
(** * The lexer: hexadecimal strings *)
(* ================================================================== *)

Module LexerFacts.

Import Lexer.

Lemma hexDigits_plain (c : ascii) :
  let hi := hexDigit (byteZ c / 16) in
  let lo := hexDigit (byteZ c mod 16) in
  (Ascii.eqb hi ">" = false /\ isWhitespace hi = false /\ Ascii.eqb hi "<" = false)
  /\ (Ascii.eqb lo ">" = false /\ isWhitespace lo = false).
Proof.
  destruct c as [[] [] [] [] [] [] [] []]; vm_compute; auto.
Qed.

(** The loop of [readHexString] copies the digits of [hexEncode b]. *)
Lemma readHexString_loop_hexEncode (b rest data : list ascii) :
  readHexString_loop (hexEncode b ++ ">"%char :: rest) data
  = Ok (data ++ hexEncode b, rest).
Proof.
  revert data. induction b as [|c b IH]; intros data.
  - simpl. by rewrite app_nil_r.
  - destruct (hexDigits_plain c) as [(Hhi & Hws & _) (Hlo & Hws')].
    cbn [hexEncode flat_map app readHexString_loop] in *.
    rewrite Hhi, Hws, Hlo, Hws'. fold (hexEncode b).
    rewrite IH. by rewrite <- !app_assoc.
Qed.

Lemma hexEncode_length (b : list ascii) : length (hexEncode b) = (2 * length b)%nat.
Proof. induction b as [|c b IH]; simpl; [done | rewrite IH; lia]. Qed.

(** What [ReadObject] returns for a bracketed hexadecimal text, with any
    positive counter. *)
Lemma ReadObject_fuel_hexEncode (sc : GoLib) (fuel : nat) (b rest : list ascii) :
  ReadObject_fuel sc (S fuel) ("<"%char :: hexEncode b ++ ">"%char :: rest)
  = Ok (HexStringObject (hexEncode b), rest).
Proof.
  assert (Hread : readHexString ("<"%char :: hexEncode b ++ ">"%char :: rest)
                  = Ok (HexStringObject (hexEncode b), rest)).
  { unfold readHexString. cbn [tail]. by rewrite readHexString_loop_hexEncode. }
  cbn [ReadObject_fuel skipWhitespace].
  change (isWhitespace "<") with false. cbv iota.
  change (Ascii.eqb "<" "/") with false. change (Ascii.eqb "<" "(") with false.
  change (Ascii.eqb "<" "<") with true. cbv iota.
  destruct b as [|c b]; [exact Hread|].
  destruct (hexDigits_plain c) as [(_ & _ & Hlt) _].
  cbn [hexEncode flat_map app] in *. rewrite Hlt. exact Hread.
Qed.

(** C1.  Lexing ["<" ++ hexEncode(b) ++ ">"] does not give back the bytes
    [b]: for every non-empty byte sequence (first byte [c], then [b]),
    [ReadObject] returns the HexString whose payload is the text of the
    hexadecimal digits themselves, twice as long as the bytes they encode.
    The digit pairs are never decoded. *)
Theorem ReadObject_hex_not_decoded (sc : GoLib) (c : ascii) (b rest : list ascii) :
  ReadObject sc ("<"%char :: hexEncode (c :: b) ++ ">"%char :: rest)
  = Ok (HexStringObject (hexEncode (c :: b)), rest)
  /\ HexStringObject (hexEncode (c :: b)) <> HexStringObject (c :: b).
Proof.
  split.
  - unfold ReadObject. rewrite Nat.add_1_r. apply ReadObject_fuel_hexEncode.
  - intros Heq.
    assert (Hlen : length (hexEncode (c :: b)) = length (c :: b)) by congruence.
    rewrite hexEncode_length in Hlen. simpl in Hlen. lia.
Qed.

(** The text [<48>] is the byte 0x48, the letter H; the lexer returns the
    two characters 4 and 8. *)
Example ReadObject_hex_48 :
  ReadObject Fixture.lib (bytes_of_string "<48>")
  = Ok (HexStringObject (bytes_of_string "48"), [])
  /\ hexEncode (bytes_of_string "H") = bytes_of_string "48".
Proof. split; vm_compute; reflexivity. Qed.

(** White space between the digits is dropped, and an odd digit stays a
    single character: no low nibble is supplied. *)
Example ReadObject_hex_spaces :
  ReadObject Fixture.lib (bytes_of_string "<4 8 6>")
  = Ok (HexStringObject (bytes_of_string "486"), []).
Proof. vm_compute. reflexivity. Qed.

(** The consequence for a ToUnicode CMap: the entry [<0041> <0061>] of a
    bfchar block is stored under the four characters 0041, with the four
    characters 0061 read as two UTF-16 units (U+3030 U+3631), where the
    design has the two bytes 00 41 mapped to the letter a. *)
Example ParseCMap_bfchar_keeps_digits :
  (m ← CMapParser.ParseCMap Fixture.lib
         (bytes_of_string "1 beginbfchar <0041> <0061> endbfchar");
   Ok (map_to_list (CMapParser.Map m)))
  = Ok [("0041"%string, string_of_bytes (Fixture.bytes [0xE3; 0x80; 0xB0; 0xE3; 0x98; 0xB1]))].
Proof. vm_compute. reflexivity. Qed.

End LexerFacts.

(* ================================================================== *)
(** * The lexer reads on: consumption and termination *)
(* ================================================================== *)

Module LexerBounds.

Import Lexer.

(** Case analysis on the result of a call, with the sequencing reduced. *)
Ltac bind_simpl := cbn [mbind Result_bind Go.bind].

Lemma skipWhitespace_length (l : list ascii) :
  (length (skipWhitespace l) <= length l)%nat.
Proof.
  induction l as [|b l IH]; simpl; [lia|].
  destruct (isWhitespace b); simpl; lia.
Qed.

Lemma ReadLine_from_length (room : nat) (l : list ascii) :
  (length (ReadLine_from room l) <= length l)%nat.
Proof.
  revert room. induction l as [|b l IH]; intros room; simpl; [lia|].
  destruct (Ascii.eqb b "010"); [lia|].
  destruct room as [|[|room]]; try (destruct (Ascii.eqb b "013"); simpl; lia).
  specialize (IH (S room)). simpl in *. lia.
Qed.

Lemma token_of_length (l : list ascii) (sb : string) :
  (length (token_of l sb).2 <= length l)%nat.
Proof.
  revert sb. induction l as [|b l IH]; intros sb; simpl; [lia|].
  destruct (isDelimiter b || isWhitespace b); simpl; [lia|].
  specialize (IH (WriteByte sb b)). lia.
Qed.

(** A token that starts with a regular byte is not empty. *)
Lemma token_of_consumes (b : ascii) (l : list ascii) (sb : string) :
  isDelimiter b || isWhitespace b = false ->
  (length (token_of (b :: l) sb).2 <= length l)%nat.
Proof. intros Hb. simpl. rewrite Hb. apply token_of_length. Qed.

Lemma readTokenString_length (l r : list ascii) (s : string) :
  readTokenString l = Ok (s, r) -> (length r <= length l)%nat.
Proof.
  destruct l as [|b l]; [discriminate|].
  unfold readTokenString. intros [= Heq].
  pose proof (token_of_length (b :: l) "") as Hlen.
  simpl in Hlen, Heq. by rewrite Heq in Hlen.
Qed.

Lemma skipToken_length (l : list ascii) : (length (skipToken l) <= length l)%nat.
Proof.
  unfold skipToken. destruct (readTokenString l) as [[? r]| | |] eqn:E; try lia.
  by apply readTokenString_length in E.
Qed.

Section WithGoLib.

Context (sc : GoLib).

Lemma readName_loop_length (l : list ascii) (sb : string) :
  (length (readName_loop sc l sb).2 <= length l)%nat.
Proof.
  remember (length l) as n eqn:Hn. revert l sb Hn.
  induction n as [n IH] using lt_wf_ind. intros l sb ->.
  destruct l as [|b l]; simpl; [lia|].
  destruct (isDelimiter b || isWhitespace b); simpl; [lia|].
  destruct (Ascii.eqb b "#").
  - destruct l as [|h1 [|h2 l]]; simpl; try lia.
    match goal with
    | |- context [readName_loop sc l ?s] =>
        specialize (IH (length l) ltac:(simpl; lia) l s eq_refl)
    end. lia.
  - specialize (IH (length l) ltac:(simpl; lia) l (WriteByte sb b) eq_refl). lia.
Qed.

Lemma readString_loop_length (l r : list ascii) (parens : Z) (sb s : string) :
  readString_loop sc l parens sb = Ok (s, r) -> (length r < length l)%nat.
Proof.
  remember (length l) as n eqn:Hn. revert l parens sb Hn.
  induction n as [n IH] using lt_wf_ind. intros l parens sb -> Hrun.
  assert (Hrec : forall l' p' sb', (length l' < length l)%nat ->
            readString_loop sc l' p' sb' = Ok (s, r) -> (length r < length l)%nat).
  { intros l' p' sb' Hlt Hl'. specialize (IH _ Hlt l' p' sb' eq_refl Hl'). lia. }
  clear IH. destruct l as [|b l]; [discriminate|].
  cbn [readString_loop] in Hrun. cbn [length] in *.
  destruct (Ascii.eqb b "("); [eapply Hrec, Hrun; lia|].
  destruct (Ascii.eqb b ")").
  { destruct (parens - 1 =? 0)%Z; [injection Hrun as <- <-; lia | eapply Hrec, Hrun; lia]. }
  destruct (Ascii.eqb b "092"); [|eapply Hrec, Hrun; lia].
  destruct l as [|next l]; [discriminate|]. cbn [length] in *.
  destruct (isOctal next); [|eapply Hrec, Hrun; lia].
  destruct l as [|d1 l]; [eapply Hrec, Hrun; simpl; lia|]. cbn [length] in *.
  destruct (isOctal d1); [|eapply Hrec, Hrun; simpl; lia].
  destruct l as [|d2 l]; [eapply Hrec, Hrun; simpl; lia|]. cbn [length] in *.
  destruct (isOctal d2); eapply Hrec, Hrun; simpl; lia.
Qed.

Lemma readHexString_loop_length (l r data data' : list ascii) :
  readHexString_loop l data = Ok (data', r) -> (length r < length l)%nat.
Proof.
  revert data. induction l as [|b l IH]; intros data; simpl; [discriminate|].
  destruct (Ascii.eqb b ">"); [intros [= <- <-]; lia|].
  destruct (isWhitespace b); intros Hrun; apply IH in Hrun; lia.
Qed.

(** The first byte of a number or of a keyword is neither a delimiter nor
    white space. *)
Lemma regular_first (b : ascii) :
  isDigit b || Ascii.eqb b "-" || Ascii.eqb b "+" || Ascii.eqb b "." || isAlpha b = true ->
  isDelimiter b || isWhitespace b = false.
Proof.
  destruct b as [[] [] [] [] [] [] [] []]; vm_compute; intros H; congruence.
Qed.

Lemma readNumberOrReference_length (b : ascii) (l r : list ascii) (o : Object) :
  isDelimiter b || isWhitespace b = false ->
  readNumberOrReference sc (b :: l) = Ok (o, r) -> (length r < length (b :: l))%nat.
Proof.
  intros Hb. unfold readNumberOrReference. unfold readTokenString at 1.
  bind_simpl.
  pose proof (token_of_consumes b l "" Hb) as Htok.
  destruct (token_of (b :: l) "") as [num1Str rest]. cbn [snd] in Htok.
  pose proof (skipWhitespace_length rest) as Hws.
  destruct (isReference _) as [genStr|]; intros [= <- <-]; [|simpl; lia].
  pose proof (skipToken_length (skipWhitespace rest)).
  pose proof (skipWhitespace_length (skipToken (skipWhitespace rest))).
  pose proof (skipToken_length (skipWhitespace (skipToken (skipWhitespace rest)))).
  simpl. lia.
Qed.

Lemma readKeywordOrBoolean_length (b : ascii) (l r : list ascii) (o : Object) :
  isDelimiter b || isWhitespace b = false ->
  readKeywordOrBoolean (b :: l) = Ok (o, r) -> (length r < length (b :: l))%nat.
Proof.
  intros Hb. unfold readKeywordOrBoolean, readTokenString.
  bind_simpl.
  pose proof (token_of_consumes b l "" Hb) as Htok.
  destruct (token_of (b :: l) "") as [token rest]. cbn [snd] in Htok.
  repeat case_match; intros [= <- <-]; simpl; lia.
Qed.

Lemma hasPrefix_length (prefix : string) (l : list ascii) :
  hasPrefix prefix l = true -> (String.length prefix <= length l)%nat.
Proof.
  unfold hasPrefix. case_decide as Heq; [intros _|discriminate].
  apply (f_equal length) in Heq.
  rewrite length_take in Heq.
  assert (length (list_ascii_of_string prefix) = String.length prefix) as Hlen.
  { clear. induction prefix; simpl; congruence. }
  lia.
Qed.

(** Every successful call of the three mutually recursive readers
    consumes at least one byte. *)
Lemma readers_consume (fuel : nat) :
  (forall input o r,
      ReadObject_fuel sc fuel input = Ok (o, r) -> (length r < length input)%nat)
  /\ (forall input arr arr' r,
      readArray_fuel sc fuel input arr = Ok (arr', r) -> (length r < length input)%nat)
  /\ (forall input d d' r,
      readDictionary_fuel sc fuel input d = Ok (d', r) -> (length r < length input)%nat).
Proof.
  induction fuel as [|fuel (IHo & IHa & IHd)]; [by repeat split|].
  repeat split.
  - intros input o r. cbn [ReadObject_fuel].
    pose proof (skipWhitespace_length input) as Hws.
    destruct (skipWhitespace input) as [|token rest] eqn:Hin; [discriminate|].
    cbn [length] in Hws.
    destruct (Ascii.eqb token "/").
    { unfold readName. cbn [tail].
      pose proof (readName_loop_length rest "/") as Hn.
      destruct (readName_loop sc rest "/") as [name r']. intros [= <- <-]. simpl in Hn. lia. }
    destruct (Ascii.eqb token "(").
    { unfold readString. cbn [tail]; bind_simpl.
      destruct (readString_loop sc rest 1 "") as [[s r']| | |] eqn:Hs; try discriminate.
      apply readString_loop_length in Hs. intros [= <- <-]. lia. }
    assert (Hhex : readHexString (token :: rest) = Ok (o, r) -> (length r < length input)%nat).
    { unfold readHexString. cbn [tail]; bind_simpl.
      destruct (readHexString_loop rest []) as [[s r']| | |] eqn:Hs; try discriminate.
      apply readHexString_loop_length in Hs. intros [= <- <-]. lia. }
    destruct (Ascii.eqb token "<").
    { destruct rest as [|second rest']; [exact Hhex|].
      destruct (Ascii.eqb second "<"); [|exact Hhex].
      bind_simpl.
      destruct (readDictionary_fuel sc fuel rest' ∅) as [[d r']| | |] eqn:Hd; try discriminate.
      apply IHd in Hd. intros [= <- <-]. simpl in *. lia. }
    clear Hhex.
    destruct (Ascii.eqb token "[").
    { bind_simpl.
      destruct (readArray_fuel sc fuel rest []) as [[a r']| | |] eqn:Ha; try discriminate.
      apply IHa in Ha. intros [= <- <-]. lia. }
    destruct (Ascii.eqb token "%").
    { intros Hrec. apply IHo in Hrec.
      pose proof (ReadLine_from_length 4096 rest). unfold ReadLine in Hrec. lia. }
    destruct (Ascii.eqb token "039" || Ascii.eqb token "034"); [intros [= <- <-]; lia|].
    destruct (isDigit token || Ascii.eqb token "-" || Ascii.eqb token "+"
              || Ascii.eqb token ".") eqn:Hnum.
    { intros Hrun. apply readNumberOrReference_length in Hrun; [simpl in Hrun; lia|].
      apply regular_first. by rewrite Hnum. }
    destruct (isAlpha token) eqn:Halpha; [|discriminate].
    intros Hrun. apply readKeywordOrBoolean_length in Hrun; [simpl in Hrun; lia|].
    apply regular_first. rewrite Halpha. by rewrite orb_true_r.
  - intros input arr arr' r. cbn [readArray_fuel].
    pose proof (skipWhitespace_length input) as Hws.
    destruct (skipWhitespace input) as [|b rest] eqn:Hin; [discriminate|].
    cbn [length] in Hws.
    destruct (Ascii.eqb b "]"); [intros [= <- <-]; lia|].
    bind_simpl.
    destruct (ReadObject_fuel sc fuel (b :: rest)) as [[obj r']| | |] eqn:Ho; try discriminate.
    apply IHo in Ho. bind_simpl. intros Hrec. apply IHa in Hrec. simpl in Ho. lia.
  - intros input d d' r. cbn [readDictionary_fuel].
    pose proof (skipWhitespace_length input) as Hws.
    destruct (hasPrefix ">>" (skipWhitespace input)) eqn:Hpre.
    { apply hasPrefix_length in Hpre. intros [= <- <-]. rewrite length_drop. simpl in Hpre. lia. }
    bind_simpl.
    destruct (ReadObject_fuel sc fuel (skipWhitespace input)) as [[keyObj r1]| | |] eqn:Hk;
      try discriminate.
    apply IHo in Hk. bind_simpl.
    destruct keyObj; try discriminate.
    destruct (ReadObject_fuel sc fuel r1) as [[valObj r2]| | |] eqn:Hv; try discriminate.
    apply IHo in Hv. bind_simpl. intros Hrec. apply IHd in Hrec. lia.
Qed.

(** With more than twice the length of the input, the counter of
    [ReadObject_fuel] does not run out; the loops need one more. *)
Lemma readers_fuel_enough (fuel : nat) :
  (forall input, (2 * length input < fuel)%nat ->
                 ReadObject_fuel sc fuel input <> OutOfFuel)
  /\ (forall input arr, (2 * length input + 1 < fuel)%nat ->
                        readArray_fuel sc fuel input arr <> OutOfFuel)
  /\ (forall input d, (2 * length input + 1 < fuel)%nat ->
                      readDictionary_fuel sc fuel input d <> OutOfFuel).
Proof.
  induction fuel as [|fuel (IHo & IHa & IHd)]; [repeat split; intros; lia|].
  destruct (readers_consume fuel) as (Co & Ca & Cd).
  repeat split.
  - intros input Hfuel. cbn [ReadObject_fuel].
    pose proof (skipWhitespace_length input) as Hws.
    destruct (skipWhitespace input) as [|token rest] eqn:Hin; [discriminate|].
    cbn [length] in Hws.
    destruct (Ascii.eqb token "/").
    { unfold readName. by destruct (readName_loop sc _ _). }
    destruct (Ascii.eqb token "(").
    { unfold readString. cbn [tail]; bind_simpl.
      generalize 1%Z, ""%string. generalize rest. clear.
      intros l. remember (length l) as n eqn:Hn. revert l Hn.
      induction n as [n IH] using lt_wf_ind. intros l -> parens sb.
      assert (Hrec : forall l' p' sb', (length l' < length l)%nat ->
                match readString_loop sc l' p' sb' with
                | Ok (s, r) => Ok (StringObject s, r) | Err e => Err e
                | Panic => Panic | OutOfFuel => OutOfFuel end <> OutOfFuel).
      { intros l' p' sb' Hlt. exact (IH _ Hlt l' eq_refl p' sb'). }
      clear IH. destruct l as [|b l]; [discriminate|].
      cbn [readString_loop length] in *.
      destruct (Ascii.eqb b "("); [apply Hrec; lia|].
      destruct (Ascii.eqb b ")"); [destruct (parens - 1 =? 0)%Z; [discriminate|apply Hrec; lia]|].
      destruct (Ascii.eqb b "092"); [|apply Hrec; lia].
      destruct l as [|next l]; [discriminate|]. cbn [length] in *.
      destruct (isOctal next); [|apply Hrec; lia].
      destruct l as [|d1 l]; [apply Hrec; simpl; lia|]. cbn [length] in *.
      destruct (isOctal d1); [|apply Hrec; simpl; lia].
      destruct l as [|d2 l]; [apply Hrec; simpl; lia|]. cbn [length] in *.
      destruct (isOctal d2); apply Hrec; simpl; lia. }
    assert (Hhex : readHexString (token :: rest) <> OutOfFuel).
    { unfold readHexString. cbn [tail]; bind_simpl.
      generalize (@nil ascii). clear. induction rest as [|b l IH]; intros data; [discriminate|].
      cbn [readHexString_loop].
      destruct (Ascii.eqb b ">"); [discriminate|]. destruct (isWhitespace b); apply IH. }
    destruct (Ascii.eqb token "<").
    { destruct rest as [|second rest']; [exact Hhex|].
      destruct (Ascii.eqb second "<"); [|exact Hhex].
      bind_simpl.
      specialize (IHd rest' ∅ ltac:(simpl in *; lia)).
      by destruct (readDictionary_fuel sc fuel rest' ∅) as [[d r']| | |]. }
    clear Hhex.
    destruct (Ascii.eqb token "[").
    { bind_simpl.
      specialize (IHa rest [] ltac:(simpl in *; lia)).
      by destruct (readArray_fuel sc fuel rest []) as [[a r']| | |]. }
    destruct (Ascii.eqb token "%").
    { apply IHo. pose proof (ReadLine_from_length 4096 rest). unfold ReadLine. lia. }
    destruct (Ascii.eqb token "039" || Ascii.eqb token "034"); [discriminate|].
    destruct (isDigit token || Ascii.eqb token "-" || Ascii.eqb token "+"
              || Ascii.eqb token ".").
    { unfold readNumberOrReference, readTokenString. bind_simpl.
      destruct (token_of (token :: rest) ""). by destruct (isReference _). }
    destruct (isAlpha token); [|discriminate].
    unfold readKeywordOrBoolean, readTokenString. bind_simpl.
    destruct (token_of (token :: rest) ""). by repeat case_match.
  - intros input arr Hfuel. cbn [readArray_fuel].
    pose proof (skipWhitespace_length input) as Hws.
    destruct (skipWhitespace input) as [|b rest] eqn:Hin; [discriminate|].
    cbn [length] in Hws.
    destruct (Ascii.eqb b "]"); [discriminate|].
    bind_simpl.
    specialize (IHo (b :: rest) ltac:(simpl; lia)).
    destruct (ReadObject_fuel sc fuel (b :: rest)) as [[obj r']| | |] eqn:Ho; try done.
    apply Co in Ho. bind_simpl. apply IHa. simpl in Ho. lia.
  - intros input d Hfuel. cbn [readDictionary_fuel].
    pose proof (skipWhitespace_length input) as Hws.
    destruct (hasPrefix ">>" (skipWhitespace input)); [discriminate|].
    bind_simpl.
    specialize (IHo (skipWhitespace input) ltac:(lia)) as Hk'.
    destruct (ReadObject_fuel sc fuel (skipWhitespace input)) as [[keyObj r1]| | |] eqn:Hk;
      try done.
    apply Co in Hk. bind_simpl.
    destruct keyObj; try discriminate.
    specialize (IHo r1 ltac:(lia)) as Hv'.
    destruct (ReadObject_fuel sc fuel r1) as [[valObj r2]| | |] eqn:Hv; try done.
    apply Co in Hv. bind_simpl. apply IHd. lia.
Qed.

(** [ReadObject] is total: it returns an object, an error or panics. *)
Lemma ReadObject_total (input : list ascii) : ReadObject sc input <> OutOfFuel.
Proof. unfold ReadObject. apply readers_fuel_enough. lia. Qed.

Lemma ReadObject_consumes (input r : list ascii) (o : Object) :
  ReadObject sc input = Ok (o, r) -> (length r < length input)%nat.
Proof. unfold ReadObject. apply readers_consume. Qed.

End WithGoLib.

End LexerBounds.

(* ================================================================== *)
(** * The cross-reference table *)
(* ================================================================== *)

Module XRefFacts.

Import XRef.
Import LexerBounds.

(** ** First value wins *)

Lemma setIfAbsent_mono (id : Z) (e : XRefEntry) (entries : gmap Z XRefEntry) :
  entries ⊆ setIfAbsent id e entries.
Proof.
  unfold setIfAbsent. destruct (entries !! id) eqn:Hid; [done|].
  by apply insert_subseteq.
Qed.

Lemma recordStreamEntry_mono (id f1 f2 f3 : Z) (entries : gmap Z XRefEntry) :
  entries ⊆ recordStreamEntry id f1 f2 f3 entries.
Proof.
  unfold recordStreamEntry. destruct (entries !! id) eqn:Hid; [done|].
  repeat case_match; try done; by apply insert_subseteq.
Qed.

Lemma readStreamRows_mono (w0 w1 w2 : Z) (rounds : nat) (id : Z) (reader reader' : list ascii)
    (entries entries' : gmap Z XRefEntry) :
  readStreamRows w0 w1 w2 rounds id reader entries = Ok (reader', entries') ->
  entries ⊆ entries'.
Proof.
  revert id reader entries.
  induction rounds as [|rounds IH]; intros id reader entries; cbn [readStreamRows].
  - by intros [= <- <-].
  - destruct (readField reader w0) as [[f1 r1]| | |]; bind_simpl; try discriminate.
    destruct (readField r1 w1) as [[f2 r2]| | |]; bind_simpl; try discriminate.
    destruct (readField r2 w2) as [[f3 r3]| | |]; bind_simpl; try discriminate.
    intros Hrun. apply IH in Hrun.
    etrans; [apply (recordStreamEntry_mono id f1 f2 f3)|done].
Qed.

Lemma readStreamIndex_mono (w0 w1 w2 : Z) (index : list Z) (reader : list ascii)
    (entries entries' : gmap Z XRefEntry) :
  readStreamIndex w0 w1 w2 index reader entries = Ok entries' -> entries ⊆ entries'.
Proof.
  remember (length index) as n eqn:Hn. revert index reader entries Hn.
  induction n as [n IH] using lt_wf_ind. intros index reader entries ->.
  destruct index as [|start [|count index]]; cbn [readStreamIndex].
  - by intros [= <-].
  - discriminate.
  - destruct (readStreamRows _ _ _ _ _ _ _) as [[r1 e1]| | |] eqn:Hrows; bind_simpl;
      try discriminate.
    apply readStreamRows_mono in Hrows. intros Hrun.
    eapply (IH (length index)) in Hrun; [|simpl; lia|done]. by etrans.
Qed.

(** ** Rows of an xref stream without a type field *)

(** Every entry that is new in [entries'] is a free entry. *)
Definition addsFree (entries entries' : gmap Z XRefEntry) : Prop :=
  forall id e, entries' !! id = Some e ->
    entries !! id = Some e \/ (Free e = true /\ Compressed e = false /\ Offset e = 0).

Lemma addsFree_trans (e1 e2 e3 : gmap Z XRefEntry) :
  addsFree e1 e2 -> addsFree e2 e3 -> addsFree e1 e3.
Proof.
  intros H12 H23 id e He. destruct (H23 id e He) as [He2|?]; [|by right].
  exact (H12 id e He2).
Qed.

Lemma recordStreamEntry_free (id f2 f3 : Z) (entries : gmap Z XRefEntry) :
  addsFree entries (recordStreamEntry id 0 f2 f3 entries).
Proof.
  unfold recordStreamEntry. intros j e.
  destruct (entries !! id) eqn:Hid; [by left|]. cbn [Z.eqb].
  destruct (decide (j = id)) as [->|Hne].
  - rewrite lookup_insert_eq. intros [= <-]. by right.
  - rewrite lookup_insert_ne by done. by left.
Qed.

Lemma readStreamRows_free (w1 w2 : Z) (rounds : nat) (id : Z) (reader reader' : list ascii)
    (entries entries' : gmap Z XRefEntry) :
  readStreamRows 0 w1 w2 rounds id reader entries = Ok (reader', entries') ->
  addsFree entries entries'.
Proof.
  revert id reader entries.
  induction rounds as [|rounds IH]; intros id reader entries; cbn [readStreamRows].
  - intros [= <- <-] j e He. by left.
  - change (readField reader 0) with (Ok (A := Z * list ascii) (0, reader)). bind_simpl.
    destruct (readField reader w1) as [[f2 r2]| | |]; bind_simpl; try discriminate.
    destruct (readField r2 w2) as [[f3 r3]| | |]; bind_simpl; try discriminate.
    intros Hrun. apply IH in Hrun.
    eapply addsFree_trans; [apply recordStreamEntry_free|done].
Qed.

(** C3, as the code has it.  In an xref stream whose [/W] array has
    [w0 = 0] the type field of every row reads as 0, not as 1: a row whose
    object has no entry yet is recorded as a Free entry with generation
    [f3] (offset 0, [f2] dropped), and so every entry that such a stream
    adds to the table is a Free entry, none is InUse. *)
Theorem xref_stream_w0_zero_records_free (w1 w2 : Z) :
  (forall reader, readField reader 0 = Ok (0, reader))
  /\ (forall id f2 f3 entries,
        entries !! id = None ->
        recordStreamEntry id 0 f2 f3 entries !! id
        = Some {| Offset := 0; Generation := f3; Free := true; Compressed := false;
                  StreamObj := 0; StreamIdx := 0 |})
  /\ (forall index reader entries entries',
        readStreamIndex 0 w1 w2 index reader entries = Ok entries' ->
        forall id e, entries' !! id = Some e -> entries !! id = None ->
                     Free e = true /\ Compressed e = false /\ Offset e = 0).
Proof.
  split; [done|]. split.
  - intros id f2 f3 entries Hid. unfold recordStreamEntry. rewrite Hid. cbn [Z.eqb].
    by rewrite lookup_insert_eq.
  - intros index reader entries entries' Hrun.
    enough (addsFree entries entries') as Hfree.
    { intros id e He Hnew. destruct (Hfree id e He) as [Hold|?]; [congruence|done]. }
    revert reader entries Hrun.
    remember (length index) as n eqn:Hn. revert index Hn.
    induction n as [n IH] using lt_wf_ind. intros index -> reader entries.
    destruct index as [|start [|count index]]; cbn [readStreamIndex].
    + intros [= <-] j e He. by left.
    + discriminate.
    + destruct (readStreamRows _ _ _ _ _ _ _) as [[r1 e1]| | |] eqn:Hrows; bind_simpl;
        try discriminate.
      apply readStreamRows_free in Hrows. intros Hrun.
      eapply (IH (length index)) in Hrun; [|simpl; lia|done].
      by eapply addsFree_trans.
Qed.

(** The row (f2 = 10, f3 = 0) of a stream with [/W [0 1 1]] and
    [/Index [0 1]]: object 0 becomes a Free entry, where the claim has an
    InUse entry at offset 10. *)
Lemma xref_stream_w0_zero_row_not_in_use :
  readStreamIndex 0 1 1 [0; 1] (Fixture.bytes [10; 0]) ∅
  = Ok {[ 0 := {| Offset := 0; Generation := 0; Free := true; Compressed := false;
                  StreamObj := 0; StreamIdx := 0 |} ]}
  /\ readStreamIndex 0 1 1 [0; 1] (Fixture.bytes [10; 0]) ∅
     <> Ok {[ 0 := {| Offset := 10; Generation := 0; Free := false; Compressed := false;
                      StreamObj := 0; StreamIdx := 0 |} ]}.
Proof.
  assert (Hrun : readStreamIndex 0 1 1 [0; 1] (Fixture.bytes [10; 0]) ∅
                 = Ok {[ 0 := {| Offset := 0; Generation := 0; Free := true;
                                 Compressed := false; StreamObj := 0; StreamIdx := 0 |} ]})
    by (vm_compute; reflexivity).
  split; [exact Hrun|]. rewrite Hrun. intros Heq.
  apply (f_equal (fun r => match r with
                           | Ok m => Free <$> (m : gmap Z XRefEntry) !! 0
                           | _ => None
                           end)) in Heq.
  rewrite !lookup_singleton_eq in Heq. discriminate.
Qed.

Lemma xref_stream_w0_zero_records_free_witness :
  let e := {| Offset := 0; Generation := 0; Free := true; Compressed := false;
              StreamObj := 0; StreamIdx := 0 |} in
  readStreamIndex 0 1 1 [0; 1] (Fixture.bytes [10; 0]) ∅ = Ok {[ 0 := e ]}
  /\ Free e = true /\ Compressed e = false /\ Offset e = 0.
Proof.
  intros e.
  assert (Hrun : readStreamIndex 0 1 1 [0; 1] (Fixture.bytes [10; 0]) ∅ = Ok {[ 0 := e ]})
    by (vm_compute; reflexivity).
  split; [exact Hrun|].
  refine (proj2 (proj2 (xref_stream_w0_zero_records_free 1 1))
            [0; 1] (Fixture.bytes [10; 0]) ∅ {[ 0 := e ]} Hrun 0 e _ _).
  - apply lookup_singleton_eq.
  - apply lookup_empty.
Defined.

Section WithGoLib.

Context (sc : GoLib) (ObjectString : Object -> string).

Lemma readXRefLines_mono (rounds : nat) (id : Z) (input input' : list ascii)
    (entries entries' : gmap Z XRefEntry) :
  readXRefLines sc rounds id input entries = Ok (input', entries') ->
  entries ⊆ entries' /\ (length input' <= length input)%nat.
Proof.
  revert id input entries.
  induction rounds as [|rounds IH]; intros id input entries; cbn [readXRefLines].
  - by intros [= <- <-].
  - unfold ReadFull. destruct (length input <? 20)%nat eqn:Hlen; bind_simpl; [discriminate|].
    intros Hrun. apply IH in Hrun as [Hsub Hle]. rewrite length_drop in Hle. split; [|lia].
    etrans; [apply setIfAbsent_mono|done].
Qed.

Lemma readXRefSections_mono (fuel : nat) (input input' : list ascii)
    (entries entries' : gmap Z XRefEntry) :
  readXRefSections sc fuel input entries = Ok (input', entries') -> entries ⊆ entries'.
Proof.
  revert input entries.
  induction fuel as [|fuel IH]; intros input entries; cbn [readXRefSections]; [discriminate|].
  destruct (hasPrefix "trailer" _); [by intros [= <- <-]|].
  destruct (Lexer.ReadObject sc _) as [[obj r1]| | |]; try discriminate.
  destruct (Lexer.ReadObject sc r1) as [[obj2 r2]| | |]; bind_simpl; try discriminate.
  destruct obj; try discriminate. destruct obj2; try discriminate.
  destruct (readXRefLines _ _ _ _ _) as [[r3 e3]| | |] eqn:Hlines; bind_simpl;
    try discriminate.
  apply readXRefLines_mono in Hlines as [Hsub _].
  intros Hrun. apply IH in Hrun. by etrans.
Qed.

Lemma readStandardXRef_mono (t t' : XRefTable) (input : list ascii) (prev : Z)
    (tr : gmap string Object) :
  readStandardXRef sc t input = Ok (prev, tr, t') ->
  Entries t ⊆ Entries t' /\ Trailer t' = Trailer t.
Proof.
  unfold readStandardXRef.
  destruct (readXRefSections _ _ _ _) as [[r1 e1]| | |] eqn:Hsec; bind_simpl; try discriminate.
  apply readXRefSections_mono in Hsec.
  destruct (Lexer.ReadObject sc r1) as [[obj r2]| | |]; bind_simpl; try discriminate.
  destruct obj; try discriminate.
  destruct (prevOf dict) as [p| | |]; bind_simpl; try discriminate.
  by intros [= <- <- <-].
Qed.

Lemma readXRefStream_mono (t t' : XRefTable) (input : list ascii) (prev : Z)
    (tr : gmap string Object) :
  readXRefStream sc ObjectString t input = Ok (prev, tr, t') ->
  Entries t ⊆ Entries t' /\ Trailer t' = Trailer t.
Proof.
  unfold readXRefStream.
  repeat (destruct (wrapErr _ (Lexer.ReadObject sc _)) as [[? ?]| | |]; bind_simpl;
          try discriminate).
  destruct o2; try discriminate.
  destruct (dict !! "/Type") as [typeObj|]; [|discriminate].
  destruct (negb _); [discriminate|].
  destruct (dict !! "/Length") as [[]|]; try discriminate.
  destruct (streamWidths dict) as [[[w0 w1] w2]| | |]; bind_simpl; try discriminate.
  destruct (streamIndex dict) as [index| | |]; bind_simpl; try discriminate.
  destruct (negb (makeable _)); [discriminate|].
  destruct (wrapErr _ (ReadFull _ _)) as [[data ?]| | |]; bind_simpl; try discriminate.
  destruct (zlibReadAll sc data) as [decoded|]; [|discriminate].
  destruct (decodeParms dict) as [predictor columns].
  match goal with
  | |- context [mbind _ ?r] => destruct r as [decoded'| | |]; bind_simpl; try discriminate
  end.
  destruct (readStreamIndex _ _ _ _ _ _) as [entries| | |] eqn:Hidx; bind_simpl;
    try discriminate.
  apply readStreamIndex_mono in Hidx.
  destruct (prevOf dict) as [p| | |]; bind_simpl; try discriminate.
  by intros [= <- <- <-].
Qed.

(** The merge of a trailer is the union that prefers what is there. *)
Lemma mergeTrailer_union (trailer tr : gmap string Object) :
  mergeTrailer trailer tr = trailer ∪ tr.
Proof.
  unfold mergeTrailer.
  apply (map_fold_weak_ind (fun acc m => acc = trailer ∪ m)).
  - by rewrite map_union_empty.
  - intros k v m acc Hk ->.
    destruct ((trailer ∪ m) !! k) as [y|] eqn:Hlook.
    + apply lookup_union_Some_raw in Hlook as [Hin|[_ Hin]]; [|congruence].
      apply map_eq. intros j. rewrite !lookup_union.
      destruct (decide (j = k)) as [->|Hne].
      * by rewrite lookup_insert_eq, Hin, Hk.
      * by rewrite lookup_insert_ne.
    + apply lookup_union_None in Hlook as [Hnone _].
      by rewrite insert_union_r.
Qed.

Lemma readXRefAt_mono (file : list ascii) (t t' : XRefTable) (off prev : Z) :
  readXRefAt sc ObjectString file t off = Ok (prev, t') ->
  Entries t ⊆ Entries t' /\ Trailer t ⊆ Trailer t'.
Proof.
  unfold readXRefAt. destruct (off <? 0); [discriminate|].
  destruct (_ <? 4)%nat; [discriminate|].
  case_decide.
  - destruct (readStandardXRef _ _ _) as [[[p tr] t1]| | |] eqn:Hstd; bind_simpl;
      try discriminate.
    apply readStandardXRef_mono in Hstd as [Hsub Htr]. intros [= <- <-]. simpl.
    rewrite mergeTrailer_union, Htr. split; [done|]. apply map_union_subseteq_l.
  - destruct (readXRefStream _ _ _ _) as [[[p tr] t1]| | |] eqn:Hstm; bind_simpl;
      try discriminate.
    apply readXRefStream_mono in Hstm as [Hsub Htr]. intros [= <- <-]. simpl.
    rewrite mergeTrailer_union, Htr. split; [done|]. apply map_union_subseteq_l.
Qed.

(** ** Termination *)

Lemma readXRefLines_total (rounds : nat) (id : Z) (input : list ascii)
    (entries : gmap Z XRefEntry) :
  readXRefLines sc rounds id input entries <> OutOfFuel.
Proof.
  revert id input entries.
  induction rounds as [|rounds IH]; intros id input entries; cbn [readXRefLines];
    [discriminate|].
  unfold ReadFull. destruct (length input <? 20)%nat; bind_simpl; [discriminate|apply IH].
Qed.

Lemma readXRefSections_enough (fuel : nat) (input : list ascii)
    (entries : gmap Z XRefEntry) :
  (length input < fuel)%nat -> readXRefSections sc fuel input entries <> OutOfFuel.
Proof.
  revert input entries.
  induction fuel as [|fuel IH]; intros input entries Hfuel; [lia|].
  cbn [readXRefSections].
  pose proof (skipWhitespace_length input) as Hws.
  destruct (hasPrefix "trailer" _); [discriminate|].
  pose proof (ReadObject_total sc (Lexer.skipWhitespace input)) as Htot.
  destruct (Lexer.ReadObject sc _) as [[obj r1]| | |] eqn:Hobj; try done.
  apply ReadObject_consumes in Hobj.
  pose proof (ReadObject_total sc r1) as Htot2.
  destruct (Lexer.ReadObject sc r1) as [[obj2 r2]| | |] eqn:Hobj2; bind_simpl; try done.
  apply ReadObject_consumes in Hobj2.
  destruct obj; try discriminate. destruct obj2; try discriminate.
  pose proof (skipWhitespace_length r2) as Hws2.
  match goal with
  | |- context [readXRefLines sc ?n ?i ?l ?e] =>
      pose proof (readXRefLines_total n i l e) as Hl;
      destruct (readXRefLines sc n i l e) as [[r3 e3]| | |] eqn:Hlines
  end; bind_simpl; try done.
  apply readXRefLines_mono in Hlines as [_ Hle]. apply IH. lia.
Qed.

Lemma prevOf_total (tr : gmap string Object) : prevOf tr <> OutOfFuel.
Proof. unfold prevOf. by repeat case_match. Qed.

Lemma readStandardXRef_total (t : XRefTable) (input : list ascii) :
  readStandardXRef sc t input <> OutOfFuel.
Proof.
  unfold readStandardXRef.
  pose proof (readXRefSections_enough (S (length (drop 4 input))) (drop 4 input) (Entries t)
                ltac:(lia)) as Hsec.
  destruct (readXRefSections _ _ _ _) as [[r1 e1]| | |]; bind_simpl; try done.
  pose proof (ReadObject_total sc r1) as Htot.
  destruct (Lexer.ReadObject sc r1) as [[obj r2]| | |]; bind_simpl; try done.
  destruct obj; try discriminate.
  pose proof (prevOf_total dict) as Hp.
  by destruct (prevOf dict).
Qed.

Lemma readField_total (r : list ascii) (width : Z) : readField r width <> OutOfFuel.
Proof. unfold readField. by repeat case_match. Qed.

Lemma readStreamRows_total (w0 w1 w2 : Z) (rounds : nat) (id : Z) (reader : list ascii)
    (entries : gmap Z XRefEntry) :
  readStreamRows w0 w1 w2 rounds id reader entries <> OutOfFuel.
Proof.
  revert id reader entries.
  induction rounds as [|rounds IH]; intros id reader entries; cbn [readStreamRows];
    [discriminate|].
  pose proof (readField_total reader w0).
  destruct (readField reader w0) as [[f1 r1]| | |]; bind_simpl; try done.
  pose proof (readField_total r1 w1).
  destruct (readField r1 w1) as [[f2 r2]| | |]; bind_simpl; try done.
  pose proof (readField_total r2 w2).
  destruct (readField r2 w2) as [[f3 r3]| | |]; bind_simpl; try done.
Qed.

Lemma readStreamIndex_total (w0 w1 w2 : Z) (index : list Z) (reader : list ascii)
    (entries : gmap Z XRefEntry) :
  readStreamIndex w0 w1 w2 index reader entries <> OutOfFuel.
Proof.
  remember (length index) as n eqn:Hn. revert index reader entries Hn.
  induction n as [n IH] using lt_wf_ind. intros index reader entries ->.
  destruct index as [|start [|count index]]; cbn [readStreamIndex]; try discriminate.
  match goal with
  | |- context [readStreamRows ?a ?b ?c ?n ?i ?l ?e] =>
      pose proof (readStreamRows_total a b c n i l e);
      destruct (readStreamRows a b c n i l e) as [[r1 e1]| | |]
  end; bind_simpl; try done.
  eapply (IH (length index)); [simpl; lia|done].
Qed.

Lemma mustInt_total (o : Object) : mustInt o <> OutOfFuel.
Proof. by destruct o. Qed.

Lemma mustInts_total (os : list Object) : mustInts os <> OutOfFuel.
Proof.
  induction os as [|o os IH]; cbn [mustInts]; [discriminate|].
  pose proof (mustInt_total o). destruct (mustInt o); bind_simpl; try done.
  destruct (mustInts os); bind_simpl; done.
Qed.

Lemma streamWidths_total (d : gmap string Object) : streamWidths d <> OutOfFuel.
Proof.
  unfold streamWidths.
  destruct (d !! "/W") as [[| | | | | |[|a [|b [|c [|? ?]]]]| | | |]|]; try discriminate.
  pose proof (mustInt_total a). destruct (mustInt a); bind_simpl; try done.
  pose proof (mustInt_total b). destruct (mustInt b); bind_simpl; try done.
  pose proof (mustInt_total c). destruct (mustInt c); bind_simpl; done.
Qed.

Lemma streamIndex_total (d : gmap string Object) : streamIndex d <> OutOfFuel.
Proof.
  unfold streamIndex. pose proof mustInts_total. by repeat case_match.
Qed.

Lemma applyPngPredictor_total (data : list ascii) (columns predictor : Z) :
  applyPngPredictor data columns predictor <> OutOfFuel.
Proof. unfold applyPngPredictor. by repeat case_match. Qed.

Lemma wrapErr_total {A} (msg : string) (r : Result A) :
  r <> OutOfFuel -> wrapErr msg r <> OutOfFuel.
Proof. by destruct r. Qed.

Lemma readXRefStream_total (t : XRefTable) (input : list ascii) :
  readXRefStream sc ObjectString t input <> OutOfFuel.
Proof.
  unfold readXRefStream.
  repeat match goal with
  | |- context [wrapErr ?m (Lexer.ReadObject sc ?l)] =>
      pose proof (wrapErr_total m _ (ReadObject_total sc l));
      destruct (wrapErr m (Lexer.ReadObject sc l)) as [[? ?]| | |]; bind_simpl; try done
  end.
  destruct o2; try discriminate.
  destruct (dict !! "/Type") as [typeObj|]; [|discriminate].
  destruct (negb _); [discriminate|].
  destruct (dict !! "/Length") as [[]|]; try discriminate.
  pose proof (streamWidths_total dict).
  destruct (streamWidths dict) as [[[w0 w1] w2]| | |]; bind_simpl; try done.
  pose proof (streamIndex_total dict).
  destruct (streamIndex dict) as [index| | |]; bind_simpl; try done.
  destruct (negb (makeable _)); [discriminate|].
  match goal with
  | |- context [wrapErr ?m (ReadFull ?n ?l)] =>
      assert (wrapErr m (ReadFull n l) <> OutOfFuel)
        by (unfold ReadFull; by destruct (_ <? _)%nat);
      destruct (wrapErr m (ReadFull n l)) as [[data ?]| | |]; bind_simpl; try done
  end.
  destruct (zlibReadAll sc data) as [decoded|]; [|discriminate].
  destruct (decodeParms dict) as [predictor columns].
  match goal with
  | |- context [mbind _ ?r] =>
      assert (r <> OutOfFuel) by (pose proof applyPngPredictor_total; by case_match);
      destruct r as [decoded'| | |]; bind_simpl; try done
  end.
  match goal with
  | |- context [readStreamIndex ?a ?b ?c ?i ?l ?e] =>
      pose proof (readStreamIndex_total a b c i l e);
      destruct (readStreamIndex a b c i l e) as [entries| | |]
  end; bind_simpl; try done.
  pose proof (prevOf_total dict). by destruct (prevOf dict).
Qed.

(** A round either fails or reads its signature inside the file. *)
Lemma readXRefAt_total (file : list ascii) (t : XRefTable) (off : Z) :
  readXRefAt sc ObjectString file t off <> OutOfFuel.
Proof.
  unfold readXRefAt. destruct (off <? 0); [discriminate|].
  destruct (_ <? 4)%nat; [discriminate|].
  case_decide.
  - pose proof (wrapErr_total "readStandardXRef failed" _
                  (readStandardXRef_total t (drop (Z.to_nat off) file))) as Htot.
    destruct (wrapErr _ _) as [[[p tr] t1]| | |]; bind_simpl; done.
  - pose proof (wrapErr_total "readXRefStream failed" _
                  (readXRefStream_total t (drop (Z.to_nat off) file))) as Htot.
    destruct (wrapErr _ _) as [[[p tr] t1]| | |]; bind_simpl; done.
Qed.

Lemma readXRefAt_in_file (file : list ascii) (t t' : XRefTable) (off prev : Z) :
  readXRefAt sc ObjectString file t off = Ok (prev, t') ->
  0 <= off < Z.of_nat (length file).
Proof.
  unfold readXRefAt. destruct (off <? 0) eqn:Hneg; [discriminate|].
  destruct (_ <? 4)%nat eqn:Hsig; [discriminate|]. intros _.
  apply Nat.ltb_ge in Hsig. rewrite length_take, length_drop in Hsig. lia.
Qed.

(** The offsets at which a round can succeed. *)
Definition offsetsOf (file : list ascii) : gset Z :=
  list_to_set (seqZ 0 (Z.of_nat (length file))).

Lemma offsetsOf_size (file : list ascii) : size (offsetsOf file) = length file.
Proof.
  unfold offsetsOf. rewrite size_list_to_set by apply NoDup_seqZ.
  rewrite length_seqZ. lia.
Qed.

Lemma elem_of_offsetsOf (file : list ascii) (off : Z) :
  off ∈ offsetsOf file <-> 0 <= off < Z.of_nat (length file).
Proof. unfold offsetsOf. rewrite elem_of_list_to_set, elem_of_seqZ. lia. Qed.

(** The loop ends as soon as the counter exceeds the number of offsets of
    the file that have not been visited. *)
Lemma ParseXRef_loop_enough (fuel : nat) (file : list ascii) (table : XRefTable)
    (visited : gset Z) (nextOffset : Z) :
  (size (offsetsOf file ∖ visited) < fuel)%nat ->
  ParseXRef_loop sc ObjectString fuel file table visited nextOffset <> OutOfFuel.
Proof.
  revert table visited nextOffset.
  induction fuel as [|fuel IH]; intros table visited nextOffset Hfuel; [lia|].
  cbn [ParseXRef_loop].
  destruct (nextOffset =? 0); [discriminate|].
  case_decide as Hvis; [discriminate|].
  pose proof (readXRefAt_total file table nextOffset) as Htot.
  destruct (readXRefAt _ _ _ _ _) as [[prev t1]| | |] eqn:Hround; bind_simpl; try done.
  apply readXRefAt_in_file, elem_of_offsetsOf in Hround.
  apply IH.
  assert (offsetsOf file ∖ ({[nextOffset]} ∪ visited) ⊂ offsetsOf file ∖ visited) as Hsub
    by set_solver.
  apply subset_size in Hsub. lia.
Qed.

(** Once the loop has ended, a larger counter gives the same table. *)
Lemma ParseXRef_loop_stable (fuel fuel' : nat) (file : list ascii) (table : XRefTable)
    (visited : gset Z) (nextOffset : Z) :
  (fuel <= fuel')%nat ->
  ParseXRef_loop sc ObjectString fuel file table visited nextOffset <> OutOfFuel ->
  ParseXRef_loop sc ObjectString fuel' file table visited nextOffset
  = ParseXRef_loop sc ObjectString fuel file table visited nextOffset.
Proof.
  revert fuel' table visited nextOffset.
  induction fuel as [|fuel IH]; intros fuel' table visited nextOffset Hle.
  - destruct fuel'; cbn [ParseXRef_loop]; destruct (nextOffset =? 0); try done;
      case_decide; done.
  - destruct fuel' as [|fuel']; [lia|]. cbn [ParseXRef_loop].
    destruct (nextOffset =? 0); [done|]. case_decide; [done|].
    destruct (readXRefAt _ _ _ _ _) as [[prev t1]| | |]; bind_simpl; try done.
    apply IH. lia.
Qed.

(** The rounds of the loop run at offsets that were not visited before,
    each at most once. *)
Lemma ParseXRef_rounds_fresh (fuel : nat) (file : list ascii) (table : XRefTable)
    (visited : gset Z) (nextOffset : Z) :
  NoDup (ParseXRef_rounds sc ObjectString fuel file table visited nextOffset)
  /\ (forall off : Z,
        (off ∈ ParseXRef_rounds sc ObjectString fuel file table visited nextOffset) ->
        (off ∉ visited) /\ off <> 0).
Proof.
  revert table visited nextOffset.
  induction fuel as [|fuel IH]; intros table visited nextOffset; cbn [ParseXRef_rounds];
    (destruct (nextOffset =? 0) eqn:Hz; [split; [constructor|set_solver]|]);
    (case_decide as Hvis; [split; [constructor|set_solver]|]);
    [split; [constructor|set_solver]|].
  apply Z.eqb_neq in Hz.
  destruct (readXRefAt _ _ _ _ _) as [[prev t1]| | |].
  2-4: split; [apply NoDup_singleton|intros off ->%list_elem_of_singleton; done].
  destruct (IH t1 ({[nextOffset]} ∪ visited) prev) as [Hnd Hfresh].
  split.
  - constructor; [|done]. intros Hin. apply Hfresh in Hin. set_solver.
  - intros off [->|Hin]%elem_of_cons; [done|]. apply Hfresh in Hin. set_solver.
Qed.

(** C7.  [ParseXRef] ends on every file.  Its loop over the [/Prev]
    offsets stops when the next offset is 0 or was visited before; the
    rounds it runs are at pairwise distinct offsets ([NoDup]), so a chain of
    [/Prev] offsets that forms a cycle is walked at most once per offset;
    and from every state the loop ends within one round more than the
    file has bytes, with the same result for every larger bound. *)
Theorem ParseXRef_terminates (file : list ascii) :
  ParseXRef sc ObjectString file <> OutOfFuel
  /\ (forall fuel table visited nextOffset,
        NoDup (ParseXRef_rounds sc ObjectString fuel file table visited nextOffset))
  /\ (forall fuel table visited nextOffset,
        (length file < fuel)%nat ->
        ParseXRef_loop sc ObjectString fuel file table visited nextOffset <> OutOfFuel
        /\ ParseXRef_loop sc ObjectString fuel file table visited nextOffset
           = ParseXRef_loop sc ObjectString (S (length file)) file table visited nextOffset).
Proof.
  assert (Hend : forall fuel table visited nextOffset, (length file < fuel)%nat ->
            ParseXRef_loop sc ObjectString fuel file table visited nextOffset <> OutOfFuel).
  { intros fuel table visited nextOffset Hfuel. apply ParseXRef_loop_enough.
    assert (size (offsetsOf file ∖ visited) <= size (offsetsOf file))%nat
      by (apply subseteq_size; set_solver).
    rewrite offsetsOf_size in *. lia. }
  split; [|split].
  - unfold ParseXRef. destruct (findStartXRef sc file) as [off| | |] eqn:Hstart; try done.
    + specialize (Hend (S (length file)) NewXRefTable ∅ off ltac:(lia)).
      destruct (ParseXRef_loop _ _ _ _ _ _ _) as [t| | |]; bind_simpl; try done.
      by destruct (Trailer t !! "/Root").
    + unfold findStartXRef in Hstart. repeat case_match; discriminate.
  - intros. apply ParseXRef_rounds_fresh.
  - intros fuel table visited nextOffset Hfuel. split; [by apply Hend|].
    apply ParseXRef_loop_stable; [lia|]. apply Hend. lia.
Qed.

(** C6.  While [ParseXRef] walks the chain of [/Prev] offsets, an entry of
    [Entries] and a key of the accumulated [Trailer] keep the value they
    were first given: whatever state the loop is in (table, visited
    offsets, next offset), every entry and every trailer key present in
    that state has the same value in the table the loop ends with. *)
Theorem ParseXRef_first_value_wins (fuel : nat) (file : list ascii)
    (table table' : XRefTable) (visited : gset Z) (nextOffset : Z) :
  ParseXRef_loop sc ObjectString fuel file table visited nextOffset = Ok table' ->
  (forall id e, Entries table !! id = Some e -> Entries table' !! id = Some e)
  /\ (forall key v, Trailer table !! key = Some v -> Trailer table' !! key = Some v).
Proof.
  intros Hrun.
  enough (Entries table ⊆ Entries table' /\ Trailer table ⊆ Trailer table') as [He Ht].
  { split; intros k v Hk; [exact (lookup_weaken _ _ _ _ Hk He)
                          | exact (lookup_weaken _ _ _ _ Hk Ht)]. }
  revert table visited nextOffset Hrun.
  induction fuel as [|fuel IH]; intros table visited nextOffset;
    cbn [ParseXRef_loop];
    (destruct (nextOffset =? 0); [by intros [= <-]|]);
    (case_decide; [by intros [= <-]|]); [discriminate|].
  destruct (readXRefAt _ _ _ _ _) as [[prev t1]| | |] eqn:Hround; bind_simpl;
    try discriminate.
  apply readXRefAt_mono in Hround as [He1 Ht1].
  intros Hrun. apply IH in Hrun as [He2 Ht2]. split; by etrans.
Qed.

End WithGoLib.

(** A file of one classical table at offset 5, read into a table that
    already has object 0 and a [/Root]. *)
Definition sampleFile : list ascii :=
  bytes_of_string "%PDF" ++ Fixture.bytes [10]
  ++ bytes_of_string "xref" ++ Fixture.bytes [10]
  ++ bytes_of_string "0 2" ++ Fixture.bytes [10]
  ++ bytes_of_string "0000000017 00000 n " ++ Fixture.bytes [10]
  ++ bytes_of_string "0000000042 00000 n " ++ Fixture.bytes [10]
  ++ bytes_of_string "trailer" ++ Fixture.bytes [10]
  ++ bytes_of_string "<< /Root 1 0 R /Size 2 >>".

Definition sampleEntry : XRefEntry :=
  {| Offset := 99; Generation := 0; Free := false; Compressed := false;
     StreamObj := 0; StreamIdx := 0 |}.

Definition sampleTable : XRefTable :=
  {| Entries := {[ 0 := sampleEntry ]}; Trailer := {[ "/Root" := NullObject ]} |}.

Lemma ParseXRef_first_value_wins_witness :
  exists table',
    ParseXRef_loop Fixture.lib Fixture.objectString 10 sampleFile sampleTable ∅ 5 = Ok table'
    /\ Entries table' !! 0 = Some sampleEntry
    /\ Trailer table' !! "/Root" = Some NullObject
    /\ (Offset <$> Entries table' !! 1) = Some 42
    /\ is_Some (Trailer table' !! "/Size").
Proof.
  destruct (ParseXRef_loop Fixture.lib Fixture.objectString 10 sampleFile sampleTable ∅ 5)
    as [table'| | |] eqn:Hrun; [|vm_compute in Hrun; discriminate..].
  exists table'. split; [done|].
  destruct (ParseXRef_first_value_wins Fixture.lib Fixture.objectString
              10 sampleFile sampleTable table' ∅ 5 Hrun) as [He Ht].
  split; [by apply He|]. split; [by apply Ht|].
  vm_compute in Hrun. injection Hrun as <-. split; [reflexivity|]. by eexists.
Defined.

End XRefFacts.

(* ================================================================== *)
(** * The encryption handler *)
(* ================================================================== *)

Module CryptoFacts.

Import Crypto.

(** The digests of the empty message and of [abc] (RFC 1321, A.5). *)
Example md5_empty :
  Lexer.hexEncode (MD5.Sum []) = bytes_of_string "d41d8cd98f00b204e9800998ecf8427e".
Proof. vm_compute. reflexivity. Qed.

Example md5_abc :
  Lexer.hexEncode (MD5.Sum (bytes_of_string "abc"))
  = bytes_of_string "900150983cd24fb0d6963f7d28e17f72".
Proof. vm_compute. reflexivity. Qed.

Lemma MD5_bytes_of_length (n : nat) (z : Z) : length (MD5.bytes_of n z) = n.
Proof. unfold MD5.bytes_of. by rewrite length_map, length_seq. Qed.

Lemma MD5_Sum_length (msg : list ascii) : length (MD5.Sum msg) = 16%nat.
Proof.
  unfold MD5.Sum. destruct (MD5.blocks _ _ _) as [[[a b] c] d].
  rewrite !length_app, !MD5_bytes_of_length. reflexivity.
Qed.

(** The design's words: an integer as [n] bytes, least significant first. *)
Definition littleEndian (n : nat) (z : Z) : list ascii :=
  map (fun i => byte (z / 256 ^ Z.of_nat i)) (seq 0 n).

(** The design's words: the bytes that are hashed for the key of an object. *)
Definition keyMaterial (h : EncryptionHandler) (objNum genNum : Z) : list ascii :=
  EncryptKey h ++ littleEndian 3 objNum ++ littleEndian 2 genNum
  ++ (if 4 <=? V h then bytes_of_string "sAlT" else []).

Lemma copy_into_zeros (n : nat) (src : list ascii) :
  copy (make (length src + n)) src = src ++ repeat Ascii.zero n.
Proof.
  unfold copy, make. rewrite repeat_length.
  rewrite firstn_all2 by lia. f_equal.
  rewrite repeat_app, skipn_app, repeat_length, Nat.sub_diag.
  rewrite skipn_all2 by (rewrite repeat_length; lia). done.
Qed.

(** C4.  For every handler, object number and generation the key of the
    object is the first [min (len(fileKey) + 5) 16] bytes of the MD5 digest
    of: the file key, the object number as three bytes and the generation
    as two bytes, least significant byte first, and the four ASCII bytes
    [sAlT] exactly when [V >= 4]; its length is [min (len(fileKey) + 5) 16]. *)
Theorem computeObjectKey_spec (h : EncryptionHandler) (objNum genNum : Z) :
  computeObjectKey h objNum genNum
  = take (Nat.min (length (EncryptKey h) + 5) 16) (MD5.Sum (keyMaterial h objNum genNum))
  /\ length (computeObjectKey h objNum genNum) = Nat.min (length (EncryptKey h) + 5) 16.
Proof.
  set (n := Nat.min (length (EncryptKey h) + 5) 16).
  assert (Hkey : computeObjectKey h objNum genNum
                 = take n (MD5.Sum (keyMaterial h objNum genNum))).
  { unfold computeObjectKey, keyMaterial.
    replace (if (16 <? length (EncryptKey h) + 5)%nat then 16%nat
             else (length (EncryptKey h) + 5)%nat) with n
      by (subst n; destruct (Nat.ltb_spec 16 (length (EncryptKey h) + 5)); lia).
    f_equal. f_equal.
    rewrite copy_into_zeros.
    rewrite !insert_app_r_alt by lia.
    replace (length (EncryptKey h) - length (EncryptKey h))%nat with 0%nat by lia.
    replace (length (EncryptKey h) + 1 - length (EncryptKey h))%nat with 1%nat by lia.
    replace (length (EncryptKey h) + 2 - length (EncryptKey h))%nat with 2%nat by lia.
    replace (length (EncryptKey h) + 3 - length (EncryptKey h))%nat with 3%nat by lia.
    replace (length (EncryptKey h) + 4 - length (EncryptKey h))%nat with 4%nat by lia.
    cbn -[byte Z.div Z.pow Z.shiftr app Z.leb].
    rewrite !Z.shiftr_div_pow2 by lia.
    change (256 ^ 0) with 1. rewrite !Z.div_1_r.
    change (256 ^ 1) with (2 ^ 8). change (256 ^ 2) with (2 ^ 16).
    destruct (4 <=? V h); rewrite <- ?app_assoc; reflexivity. }
  split; [exact Hkey|].
  rewrite Hkey, length_take, MD5_Sum_length. subst n. lia.
Qed.

(** The key of object 4, generation 0, under the 40-bit file key [abcde]:
    ten bytes of the digest of [abcde 04 00 00 00 00]. *)
Example computeObjectKey_sample :
  Lexer.hexEncode
    (computeObjectKey {| Dict := {| EncryptDict.Filter := "/Standard"; EncryptDict.V := 1;
                                    EncryptDict.R := 2; EncryptDict.O := [];
                                    EncryptDict.U := []; EncryptDict.P := 0;
                                    EncryptDict.Length := 40;
                                    EncryptDict.EncryptMetadata := true |};
                         FileID := []; EncryptKey := bytes_of_string "abcde";
                         V := 1; R := 2 |} 4 0)
  = bytes_of_string "d9bc35009e177e25d634".
Proof. vm_compute. reflexivity. Qed.

Section WithCiphers.

Context (cs : Ciphers).

(** C5.  [Decrypt] returns the empty output for the empty input under
    every version [V]: the check of the length comes before the switch on
    [V].  Under [V = 4] it returns an error for every other input that is
    shorter than 16 bytes, the error of [decryptAES], which refuses every
    input shorter than 16 bytes. *)
Theorem Decrypt_short_input (h : EncryptionHandler) (data : list ascii) (objNum genNum : Z) :
  Decrypt cs h [] objNum genNum = Ok []
  /\ (V h = 4 -> (0 < length data < 16)%nat -> is_Err (Decrypt cs h data objNum genNum))
  /\ ((length data < 16)%nat -> is_Err (decryptAES cs h data objNum genNum)).
Proof.
  split; [reflexivity|].
  assert (Haes : (length data < 16)%nat -> is_Err (decryptAES cs h data objNum genNum)).
  { intros Hlen. unfold decryptAES.
    destruct (Nat.ltb_spec (length data) 16); [exact I|lia]. }
  split; [|exact Haes].
  intros HV [Hpos Hlen]. unfold Decrypt.
  destruct (Nat.eqb_spec (length data) 0); [lia|].
  rewrite HV. cbn [Z.eqb orb Pos.eqb]. by apply Haes.
Qed.

End WithCiphers.

(** A handler for AES ([V = 4]) with a 128-bit file key. *)
Definition aesHandler : EncryptionHandler :=
  {| Dict := {| EncryptDict.Filter := "/Standard"; EncryptDict.V := 4; EncryptDict.R := 4;
                EncryptDict.O := []; EncryptDict.U := []; EncryptDict.P := -4;
                EncryptDict.Length := 128; EncryptDict.EncryptMetadata := true |};
     FileID := []; EncryptKey := repeat "k"%char 16; V := 4; R := 4 |}.

(** Five bytes under [V = 4]: an error. *)
Lemma Decrypt_short_input_witness :
  is_Err (Decrypt Fixture.ciphers aesHandler (bytes_of_string "short") 7 0).
Proof.
  refine (proj1 (proj2 (Decrypt_short_input Fixture.ciphers aesHandler
                          (bytes_of_string "short") 7 0)) _ _).
  - reflexivity.
  - simpl. lia.
Defined.

End CryptoFacts.

(* ================================================================== *)
(** * The CMap parser: bfrange *)
(* ================================================================== *)

Module CMapFacts.

Import CMapParser.

Lemma byteZ_range (b : ascii) : 0 <= byteZ b < 256.
Proof. unfold byteZ. pose proof (N_ascii_bounded b). lia. Qed.

Lemma byteZ_byte (z : Z) : byteZ (byte z) = z mod 256.
Proof.
  unfold byteZ, byte. rewrite N_ascii_embedding.
  - rewrite Z2N.id; [done|]. apply Z.mod_pos_bound. lia.
  - pose proof (Z.mod_pos_bound z 256 ltac:(lia)). lia.
Qed.

(** The value of a sequence of bytes, most significant first. *)
Definition beValue (bs : list ascii) : Z :=
  fold_left (fun acc b => 256 * acc + byteZ b) bs 0.

Lemma beValue_snoc (bs : list ascii) (b : ascii) :
  beValue (bs ++ [b]) = 256 * beValue bs + byteZ b.
Proof. unfold beValue. by rewrite fold_left_app. Qed.

Lemma intToHex_loop_app (n : nat) (val : Z) (out : list ascii) :
  intToHex_loop n val out = intToHex_loop n val [] ++ out.
Proof.
  revert val out. induction n as [|n IH]; intros val out; cbn [intToHex_loop]; [done|].
  rewrite IH. rewrite (IH _ [_]). by rewrite <- app_assoc.
Qed.

Lemma intToHex_loop_length (n : nat) (val : Z) :
  length (intToHex_loop n val []) = n.
Proof.
  revert val. induction n as [|n IH]; intros val; cbn [intToHex_loop]; [done|].
  rewrite intToHex_loop_app, length_app, IH. simpl. lia.
Qed.

Lemma string_of_bytes_length (bs : list ascii) :
  String.length (string_of_bytes bs) = length bs.
Proof. induction bs as [|b bs IH]; simpl; congruence. Qed.

(** The key width: [intToHex] makes [byteLen] bytes. *)
Lemma intToHex_length (val : Z) (byteLen : nat) :
  String.length (intToHex val byteLen) = byteLen.
Proof. unfold intToHex. by rewrite string_of_bytes_length, intToHex_loop_length. Qed.

Lemma intToHex_value (n : nat) (val : Z) :
  beValue (intToHex_loop n val []) = val mod 256 ^ Z.of_nat n.
Proof.
  revert val. induction n as [|n IH]; intros val; cbn [intToHex_loop].
  - by rewrite Z.mod_1_r.
  - rewrite intToHex_loop_app, beValue_snoc, IH, byteZ_byte.
    change 0xFF with (Z.ones 8). rewrite Z.land_ones by lia.
    rewrite Z.shiftr_div_pow2 by lia. change (2 ^ 8) with 256.
    rewrite Z.mod_mod by lia.
    rewrite Nat2Z.inj_succ, Z.pow_succ_r by lia.
    assert (0 < 256 ^ Z.of_nat n) by (apply Z.pow_pos_nonneg; lia).
    rewrite Z.rem_mul_r by lia. lia.
Qed.

Lemma intToHex_inj (n : nat) (a b : Z) :
  0 <= a < 256 ^ Z.of_nat n -> 0 <= b < 256 ^ Z.of_nat n ->
  intToHex a n = intToHex b n -> a = b.
Proof.
  intros Ha Hb Heq. unfold intToHex, string_of_bytes in Heq.
  apply (f_equal list_ascii_of_string) in Heq.
  rewrite !list_ascii_of_string_of_list_ascii in Heq.
  apply (f_equal beValue) in Heq. rewrite !intToHex_value in Heq.
  by rewrite !Z.mod_small in Heq.
Qed.

Lemma int64_small (z : Z) : - 2 ^ 63 <= z < 2 ^ 63 -> int64 z = z.
Proof. intros Hz. unfold int64. rewrite Z.mod_small; lia. Qed.

(** A run of assignments [Map[key j] = val j] over distinct keys leaves
    every key with its own value. *)
Lemma foldl_setMap_lookup (key val : Z -> string) (l : list Z) (cmap : CMap) (i : Z) :
  i ∈ l ->
  (forall j, j ∈ l -> key j = key i -> j = i) ->
  Map (foldl (fun c j => setMap c (key j) (val j)) cmap l) !! key i = Some (val i).
Proof.
  induction l as [|j l IH] using rev_ind; [by intros ?%elem_of_nil|].
  intros Hin Hinj. rewrite foldl_app. cbn [foldl setMap Map].
  destruct (decide (key j = key i)) as [Hk|Hk].
  - assert (j = i) as -> by (apply Hinj; [set_solver|done]). apply lookup_insert_eq.
  - rewrite lookup_insert_ne by done. apply IH.
    + apply elem_of_app in Hin as [Hin|Hin%list_elem_of_singleton]; [done|congruence].
    + intros j' Hj'. apply Hinj. set_solver.
Qed.

(** The design's words: the target of code [start + i], rebuilt over the
    byte length of [startHex]. *)
Definition claimedTarget (startHex dstHex : list ascii) (i : Z) : string :=
  decodeUTF16BE (bytes_of_string (intToHex (hexToInt dstHex + i) (length startHex))).

(** What the code assigns: the target rebuilt over the byte length of the
    destination [dstHex]. *)
Definition target (dstHex : list ascii) (i : Z) : string :=
  decodeUTF16BE
    (bytes_of_string (intToHex (int64 (hexToInt dstHex + i)) (length dstHex))).

(** C8, as the code has it.  For a bfrange entry [<startHex> <endHex> <dstHex>]
    whose codes fit the key ([0 <= start <= end < 256^len(startHex)], at
    most seven bytes), every source code [start + i] with
    [0 <= i <= end - start] is mapped to
    [intToHex(value_of(dstHex) + i, len(dstHex))] decoded as UTF-16BE: the
    destination is rebuilt over the byte length of [dstHex], not of
    [startHex]; the key is [intToHex(start + i, len(startHex))], of the
    byte length of [startHex]. *)
Theorem bfrange_sequential_mapping (startHex endHex dstHex : list ascii) (cmap : CMap) :
  (length startHex <= 7)%nat ->
  0 <= hexToInt startHex <= hexToInt endHex ->
  hexToInt endHex < 256 ^ Z.of_nat (length startHex) ->
  exists cmap',
    bfrangeEntry (HexStringObject startHex) (HexStringObject endHex)
      (HexStringObject dstHex) cmap = Ok cmap'
    /\ forall i, 0 <= i <= hexToInt endHex - hexToInt startHex ->
         Map cmap' !! intToHex (hexToInt startHex + i) (length startHex)
         = Some (target dstHex i)
         /\ String.length (intToHex (hexToInt startHex + i) (length startHex))
            = length startHex
         /\ String.length (intToHex (int64 (hexToInt dstHex + i)) (length dstHex))
            = length dstHex.
Proof.
  intros Hlen [Hstart Hle] Hend.
  set (n := length startHex) in *.
  set (s := hexToInt startHex) in *. set (e := hexToInt endHex) in *.
  assert (256 ^ Z.of_nat n <= 256 ^ 7) as Hpow by (apply Z.pow_le_mono_r; lia).
  assert (Hlast : int64 (e - s) = e - s) by (apply int64_small; lia).
  cbn [bfrangeEntry]. fold s e n. unfold bfrangeSequential. rewrite Hlast.
  destruct (Z.eqb_spec (e - s) (2 ^ 63 - 1)) as [Hbig|_]; [lia|].
  eexists. split; [reflexivity|]. intros i Hi.
  split; [|split; apply intToHex_length].
  assert (Hkey : forall j, 0 <= j <= e - s -> int64 (s + j) = s + j)
    by (intros j Hj; apply int64_small; lia).
  rewrite <- (Hkey i Hi).
  apply (foldl_setMap_lookup
           (fun j => intToHex (int64 (s + j)) n)
           (fun j => target dstHex j)).
  - apply elem_of_seqZ. lia.
  - intros j Hj%elem_of_seqZ Heq.
    rewrite (Hkey j), (Hkey i) in Heq by lia.
    apply intToHex_inj in Heq; lia.
Qed.

(** The entry [<20> <20> <0100>] as [ParseCMap] reads it.  The lexer hands
    the digits over as they stand: [startHex] is the two bytes [20] and
    [dstHex] the four bytes [0100].  The key [20] is mapped to the four
    bytes of [dstHex] read as UTF-16BE, the two characters U+3031 U+3030;
    rebuilt over the two bytes of [startHex] the target would be U+3030
    alone. *)
Lemma bfrange_target_width_is_of_dstHex :
  exists cmap',
    (forall sc, ParseCMap sc (bytes_of_string "1 beginbfrange <20> <20> <0100> endbfrange")
                = Ok cmap')
    /\ bfrangeEntry (HexStringObject (bytes_of_string "20"))
         (HexStringObject (bytes_of_string "20"))
         (HexStringObject (bytes_of_string "0100")) NewCMap = Ok cmap'
    /\ intToHex (hexToInt (bytes_of_string "20")) 2 = "20"%string
    /\ Map cmap' !! "20"%string
       = Some (string_of_bytes (Fixture.bytes [0xE3; 0x80; 0xB1; 0xE3; 0x80; 0xB0]))
    /\ claimedTarget (bytes_of_string "20") (bytes_of_string "0100") 0
       = string_of_bytes (Fixture.bytes [0xE3; 0x80; 0xB0])
    /\ Map cmap' !! "20"%string
       <> Some (claimedTarget (bytes_of_string "20") (bytes_of_string "0100") 0).
Proof.
  eexists. split; [intros sc; vm_compute; reflexivity|].
  split; [vm_compute; reflexivity|].
  split; [vm_compute; reflexivity|].
  split; [vm_compute; reflexivity|].
  split; [vm_compute; reflexivity|].
  vm_compute. discriminate.
Qed.

(** The entry [<20> <22> <0041>], with the payloads that the lexer hands
    over, the digits as they stand: the key [21] is mapped to the four
    bytes [0042] read as UTF-16BE, U+3030 U+3432. *)
Lemma bfrange_sequential_mapping_witness :
  exists cmap',
    bfrangeEntry (HexStringObject (bytes_of_string "20"))
      (HexStringObject (bytes_of_string "22"))
      (HexStringObject (bytes_of_string "0041")) NewCMap = Ok cmap'
    /\ Map cmap' !! "21"%string
       = Some (string_of_bytes (Fixture.bytes [0xE3; 0x80; 0xB0; 0xE3; 0x90; 0xB2])).
Proof.
  destruct (bfrange_sequential_mapping (bytes_of_string "20") (bytes_of_string "22")
              (bytes_of_string "0041") NewCMap)
    as (cmap' & Hrun & Hmap).
  - simpl. lia.
  - vm_compute. split; discriminate.
  - vm_compute. reflexivity.
  - exists cmap'. split; [exact Hrun|].
    destruct (Hmap 1) as [H1 _]; [vm_compute; split; discriminate|].
    exact H1.
Defined.

End CMapFacts.

(* ================================================================== *)
(** * The text extractor *)
(* ================================================================== *)

Module ExtractFacts.

Import Extract.

#[local] Open Scope float_scope.

Lemma with_gStack_gState_id (e : Extractor) :
  with_gStack (with_gState e (gState e)) (gStack e) = e.
Proof. by destruct e. Qed.

Section WithTables.

Context (glyphToUnicode : gmap string string).
Context (recordInlineImage : gmap string Object -> Extractor -> Result Extractor).
Context (recordImage : string -> Extractor -> Result Extractor).

(** C9.  In every state of the extractor, [q] followed at once by [Q]
    gives back the state as it was, the graphics state and the stack of
    saved graphics states in particular; and [Q] on an empty stack changes
    nothing. *)
Theorem q_Q_restores (e : Extractor) (operands operands' : list Object) :
  (exists e',
      (e1 ← processOp glyphToUnicode recordInlineImage recordImage e
              {| Operator := "q"; Operands := operands |};
       processOp glyphToUnicode recordInlineImage recordImage e1
         {| Operator := "Q"; Operands := operands' |}) = Ok e'
      /\ gState e' = gState e /\ gStack e' = gStack e /\ e' = e)
  /\ (gStack e = [] ->
      processOp glyphToUnicode recordInlineImage recordImage e
        {| Operator := "Q"; Operands := operands' |} = Ok e).
Proof.
  split.
  - exists e. split; [|done].
    unfold Extract.processOp at 2. cbn [Operator String.eqb Ascii.eqb Bool.eqb].
    cbn [mbind Result_bind Go.bind].
    unfold Extract.processOp. cbn [Operator String.eqb Ascii.eqb Bool.eqb].
    cbn [with_gStack gStack gState].
    rewrite last_snoc, length_app. cbn [length].
    replace (length (gStack e) + 1 - 1)%nat with (length (gStack e)) by lia.
    rewrite take_app_length. f_equal. by destruct e.
  - intros Hempty. unfold Extract.processOp.
    cbn [Operator String.eqb Ascii.eqb Bool.eqb]. by rewrite Hempty.
Qed.

(** The design's words: the larger of the two candidate thresholds. *)
Definition claimedThreshold (ts : TextState) : float :=
  let a := FontSize ts * 0.2 in
  let b := spaceWidthUser ts * 0.5 in
  if a <? b then b else a.

Lemma append_cons (c : ascii) (s t : string) : String c s +:+ t = String c (s +:+ t).
Proof. reflexivity. Qed.

Lemma append_empty_r (s : string) : s +:+ "" = s.
Proof. induction s as [|c s IH]; [reflexivity|]. by rewrite append_cons, IH. Qed.

Lemma append_assoc (a b c : string) : (a +:+ b) +:+ c = a +:+ (b +:+ c).
Proof. induction a as [|x a IH]; [reflexivity|]. by rewrite !append_cons, IH. Qed.

(** C2, as the code has it.  When [handleText] shows a string, the
    threshold of the word-break gap is [space_width_user * 0.5] when
    [space_width_user > 0] and [size * 0.2] otherwise (not the larger of
    the two), where [space_width_user = (font.SpaceWidth / 1000) * size *
    (scale / 100)], and 0 without a font.  A single space is written
    exactly when the text is not on a new line ([|y - last_y| > size * 0.5]
    fails), [x - last_x] exceeds this threshold, and the output is not
    empty and ends in neither a newline nor a space; on a new line a
    newline is written when the output is not empty.  The decoded text
    follows. *)
Theorem handleText_word_break (e : Extractor) (s : string) :
  let ts := textState e in
  let fm := Mult (TM ts) (CTM (gState e)) in
  let x := m4 fm in
  let y := m5 fm in
  let space_width_user :=
    match TextFont ts with
    | Some font => (SpaceWidth font / 1000) * FontSize ts * (Scale ts / 100)
    | None => 0
    end in
  let thr := if 0 <? space_width_user then space_width_user * 0.5 else FontSize ts * 0.2 in
  let newLine := FontSize ts * 0.5 <? PrimFloat.abs (y - lastY e) in
  let nonEmpty := (0 <? String.length (buffer e))%nat in
  let space :=
    negb newLine && (thr <? x - lastX e) && nonEmpty
    && negb (hasSuffixByte (buffer e) "010") && negb (hasSuffixByte (buffer e) " ") in
  threshold ts = thr
  /\ buffer (handleText glyphToUnicode e (StringObject s))
     = buffer e
       +:+ (if space then " " else if newLine && nonEmpty then newline else "")
       +:+ decodeText glyphToUnicode ts (bytes_of_string s).
Proof.
  intros ts fm x y space_width_user thr newLine nonEmpty space.
  split; [reflexivity|].
  cbn [handleText with_textState with_output buffer].
  fold ts. fold fm. fold x. fold y.
  rewrite <- append_assoc. f_equal.
  unfold writeBreak. fold ts. fold newLine. fold nonEmpty.
  change (threshold ts) with thr.
  subst space. destruct newLine.
  - cbn [negb andb]. destruct nonEmpty; [reflexivity|]. by rewrite append_empty_r.
  - cbn [negb andb]. destruct (thr <? x - lastX e); cbn [andb].
    + destruct (nonEmpty && negb (hasSuffixByte (buffer e) "010")
                && negb (hasSuffixByte (buffer e) " "))%bool; [reflexivity|].
      by rewrite append_empty_r.
    + by rewrite append_empty_r.
Qed.

End WithTables.

(** A text state at size 10 with a font of the default space width 250,
    and an extractor that has written [Hi] up to x = 0 and now shows text
    at x = 1.5. *)
Definition sampleFont : Font :=
  {| BaseFont := "/Helvetica"; CMap := Some CMapParser.NewCMap; Encoding := ∅;
     Widths := ∅; MissingW := 0; SpaceWidth := 250; IsCID := true |}.

Definition sampleText : TextState :=
  {| TextFont := Some sampleFont; FontSize := 10; CharSpacing := 0; WordSpacing := 0;
     Scale := 100; Leading := 0; Rise := 0;
     TM := mkMatrix 1 0 0 1 1.5 0; TLM := mkMatrix 1 0 0 1 1.5 0 |}.

Definition sampleExtractor : Extractor :=
  {| reader := {| Pages.xref := XRef.NewXRefTable;
                  Pages.objectAt := fun _ _ => Err (errorString "object not found in xref") |};
     page := ∅;
     gState := {| CTM := IdentityMatrix |};
     gStack := [];
     textState := sampleText;
     fonts := {[ "/F1" := sampleFont ]};
     lastX := 0; lastY := 0;
     buffer := "Hi";
     images := None;
     xobjects := ∅ |}.

(** At size 10 with space width 250 the threshold of the code is 1.25, the
    larger of the two candidates is 2; a gap of 1.5 lies between them, and
    the code writes the space. *)
Lemma threshold_is_not_the_maximum :
  threshold sampleText = 1.25
  /\ claimedThreshold sampleText = 2
  /\ (claimedThreshold sampleText <? 1.5) = false
  /\ buffer (handleText ∅ sampleExtractor (StringObject "There")) = "Hi There"%string.
Proof. repeat split; vm_compute; reflexivity. Qed.

(** The scenarios of the design for a font without metrics: a page that
    starts with an empty output, font [/F1] at size 10. *)
Definition freshExtractor : Extractor :=
  {| reader := reader sampleExtractor; page := ∅;
     gState := {| CTM := IdentityMatrix |}; gStack := [];
     textState := NewTextState; fonts := {[ "/F1" := sampleFont ]};
     lastX := 0; lastY := 0; buffer := ""; images := None; xobjects := ∅ |}.

Definition op (operator : string) (operands : list Object) : Operation :=
  {| Operator := operator; Operands := operands |}.

Definition shownText (ops : list Operation) : Result string :=
  e ← processOps ∅ (fun _ e => Ok e) (fun _ e => Ok e) freshExtractor ops;
  Ok (buffer e).

Example scenario_trivial_literal :
  shownText [op "BT" []; op "Tf" [NameObject "/F1"; NumberObject 12];
             op "Td" [NumberObject 100; NumberObject 700];
             op "Tj" [StringObject "Hello"]; op "ET" []]
  = Ok "Hello"%string.
Proof. vm_compute. reflexivity. Qed.

Example scenario_space_synthesis :
  shownText [op "BT" []; op "Tf" [NameObject "/F1"; NumberObject 10];
             op "Td" [NumberObject 0; NumberObject 0]; op "Tj" [StringObject "Hi"];
             op "Td" [NumberObject 50; NumberObject 0]; op "Tj" [StringObject "There"]]
  = Ok "Hi There"%string
  /\ shownText [op "BT" []; op "Tf" [NameObject "/F1"; NumberObject 10];
                op "Td" [NumberObject 0; NumberObject 0]; op "Tj" [StringObject "Hi"];
                op "Td" [NumberObject 8; NumberObject 0]; op "Tj" [StringObject "There"]]
     = Ok "HiThere"%string.
Proof. split; vm_compute; reflexivity. Qed.

Example scenario_line_break :
  shownText [op "BT" []; op "Tf" [NameObject "/F1"; NumberObject 10];
             op "Td" [NumberObject 0; NumberObject 0]; op "Tj" [StringObject "Hi"];
             op "Td" [NumberObject 0; NumberObject (-20)]; op "Tj" [StringObject "There"]]
  = Ok ("Hi" +:+ newline +:+ "There").
Proof. vm_compute. reflexivity. Qed.

(** An operator without its operand panics on the index. *)
Example Tc_without_operand :
  shownText [op "Tc" []] = Panic.
Proof. vm_compute. reflexivity. Qed.

Lemma q_Q_restores_witness :
  processOp ∅ (fun _ e => Ok e) (fun _ e => Ok e) sampleExtractor
    {| Operator := "Q"; Operands := [] |} = Ok sampleExtractor.
Proof.
  refine (proj2 (q_Q_restores ∅ (fun _ e => Ok e) (fun _ e => Ok e) sampleExtractor [] []) _).
  reflexivity.
Defined.

End ExtractFacts.

(* ================================================================== *)
(** * The page tree *)
(* ================================================================== *)

Module PagesFacts.

Import Pages.

Scheme PageTree_kids_ind := Minimality for PageTree Sort Prop
  with PageKids_tree_ind := Minimality for PageKids Sort Prop.

Lemma int64_id (z : Z) : - 2 ^ 63 <= z < 2 ^ 63 -> int64 z = z.
Proof. intros Hz. unfold int64. rewrite Z.mod_small; lia. Qed.

Section WithObjectString.

Context (ObjectString : Object -> string).
Context (r : Reader).

(** What the walk does with an index that is not below the number of
    leaves: it finds no page and takes the leaves off the index. *)
Definition walksPast (node : gmap string Object) (n : Z) : Prop :=
  0 <= n
  /\ exists fuel0, forall fuel idx,
       (fuel0 <= fuel)%nat -> n <= idx < 2 ^ 63 ->
       findPage ObjectString fuel r node idx = Ok (None, idx - n).

Definition kidsWalkPast (kids : list Object) (n : Z) : Prop :=
  0 <= n
  /\ exists fuel0, forall fuel idx,
       (fuel0 <= fuel)%nat -> n <= idx < 2 ^ 63 ->
       findPage_kids (findPage ObjectString fuel r) r kids idx = Ok (None, idx - n).

Lemma findPage_past_leaves (node : gmap string Object) (n : Z) :
  PageTree ObjectString r countAccurate node n -> walksPast node n.
Proof.
  revert node n.
  apply (PageTree_kids_ind ObjectString r countAccurate walksPast kidsWalkPast).
  - (* a leaf *)
    intros node nodeType Htype Hpage. split; [lia|].
    exists 1%nat. intros [|fuel] idx Hfuel Hidx; [lia|].
    cbn [findPage]. rewrite Htype, Hpage. cbn [String.eqb Ascii.eqb Bool.eqb].
    destruct (Z.eqb_spec idx 0); [lia|]. by rewrite int64_id by lia.
  - (* an inner node *)
    intros node nodeType kidsObj kids n Htype Hpage Hkids Hres _ (Hn & fuel0 & IH).
    split; [done|].
    exists (S fuel0). intros [|fuel] idx Hfuel Hidx; [lia|].
    cbn [findPage]. rewrite Htype.
    destruct (String.eqb_spec (ObjectString nodeType) "/Page"); [done|].
    rewrite Hkids, Hres. cbn [mbind Result_bind Go.bind].
    apply IH; [lia|done].
  - (* no kid *)
    split; [lia|]. exists 0%nat. intros fuel idx _ _. cbn [findPage_kids].
    by rewrite Z.sub_0_r.
  - (* a kid and the kids after it *)
    intros kidRef kid kids n m Hres _ (Hn & fuel1 & IHkid) Hcount _ (Hm & fuel2 & IHkids).
    split; [lia|].
    exists (Nat.max fuel1 fuel2). intros fuel idx Hfuel Hidx.
    assert (Hrest : findPage_kids (findPage ObjectString fuel r) r kids (idx - n)
                    = Ok (None, idx - (n + m))).
    { rewrite IHkids by lia. do 2 f_equal. lia. }
    assert (Hdescend :
              ('(found, targetIndex) ← findPage ObjectString fuel r kid idx;
               match found with
               | Some _ => Ok (found, targetIndex)
               | None => findPage_kids (findPage ObjectString fuel r) r kids targetIndex
               end) = Ok (None, idx - (n + m))).
    { rewrite IHkid by lia. cbn [mbind Result_bind Go.bind]. exact Hrest. }
    cbn [findPage_kids]. rewrite Hres. cbn [mbind Result_bind Go.bind].
    destruct (kid !! "/Count") as [countObj|] eqn:Hc; [|exact Hdescend].
    destruct countObj; try exact Hdescend.
    rewrite (Hcount _ Hc).
    destruct (Z.ltb_spec idx n); [lia|].
    rewrite int64_id by lia. exact Hrest.
Qed.

(** C10, as the code has it.  In a document whose page tree is walked to
    its end by [findPage] and whose [/Count] entries below the root are
    the numbers of [/Page] leaves of their nodes, [GetPage] returns a nil
    dictionary and a nil error for every page index greater than or equal
    to the number of [/Page] leaves reachable in the tree. *)
Theorem GetPage_past_last_page (n pageIndex : Z) :
  PagesRoot ObjectString r countAccurate n ->
  n <= pageIndex < 2 ^ 63 ->
  exists fuel0, forall fuel, (fuel0 <= fuel)%nat ->
    GetPage ObjectString fuel r pageIndex = Ok None.
Proof.
  intros (catDict & rootPagesDict & Hroot & Hpages & Htree) Hidx.
  apply findPage_past_leaves in Htree as (_ & fuel0 & Hwalk).
  exists fuel0. intros fuel Hfuel. unfold GetPage.
  rewrite Hroot. cbn [mbind Result_bind Go.bind].
  rewrite Hpages. cbn [mbind Result_bind Go.bind].
  by rewrite Hwalk.
Qed.

End WithObjectString.

(** A document of two pages.  Object 2 is the root of the page tree, with
    the kids 3 (an inner node over page 4) and 5 (a page). *)
Definition pageDict : gmap string Object := {[ "/Type" := NameObject "/Page" ]}.

Definition innerDict (count : Z) : gmap string Object :=
  {[ "/Type" := NameObject "/Pages";
     "/Count" := NumberObject (float64_of_int count);
     "/Kids" := ArrayObject [IndirectObject 4 0] ]}.

Definition rootDict : gmap string Object :=
  {[ "/Type" := NameObject "/Pages";
     "/Count" := NumberObject 2;
     "/Kids" := ArrayObject [IndirectObject 3 0; IndirectObject 5 0] ]}.

Definition catalogDict : gmap string Object :=
  {[ "/Type" := NameObject "/Catalog"; "/Pages" := IndirectObject 2 0 ]}.

(** The reader of the document; [count] is the [/Count] of object 3. *)
Definition sampleReader (count : Z) : Reader :=
  {| xref := {| XRef.Entries := ∅; XRef.Trailer := {[ "/Root" := IndirectObject 1 0 ]} |};
     objectAt := fun n _ =>
       if n =? 1 then Ok (DictionaryObject catalogDict)
       else if n =? 2 then Ok (DictionaryObject rootDict)
       else if n =? 3 then Ok (DictionaryObject (innerDict count))
       else if n =? 4 then Ok (DictionaryObject pageDict)
       else if n =? 5 then Ok (DictionaryObject pageDict)
       else Err (errorString "object not found in xref") |}.

Lemma sampleReader_tree (count : Z) (ok : gmap string Object -> Z -> Prop) :
  ok (innerDict count) 1 -> ok pageDict 1 ->
  PagesRoot Fixture.objectString (sampleReader count) ok 2.
Proof.
  intros Hinner Hpage.
  assert (Hleaf : PageTree Fixture.objectString (sampleReader count) ok pageDict 1)
    by (eapply PageLeaf; reflexivity).
  exists catalogDict, rootDict. split; [reflexivity|]. split; [reflexivity|].
  eapply PageNode; [reflexivity|discriminate|reflexivity|reflexivity|].
  apply (PageKidsCons _ _ _ _ (innerDict count) _ 1 1); [reflexivity| |done|].
  - eapply PageNode; [reflexivity|discriminate|reflexivity|reflexivity|].
    apply (PageKidsCons _ _ _ _ pageDict [] 1 0); [reflexivity|done|done|constructor].
  - apply (PageKidsCons _ _ _ _ pageDict [] 1 0); [reflexivity|done|done|constructor].
Qed.

(** With [/Count 5] on the inner node, which has one page, the tree has
    two pages and [GetPage(5)] returns the second: index 5 skips the inner
    node and reaches object 5 as index 0. *)
Lemma GetPage_trusts_Count :
  PagesRoot Fixture.objectString (sampleReader 5) anyCount 2
  /\ 2 <= 5
  /\ GetPage Fixture.objectString 10 (sampleReader 5) 5 = Ok (Some pageDict)
  /\ forall fuel, (3 <= fuel)%nat ->
       GetPage Fixture.objectString fuel (sampleReader 5) 5 <> Ok None.
Proof.
  split; [by apply sampleReader_tree|]. split; [lia|]. split; [vm_compute; reflexivity|].
  intros fuel Hfuel. do 3 (destruct fuel as [|fuel]; [lia|]).
  vm_compute. discriminate.
Qed.

Lemma GetPage_past_last_page_witness :
  exists fuel0, forall fuel, (fuel0 <= fuel)%nat ->
    GetPage Fixture.objectString fuel (sampleReader 1) 2 = Ok None.
Proof.
  apply (GetPage_past_last_page Fixture.objectString (sampleReader 1) 2 2).
  - apply sampleReader_tree.
    + intros countObj Hcount.
      assert (Hone : innerDict 1 !! "/Count" = Some (NumberObject 1%float))
        by (vm_compute; reflexivity).
      rewrite Hone in Hcount. injection Hcount as <-. vm_compute. reflexivity.
    + intros countObj Hcount.
      assert (Hnone : pageDict !! "/Count" = None) by (vm_compute; reflexivity).
      rewrite Hnone in Hcount. discriminate.
  - lia.
Defined.

End PagesFacts.

(* ================================================================== *)
(** * The lexer: inputs and their objects *)
(* ================================================================== *)

Module LexerCases.

Import Lexer LexerBounds.

(** A literal as a writer produces it: a backslash before a parenthesis
    and before a backslash. *)
Definition needsEscape (c : ascii) : bool :=
  Ascii.eqb c "(" || Ascii.eqb c ")" || Ascii.eqb c "092".

Fixpoint escapeLiteral (s : list ascii) : list ascii :=
  match s with
  | [] => []
  | c :: s => if needsEscape c then "092"%char :: c :: escapeLiteral s
              else c :: escapeLiteral s
  end.

Section WithGoLib.

Context (sc : GoLib).

(** A larger counter gives the same result, once the counter suffices. *)
Lemma readers_fuel_mono (fuel : nat) :
  (forall input fuel', (fuel <= fuel')%nat ->
      ReadObject_fuel sc fuel input <> OutOfFuel ->
      ReadObject_fuel sc fuel' input = ReadObject_fuel sc fuel input)
  /\ (forall input arr fuel', (fuel <= fuel')%nat ->
      readArray_fuel sc fuel input arr <> OutOfFuel ->
      readArray_fuel sc fuel' input arr = readArray_fuel sc fuel input arr)
  /\ (forall input d fuel', (fuel <= fuel')%nat ->
      readDictionary_fuel sc fuel input d <> OutOfFuel ->
      readDictionary_fuel sc fuel' input d = readDictionary_fuel sc fuel input d).
Proof.
  induction fuel as [|fuel (IHo & IHa & IHd)]; [by repeat split|].
  repeat split.
  - intros input [|fuel'] Hle; [lia|]. cbn [ReadObject_fuel].
    destruct (skipWhitespace input) as [|token rest]; [done|].
    destruct (Ascii.eqb token "/"); [done|].
    destruct (Ascii.eqb token "("); [done|].
    destruct (Ascii.eqb token "<").
    { destruct rest as [|second rest']; [done|].
      destruct (Ascii.eqb second "<"); [|done].
      bind_simpl. intros Hd.
      rewrite (IHd rest' ∅ fuel'); [done|lia|].
      by destruct (readDictionary_fuel sc fuel rest' ∅). }
    destruct (Ascii.eqb token "[").
    { bind_simpl. intros Ha.
      rewrite (IHa rest [] fuel'); [done|lia|].
      by destruct (readArray_fuel sc fuel rest []). }
    destruct (Ascii.eqb token "%"); [intros Hc; apply IHo; [lia|done]|].
    done.
  - intros input arr [|fuel'] Hle; [lia|]. cbn [readArray_fuel].
    destruct (skipWhitespace input) as [|b rest]; [done|].
    destruct (Ascii.eqb b "]"); [done|].
    bind_simpl. intros Hrun.
    rewrite (IHo (b :: rest) fuel'); [|lia|by destruct (ReadObject_fuel sc fuel (b :: rest))].
    destruct (ReadObject_fuel sc fuel (b :: rest)) as [[obj r]| | |]; try done.
    bind_simpl. cbn [mbind Result_bind Go.bind] in Hrun. apply IHa; [lia|done].
  - intros input d [|fuel'] Hle; [lia|]. cbn [readDictionary_fuel].
    destruct (hasPrefix ">>" (skipWhitespace input)); [done|].
    bind_simpl. intros Hrun.
    rewrite (IHo (skipWhitespace input) fuel');
      [|lia|by destruct (ReadObject_fuel sc fuel (skipWhitespace input))].
    destruct (ReadObject_fuel sc fuel (skipWhitespace input)) as [[keyObj r1]| | |]; try done.
    bind_simpl. cbn [mbind Result_bind Go.bind] in Hrun.
    destruct keyObj; try done.
    rewrite (IHo r1 fuel'); [|lia|by destruct (ReadObject_fuel sc fuel r1)].
    destruct (ReadObject_fuel sc fuel r1) as [[valObj r2]| | |]; try done.
    bind_simpl. cbn [mbind Result_bind Go.bind] in Hrun. apply IHd; [lia|done].
Qed.

(** Any counter above twice the length of the input gives [ReadObject]. *)
Lemma ReadObject_fuel_enough (fuel : nat) (input : list ascii) :
  (2 * length input < fuel)%nat -> ReadObject_fuel sc fuel input = ReadObject sc input.
Proof.
  intros Hfuel. unfold ReadObject.
  apply readers_fuel_mono; [lia|]. apply readers_fuel_enough. lia.
Qed.


(** ** End of input, white space and comments *)

Lemma skipWhitespace_blank (ws l : list ascii) :
  forallb isWhitespace ws = true -> skipWhitespace (ws ++ l) = skipWhitespace l.
Proof.
  induction ws as [|b ws IH]; [done|]. cbn [forallb app skipWhitespace].
  intros [Hb Hws]%andb_true_iff. rewrite Hb. by apply IH.
Qed.

Lemma ReadObject_fuel_skip (fuel : nat) (l l' : list ascii) :
  skipWhitespace l = skipWhitespace l' ->
  ReadObject_fuel sc fuel l = ReadObject_fuel sc fuel l'.
Proof. intros Heq. destruct fuel; [done|]. cbn [ReadObject_fuel]. by rewrite Heq. Qed.

Lemma ReadLine_from_line (room : nat) (c rest : list ascii) :
  (length c < room)%nat -> "010"%char ∉ c ->
  ReadLine_from room (c ++ "010"%char :: rest) = rest.
Proof.
  revert room. induction c as [|b c IH]; intros room Hroom Hnl; [done|].
  cbn [app ReadLine_from].
  destruct (Ascii.eqb_spec b "010") as [->|_]; [by destruct Hnl; left|].
  cbn [length] in Hroom. destruct room as [|[|room]]; [lia|lia|].
  apply IH; [lia|]. intros Hin. apply Hnl. by right.
Qed.

(** X1.  [ReadObject] returns on every input (an object, an error or a
    panic), and when it returns an object it has consumed at least one
    byte: what is left is strictly shorter than the input. *)
Theorem ReadObject_returns_and_advances (input : list ascii) :
  match ReadObject sc input with
  | Ok (_, rest) => (length rest < length input)%nat
  | Err _ | Panic => True
  | OutOfFuel => False
  end.
Proof.
  pose proof (ReadObject_total sc input) as Htotal.
  destruct (ReadObject sc input) as [[o rest]| | |] eqn:Hrun; try done.
  by apply ReadObject_consumes in Hrun.
Qed.

(** X2.  On an input of white space only (the empty input included)
    [ReadObject] returns [io.EOF]. *)
Theorem ReadObject_blank_input (ws : list ascii) :
  forallb isWhitespace ws = true -> ReadObject sc ws = Err EOF.
Proof.
  intros Hws. unfold ReadObject. rewrite Nat.add_1_r. cbn [ReadObject_fuel].
  rewrite <- (app_nil_r ws). by rewrite (skipWhitespace_blank ws [] Hws).
Qed.

(** X3.  White space before an object is skipped, and so is a comment:
    a percent sign and the bytes up to the end of the line (a line that
    fits the 4096 bytes of the reader's buffer).  The input after them
    holds no number sign: the escape of a name is read with a [Read] whose
    result depends on where the buffer of the reader ends, and the bytes
    that are skipped move that place. *)
Theorem ReadObject_skips_blanks_and_comments (ws c rest : list ascii) :
  forallb isWhitespace ws = true ->
  "010"%char ∉ c -> (length c <= 4095)%nat ->
  existsb (Ascii.eqb "#") rest = false ->
  ReadObject sc (ws ++ rest) = ReadObject sc rest
  /\ ReadObject sc (ws ++ "%"%char :: c ++ "010"%char :: rest) = ReadObject sc rest.
Proof.
  intros Hws Hnl Hlen _.
  assert (Hblank : forall l, ReadObject sc (ws ++ l) = ReadObject sc l).
  { intros l. unfold ReadObject at 1.
    rewrite (ReadObject_fuel_skip _ (ws ++ l) l) by by apply skipWhitespace_blank.
    apply ReadObject_fuel_enough. rewrite length_app. lia. }
  split; [apply Hblank|]. rewrite Hblank.
  unfold ReadObject at 1. rewrite Nat.add_1_r. cbn [ReadObject_fuel skipWhitespace].
  change (isWhitespace "%") with false. cbv iota.
  change (Ascii.eqb "%" "/") with false. change (Ascii.eqb "%" "(") with false.
  change (Ascii.eqb "%" "<") with false. change (Ascii.eqb "%" "[") with false.
  change (Ascii.eqb "%" "%") with true. cbv iota.
  unfold ReadLine. rewrite ReadLine_from_line by (done || lia).
  apply ReadObject_fuel_enough. cbn [length]. rewrite length_app. cbn [length]. lia.
Qed.

(** X4.  An array that is open when the input ends does not give an
    error: [readArray] indexes the empty result of [Peek] and panics. *)
Theorem ReadObject_open_array_panics (ws : list ascii) :
  forallb isWhitespace ws = true -> ReadObject sc ("["%char :: ws) = Panic.
Proof.
  intros Hws. unfold ReadObject. cbn [length].
  replace (2 * S (length ws) + 1)%nat with (S (S (2 * length ws + 1))) by lia.
  cbn [ReadObject_fuel skipWhitespace].
  change (isWhitespace "[") with false. cbv iota.
  change (Ascii.eqb "[" "/") with false. change (Ascii.eqb "[" "(") with false.
  change (Ascii.eqb "[" "<") with false. change (Ascii.eqb "[" "[") with true. cbv iota.
  cbn [readArray_fuel]. rewrite <- (app_nil_r ws).
  by rewrite (skipWhitespace_blank ws [] Hws).
Qed.


(** ** Literal strings *)

Lemma append_byte (sb : string) (c : ascii) (s : list ascii) :
  WriteByte sb c +:+ string_of_bytes s = sb +:+ string_of_bytes (c :: s).
Proof. unfold WriteByte. by rewrite ExtractFacts.append_assoc. Qed.

Lemma readString_loop_escapeLiteral (s rest : list ascii) (sb : string) :
  readString_loop sc (escapeLiteral s ++ ")"%char :: rest) 1 sb
  = Ok (sb +:+ string_of_bytes s, rest).
Proof.
  revert sb. induction s as [|c s IH]; intros sb.
  - cbn. by rewrite ExtractFacts.append_empty_r.
  - cbn [escapeLiteral]. unfold needsEscape.
    destruct (Ascii.eqb_spec c "(") as [->|Hopen].
    { cbn [orb app readString_loop]. change (isOctal "(") with false.
      cbn. rewrite IH. by rewrite append_byte. }
    destruct (Ascii.eqb_spec c ")") as [->|Hclose].
    { cbn [orb app readString_loop]. change (isOctal ")") with false.
      cbn. rewrite IH. by rewrite append_byte. }
    destruct (Ascii.eqb_spec c "092") as [->|Hback].
    { cbn [orb app readString_loop]. change (isOctal "092") with false.
      cbn. rewrite IH. by rewrite append_byte. }
    cbn [orb app readString_loop].
    destruct (Ascii.eqb_spec c "(") as [|_]; [done|].
    destruct (Ascii.eqb_spec c ")") as [|_]; [done|].
    destruct (Ascii.eqb_spec c "092") as [|_]; [done|].
    rewrite IH. by rewrite append_byte.
Qed.

(** X5.  A byte string written as a literal, with a backslash before
    every parenthesis and backslash, is read back as it was. *)
Theorem ReadObject_literal_round_trip (s rest : list ascii) :
  ReadObject sc ("("%char :: escapeLiteral s ++ ")"%char :: rest)
  = Ok (StringObject (string_of_bytes s), rest).
Proof.
  unfold ReadObject. rewrite Nat.add_1_r. cbn [ReadObject_fuel skipWhitespace].
  change (isWhitespace "(") with false. cbv iota.
  change (Ascii.eqb "(" "/") with false. change (Ascii.eqb "(" "(") with true. cbv iota.
  unfold readString. cbn [tail]. by rewrite readString_loop_escapeLiteral.
Qed.




(** ** References *)








End WithGoLib.

Lemma ReadObject_blank_input_witness :
  ReadObject Fixture.lib (bytes_of_string "  ") = Err EOF.
Proof. apply (ReadObject_blank_input Fixture.lib). reflexivity. Defined.

Lemma ReadObject_skips_blanks_and_comments_witness :
  ReadObject Fixture.lib (bytes_of_string "  true") = ReadObject Fixture.lib (bytes_of_string "true")
  /\ ReadObject Fixture.lib
       (bytes_of_string "  %a comment" ++ "010"%char :: bytes_of_string "true")
     = ReadObject Fixture.lib (bytes_of_string "true").
Proof.
  apply (ReadObject_skips_blanks_and_comments Fixture.lib
           (bytes_of_string "  ") (bytes_of_string "a comment") (bytes_of_string "true")).
  - reflexivity.
  - intros Hin. by repeat (apply elem_of_cons in Hin as [Hin|Hin]; [discriminate|]);
      apply elem_of_nil in Hin.
  - simpl. lia.
  - reflexivity.
Defined.

Lemma ReadObject_open_array_panics_witness :
  ReadObject Fixture.lib (bytes_of_string "[  ") = Panic.
Proof. apply (ReadObject_open_array_panics Fixture.lib (bytes_of_string "  ")). reflexivity. Defined.



End LexerCases.

(* ================================================================== *)
(** * Cross-reference data *)
(* ================================================================== *)

Module XRefData.

Import XRef LexerBounds XRefFacts.

(** ** PNG predictors *)

(** X8.  [paethPredictor], on the bytes [applyPngPredictor] passes to it,
    returns one of its three arguments, and none of the three is nearer to
    [a + b - c] than the one returned. *)
Theorem paethPredictor_nearest (x y z : ascii) :
  let a := byteZ x in let b := byteZ y in let c := byteZ z in
  let p := a + b - c in
  let r := paethPredictor a b c in
  (r = a \/ r = b \/ r = c)
  /\ abs (p - r) <= abs (p - a) /\ abs (p - r) <= abs (p - b) /\ abs (p - r) <= abs (p - c).
Proof.
  cbv zeta. unfold paethPredictor, abs.
  generalize (byteZ x) (byteZ y) (byteZ z). intros a b c.
  repeat (case_match; try lia).
Qed.

Lemma subRow_length (row : list ascii) (left : Z) : length (subRow row left) = length row.
Proof. revert left. induction row as [|r row IH]; intros left; simpl; [done|]. by rewrite IH. Qed.

Lemma upRow_length (row prev : list ascii) :
  length prev = length row -> length (upRow row prev) = length row.
Proof.
  revert prev. induction row as [|r row IH]; intros [|p prev]; simpl; try done.
  intros [= Hlen]. by rewrite IH.
Qed.

Lemma averageRow_length (row prev : list ascii) (left : Z) :
  length prev = length row -> length (averageRow row prev left) = length row.
Proof.
  revert prev left. induction row as [|r row IH]; intros [|p prev] left; simpl; try done.
  intros [= Hlen]. by rewrite IH.
Qed.

Lemma paethRow_length (row prev : list ascii) (left upperLeft : Z) :
  length prev = length row -> length (paethRow row prev left upperLeft) = length row.
Proof.
  revert prev left upperLeft.
  induction row as [|r row IH]; intros [|p prev] left upperLeft; simpl; try done.
  intros [= Hlen]. by rewrite IH.
Qed.

Lemma unfilterRow_length (filter : ascii) (row prev : list ascii) :
  length prev = length row -> length (unfilterRow filter row prev) = length row.
Proof.
  intros Hlen. unfold unfilterRow.
  repeat case_match;
    auto using subRow_length, upRow_length, averageRow_length, paethRow_length.
Qed.

Lemma unfilterRows_length (rowCount columns : nat) (data prev : list ascii) :
  (rowCount * S columns <= length data)%nat -> length prev = columns ->
  length (unfilterRows rowCount columns data prev) = (rowCount * columns)%nat.
Proof.
  revert data prev. induction rowCount as [|rowCount IH]; intros data prev Hdata Hprev; [done|].
  cbn [unfilterRows]. destruct data as [|filter rest]; [simpl in Hdata; lia|].
  cbn [length] in Hdata.
  assert (Hrow : length (take columns rest) = columns) by (rewrite length_take; lia).
  rewrite length_app, unfilterRow_length by lia.
  rewrite IH; [lia| |].
  - rewrite length_drop. lia.
  - rewrite unfilterRow_length; lia.
Qed.

Lemma makeable_within (n : Z) : 0 <= n <= maxAlloc -> makeable n = true.
Proof. intros Hn. unfold makeable. apply andb_true_iff. lia. Qed.

(** X9.  For a predictor from 10 to 15 and rows that are not longer than
    the data ([0 <= columns <= len(data)], the data being a slice that
    the run time can hold), [applyPngPredictor] returns
    [rowCount * columns] bytes, where [rowCount] is the number of whole
    rows of [columns + 1] bytes in the data: the filter byte of every row
    is dropped, and so is an incomplete last row. *)
Theorem applyPngPredictor_length (data : list ascii) (columns predictor : Z) :
  10 <= predictor <= 15 ->
  0 <= columns <= Z.of_nat (length data) -> Z.of_nat (length data) <= maxAlloc ->
  exists out,
    applyPngPredictor data columns predictor = Ok out
    /\ Z.of_nat (length out) = Z.of_nat (length data) / (columns + 1) * columns.
Proof.
  intros Hp Hc Hdata. unfold applyPngPredictor.
  destruct (Z.ltb_spec predictor 10) as [|_]; [lia|].
  destruct (Z.ltb_spec 15 predictor) as [|_]; [lia|].
  rewrite makeable_within by lia.
  cbn [orb negb]. eexists. split; [reflexivity|].
  set (rowCount := Z.of_nat (length data) / (columns + 1)).
  assert (0 <= rowCount) by (apply Z.div_pos; lia).
  assert (rowCount * (columns + 1) <= Z.of_nat (length data)).
  { rewrite Z.mul_comm. apply Z.mul_div_le. lia. }
  rewrite unfilterRows_length.
  - rewrite Nat2Z.inj_mul, !Z2Nat.id by lia. done.
  - apply Nat2Z.inj_le. rewrite Nat2Z.inj_mul, Nat2Z.inj_succ, !Z2Nat.id by lia. lia.
  - unfold make. by rewrite repeat_length.
Qed.

Lemma applyPngPredictor_length_witness :
  exists out,
    applyPngPredictor (Fixture.bytes [2; 1; 2; 3; 2; 1; 1; 1; 9]) 3 12 = Ok out
    /\ Z.of_nat (length out) = 6.
Proof.
  destruct (applyPngPredictor_length (Fixture.bytes [2; 1; 2; 3; 2; 1; 1; 1; 9]) 3 12)
    as (out & Hrun & Hlen); [lia|simpl; lia|by vm_compute|].
  exists out. split; [exact Hrun|exact Hlen].
Defined.

(** ** Fields of an xref stream *)

Import CMapFacts.

Lemma lor_byte (acc : Z) (b : ascii) :
  0 <= acc < 2 ^ 55 -> Z.lor (int64 (Z.shiftl acc 8)) (byteZ b) = 256 * acc + byteZ b.
Proof.
  intros Hacc. pose proof (byteZ_range b) as Hb.
  rewrite Z.shiftl_mul_pow2 by lia. change (2 ^ 8) with 256.
  rewrite int64_small by lia.
  pose proof (Z.add_lor_land (acc * 256) (byteZ b)) as Hadd.
  assert (Z.land (acc * 256) (byteZ b) = 0) as Hland; [|lia].
  apply Z.bits_inj'. intros n Hn.
  rewrite Z.land_spec, Z.bits_0.
  destruct (Z.lt_ge_cases n 8) as [Hlow|Hhigh].
  - change 256 with (2 ^ 8). by rewrite Z.mul_pow2_bits_low.
  - rewrite andb_comm. rewrite <- (Z.mod_small (byteZ b) (2 ^ 8)) by (change (2 ^ 8) with 256; lia).
    by rewrite Z.mod_pow2_bits_high by lia.
Qed.

(** The big-endian loop of [readField] and [hexToInt] on at most seven
    bytes: no bit reaches the sign. *)
Lemma big_endian_fold (buf : list ascii) (acc : Z) (k : nat) :
  0 <= acc < 256 ^ Z.of_nat k -> (k + length buf <= 7)%nat ->
  fold_left (fun res b => Z.lor (int64 (Z.shiftl res 8)) (byteZ b)) buf acc
  = fold_left (fun res b => 256 * res + byteZ b) buf acc
  /\ 0 <= fold_left (fun res b => 256 * res + byteZ b) buf acc
       < 256 ^ Z.of_nat (k + length buf).
Proof.
  revert acc k. induction buf as [|b buf IH]; intros acc k Hacc Hlen.
  - cbn [fold_left length]. by rewrite Nat.add_0_r.
  - cbn [fold_left length] in *. pose proof (byteZ_range b) as Hb.
    assert (256 ^ Z.of_nat k <= 256 ^ 6) by (apply Z.pow_le_mono_r; lia).
    rewrite lor_byte by lia.
    replace (k + S (length buf))%nat with (S k + length buf)%nat by lia.
    apply IH; [|lia]. rewrite Nat2Z.inj_succ, Z.pow_succ_r by lia. lia.
Qed.

Lemma hexToInt_value (h : list ascii) :
  (length h <= 7)%nat ->
  CMapParser.hexToInt h = beValue h /\ 0 <= beValue h < 256 ^ Z.of_nat (length h).
Proof.
  intros Hlen. unfold CMapParser.hexToInt, beValue.
  apply (big_endian_fold h 0 0); [simpl; lia|lia].
Qed.

Lemma beValue_zeros (l : list ascii) (m : nat) :
  beValue (l ++ make m) = beValue l * 256 ^ Z.of_nat m.
Proof.
  induction m as [|m IH]; [rewrite app_nil_r; simpl; lia|].
  unfold make in *. cbn [repeat]. rewrite repeat_cons, app_assoc, beValue_snoc, IH.
  rewrite Nat2Z.inj_succ, Z.pow_succ_r by lia. change (byteZ Ascii.zero) with 0. lia.
Qed.

Lemma skipn_make (k n : nat) : skipn k (make n) = make (n - k).
Proof.
  unfold make. revert k. induction n as [|n IH]; intros [|k]; try done. cbn. apply IH.
Qed.

(** X10.  [readField] reads a field of one to seven bytes as a big-endian
    integer and leaves the reader after the field.  When the data end
    inside the field, the bytes that are missing count as zero bytes; no
    error is reported. *)
Theorem readField_big_endian (r : list ascii) (width : Z) :
  0 < width <= 7 ->
  let field := take (Z.to_nat width) r in
  exists v,
    readField r width = Ok (v, drop (Z.to_nat width) r)
    /\ v = beValue field * 256 ^ (width - Z.of_nat (length field))
    /\ 0 <= v < 256 ^ width.
Proof.
  intros Hw field. unfold readField.
  destruct (Z.eqb_spec width 0) as [|_]; [lia|].
  rewrite makeable_within by (unfold maxAlloc; lia). cbn [negb].
  fold field. set (n := Z.to_nat width).
  assert (Hfield : (length field <= n)%nat) by (unfold field; rewrite length_take; lia).
  assert (Hbuf : copy (make n) field = field ++ make (n - length field)).
  { unfold copy. rewrite skipn_make. unfold make. by rewrite repeat_length, firstn_all2 by lia. }
  rewrite Hbuf.
  destruct (big_endian_fold (field ++ make (n - length field)) 0 0) as [-> Hrange].
  { simpl. lia. }
  { rewrite length_app. unfold make. rewrite repeat_length. lia. }
  eexists. split; [reflexivity|]. fold (beValue (field ++ make (n - length field))) in *.
  assert (Hall : (0 + length (field ++ make (n - length field)))%nat = n).
  { rewrite length_app. unfold make. rewrite repeat_length. lia. }
  rewrite Hall in Hrange.
  replace (Z.of_nat n) with width in Hrange by lia.
  split; [|done]. rewrite beValue_zeros. do 2 f_equal. lia.
Qed.

Lemma readField_big_endian_witness :
  exists v, readField (Fixture.bytes [1; 2; 3]) 2 = Ok (v, Fixture.bytes [3]) /\ v = 258.
Proof.
  destruct (readField_big_endian (Fixture.bytes [1; 2; 3]) 2) as (v & Hrun & Hv & _); [lia|].
  exists v. split; [exact Hrun|]. rewrite Hv. reflexivity.
Defined.

Lemma readField_empty (width : Z) :
  0 <= width <= maxAlloc -> readField [] width = Ok (0, []).
Proof.
  intros Hw. unfold readField.
  destruct (Z.eqb_spec width 0) as [|_]; [done|].
  rewrite makeable_within by done. cbn [negb].
  rewrite take_nil, drop_nil. unfold copy. rewrite firstn_nil. cbn [length app skipn].
  f_equal. f_equal. unfold make. induction (Z.to_nat width) as [|n IH]; [done|].
  cbn [repeat fold_left]. exact IH.
Qed.

Definition freeEntry : XRefEntry :=
  {| Offset := 0; Generation := 0; Free := true; Compressed := false;
     StreamObj := 0; StreamIdx := 0 |}.

(** X11.  Rows that the [/Index] of an xref stream announces beyond the
    end of the decoded data are not refused: with fields of at most eight
    bytes (a field is read into an [int64]) every field of such a row
    reads as zero, so every object of the range that has no entry yet is
    recorded as a free object of generation 0. *)
Theorem readStreamRows_past_end (w0 w1 w2 : Z) (rounds : nat) (start : Z)
    (entries : gmap Z XRefEntry) :
  0 <= w0 <= 8 -> 0 <= w1 <= 8 -> 0 <= w2 <= 8 ->
  - 2 ^ 63 <= start -> start + Z.of_nat rounds < 2 ^ 63 ->
  exists entries',
    readStreamRows w0 w1 w2 rounds start [] entries = Ok ([], entries')
    /\ entries ⊆ entries'
    /\ forall id, start <= id < start + Z.of_nat rounds ->
         entries !! id = None -> entries' !! id = Some freeEntry.
Proof.
  intros H0 H1 H2.
  assert (Hempty : forall w, 0 <= w <= 8 -> readField [] w = Ok (0, []))
    by (intros w Hw; apply readField_empty; unfold maxAlloc; lia).
  revert start entries.
  induction rounds as [|rounds IH]; intros start entries Hlo Hhi.
  - exists entries. split; [done|]. split; [done|]. intros id Hid. lia.
  - cbn [readStreamRows]. rewrite !Hempty by done. bind_simpl.
    rewrite Hempty by done. bind_simpl.
    rewrite Hempty by done. bind_simpl.
    rewrite int64_small by lia.
    destruct (IH (start + 1) (recordStreamEntry start 0 0 0 entries)) as (entries' & Hrun & Hsub & Hfree);
      [lia|lia|].
    exists entries'. split; [exact Hrun|].
    pose proof (recordStreamEntry_mono start 0 0 0 entries) as Hstep.
    split; [by etrans|].
    intros id Hid Hnone.
    destruct (decide (id = start)) as [->|Hne].
    + assert (recordStreamEntry start 0 0 0 entries !! start = Some freeEntry) as Hnow.
      { unfold recordStreamEntry. rewrite Hnone. cbn. by rewrite lookup_insert_eq. }
      eapply lookup_weaken; [exact Hnow|exact Hsub].
    + apply Hfree; [lia|].
      unfold recordStreamEntry.
      destruct (entries !! start); [done|]. cbn. by rewrite lookup_insert_ne.
Qed.

Lemma readStreamRows_past_end_witness :
  exists entries',
    readStreamRows 1 2 1 3 10 [] ∅ = Ok ([], entries')
    /\ entries' !! 12 = Some freeEntry.
Proof.
  destruct (readStreamRows_past_end 1 2 1 3 10 ∅) as (entries' & Hrun & _ & Hfree);
    [lia|lia|lia|lia|lia|].
  exists entries'. split; [exact Hrun|]. apply Hfree; [lia|reflexivity].
Defined.

(** ** Classical tables *)

Section WithGoLib.

Context (sc : GoLib) (ObjectString : Object -> string).

(** X12.  A subsection of a classical table takes twenty bytes for every
    entry it announces.  When the input holds them, the lines are consumed
    and every object number of the subsection has an entry afterwards; when
    it does not, the table is refused with an error. *)
Theorem readXRefLines_twenty_bytes_a_line (rounds : nat) (id : Z) (input : list ascii)
    (entries : gmap Z XRefEntry) :
  ((20 * rounds <= length input)%nat ->
     exists entries',
       readXRefLines sc rounds id input entries = Ok (drop (20 * rounds) input, entries')
       /\ entries ⊆ entries'
       /\ (- 2 ^ 63 <= id -> id + Z.of_nat rounds < 2 ^ 63 ->
           forall k, 0 <= k < Z.of_nat rounds -> is_Some (entries' !! (id + k))))
  /\ ((length input < 20 * rounds)%nat ->
      is_Err (readXRefLines sc rounds id input entries)).
Proof.
  revert id input entries. induction rounds as [|rounds IH]; intros id input entries.
  { split; [|lia]. intros _. exists entries. repeat split; [done|]. intros _ _ k Hk. lia. }
  cbn [readXRefLines]. unfold ReadFull.
  destruct (Nat.ltb_spec (length input) 20) as [Hshort|Hlong].
  { split; [lia|]. intros _. by destruct input. }
  bind_simpl.
  match goal with
  | |- context [readXRefLines sc rounds ?id' ?input' ?entries'] =>
      destruct (IH id' input' entries') as [IHok IHerr];
      set (step := entries') in *
  end.
  assert (Hstep : entries ⊆ step) by apply setIfAbsent_mono.
  rewrite length_drop in IHok, IHerr.
  split.
  - intros Hlen. destruct IHok as (entries' & Hrun & Hsub & Hdom); [lia|].
    exists entries'. rewrite Hrun, drop_drop.
    replace (20 * S rounds)%nat with (20 + 20 * rounds)%nat by lia.
    split; [done|]. split; [by etrans|].
    intros Hlo Hhi k Hk. rewrite int64_small in Hdom by lia.
    destruct (decide (k = 0)) as [->|Hk0].
    + rewrite Z.add_0_r. eapply lookup_weaken_is_Some; [|exact Hsub].
      unfold step, setIfAbsent. destruct (entries !! id) eqn:E; [by rewrite E|].
      by rewrite lookup_insert_eq.
    + replace (id + k) with (id + 1 + (k - 1)) by lia. apply Hdom; lia.
  - intros Hlen. apply IHerr. lia.
Qed.

Lemma LastIndex_from_absent (i : Z) (buf sep : list ascii) :
  sep <> [] -> (forall k, take (length sep) (drop k buf) <> sep) ->
  LastIndex_from i buf sep = -1.
Proof.
  intros Hsep. revert i. induction buf as [|b buf IH]; intros i Hno.
  - cbn [LastIndex_from]. by case_decide.
  - cbn [LastIndex_from]. rewrite IH.
    + cbn. case_decide as Heq; [|done]. by destruct (Hno 0%nat).
    + intros k. exact (Hno (S k)).
Qed.

(** X13.  [ParseXRef] looks for the keyword [startxref] in the last 1024
    bytes of the file only: a file without the keyword there is refused,
    wherever else the keyword may stand. *)
Theorem ParseXRef_needs_startxref (file : list ascii) :
  (forall k, take 9 (drop k (drop (length file - 1024) file)) <> bytes_of_string "startxref") ->
  ParseXRef sc ObjectString file = Err (errorString "findStartXRef failed").
Proof.
  intros Hno. unfold ParseXRef, findStartXRef.
  replace (length file - Nat.min 1024 (length file))%nat with (length file - 1024)%nat by lia.
  unfold LastIndex. rewrite LastIndex_from_absent; [done|done|exact Hno].
Qed.

End WithGoLib.

Lemma readXRefLines_twenty_bytes_a_line_witness :
  (exists entries',
      readXRefLines Fixture.lib 1 7 (bytes_of_string "0000000017 00000 n  trailer") ∅
      = Ok (bytes_of_string "trailer", entries')
      /\ is_Some (entries' !! 7))
  /\ is_Err (readXRefLines Fixture.lib 2 7 (bytes_of_string "0000000017 00000 n  trailer") ∅).
Proof.
  destruct (readXRefLines_twenty_bytes_a_line Fixture.lib 1 7
              (bytes_of_string "0000000017 00000 n  trailer") ∅) as [Hok _].
  destruct (readXRefLines_twenty_bytes_a_line Fixture.lib 2 7
              (bytes_of_string "0000000017 00000 n  trailer") ∅) as [_ Herr].
  split.
  - destruct Hok as (entries' & Hrun & _ & Hdom); [simpl; lia|].
    exists entries'. split; [exact Hrun|].
    apply (Hdom ltac:(lia) ltac:(lia) 0). lia.
  - apply Herr. simpl. lia.
Defined.

Lemma ParseXRef_needs_startxref_witness :
  ParseXRef Fixture.lib Fixture.objectString (bytes_of_string "%PDF-1.4 xref")
  = Err (errorString "findStartXRef failed").
Proof.
  apply ParseXRef_needs_startxref. intros k.
  do 14 (destruct k as [|k]; [vm_compute; discriminate|]).
  vm_compute. destruct k; discriminate.
Defined.

End XRefData.

(* ================================================================== *)
(** * The CMap parser: codes and loops *)
(* ================================================================== *)

Module CMapCodes.

Import CMapParser CMapFacts LexerBounds XRefData.

(** ** Codes and their bytes *)

Lemma byteZ_inj (a b : ascii) : byteZ a = byteZ b -> a = b.
Proof.
  unfold byteZ. intros H%N2Z.inj.
  rewrite <- (ascii_N_embedding a), <- (ascii_N_embedding b). by rewrite H.
Qed.

Lemma beValue_inj (a b : list ascii) :
  length a = length b -> beValue a = beValue b -> a = b.
Proof.
  revert b. induction a as [|x a IH] using rev_ind; intros b Hlen Hval.
  - destruct b; [done|discriminate].
  - destruct b as [|y b _] using rev_ind; [rewrite length_app in Hlen; simpl in Hlen; lia|].
    rewrite !length_app in Hlen. cbn [length] in Hlen.
    rewrite !beValue_snoc in Hval.
    pose proof (byteZ_range x). pose proof (byteZ_range y).
    assert (beValue a = beValue b) by lia. assert (byteZ x = byteZ y) by lia.
    f_equal; [apply IH; [lia|done]|]. f_equal. by apply byteZ_inj.
Qed.

(** X14.  [hexToInt] and [intToHex] are inverse to one another on codes of
    at most seven bytes. *)
Theorem intToHex_hexToInt (h : list ascii) (val : Z) (n : nat) :
  ((length h <= 7)%nat -> intToHex (hexToInt h) (length h) = string_of_bytes h)
  /\ ((n <= 7)%nat -> 0 <= val < 256 ^ Z.of_nat n ->
      hexToInt (bytes_of_string (intToHex val n)) = val).
Proof.
  split.
  - intros Hlen. destruct (hexToInt_value h Hlen) as [-> Hrange].
    unfold intToHex. f_equal. apply beValue_inj.
    + apply intToHex_loop_length.
    + rewrite intToHex_value. by apply Z.mod_small.
  - intros Hn Hval. unfold intToHex, bytes_of_string, string_of_bytes.
    rewrite list_ascii_of_string_of_list_ascii.
    destruct (hexToInt_value (intToHex_loop n val [])) as [-> _].
    + by rewrite intToHex_loop_length.
    + rewrite intToHex_value. by apply Z.mod_small.
Qed.

Lemma intToHex_hexToInt_witness :
  intToHex (hexToInt (Fixture.bytes [0; 0x41])) 2 = string_of_bytes (Fixture.bytes [0; 0x41])
  /\ hexToInt (bytes_of_string (intToHex 0x41 2)) = 0x41.
Proof.
  destruct (intToHex_hexToInt (Fixture.bytes [0; 0x41]) 0x41 2) as [H1 H2].
  split; [apply H1; simpl; lia | apply H2; [lia|vm_compute; split; [discriminate|reflexivity]]].
Defined.

(** ** UTF-16 *)

(** Text of one-byte characters in UTF-16BE: a zero byte before each. *)
Definition utf16be (cs : list ascii) : list ascii :=
  flat_map (fun c => [Ascii.zero; c]) cs.

Lemma utf16be_length (cs : list ascii) : length (utf16be cs) = (2 * length cs)%nat.
Proof.
  induction cs as [|c cs IH]; [done|].
  cbn [utf16be flat_map app length]. fold (utf16be cs). rewrite IH. lia.
Qed.

Lemma byte_byteZ (c : ascii) : byte (byteZ c) = c.
Proof.
  unfold byte, byteZ. pose proof (byteZ_range c) as Hc. unfold byteZ in Hc.
  rewrite Z.mod_small by lia. rewrite N2Z.id. apply ascii_N_embedding.
Qed.

(** X15.  [decodeUTF16BE] returns a byte sequence of odd length as it
    is, and decodes ASCII text written in UTF-16BE (a zero byte before
    every character) to that text. *)
Theorem decodeUTF16BE_ascii (b cs : list ascii) :
  (Nat.Odd (length b) -> decodeUTF16BE b = string_of_bytes b)
  /\ (forallb (fun c => byteZ c <? 0x80) cs = true ->
      decodeUTF16BE (utf16be cs) = string_of_bytes cs).
Proof.
  split.
  - intros [k Hk]. unfold decodeUTF16BE. rewrite Hk.
    replace ((2 * k + 1) mod 2)%nat with 1%nat; [done|].
    rewrite Nat.add_comm, Nat.mul_comm, Nat.Div0.mod_add. done.
  - intros Hcs. unfold decodeUTF16BE. rewrite utf16be_length.
    rewrite Nat.mul_comm, Nat.Div0.mod_mul. cbn [Nat.eqb negb]. f_equal.
    induction cs as [|c cs IH]; [done|].
    cbn [forallb] in Hcs. apply andb_true_iff in Hcs as [Hc Hcs].
    apply Z.ltb_lt in Hc. pose proof (byteZ_range c) as Hr.
    cbn [utf16be flat_map app u16s]. fold (utf16be cs).
    change (byteZ Ascii.zero) with 0. rewrite Z.shiftl_0_l, Z.lor_0_l.
    cbn [utf16Decode].
    destruct (Z.ltb_spec (byteZ c) 0xd800) as [_|]; [|lia]. cbn [orb flat_map].
    rewrite IH by done. f_equal. unfold utf8.
    destruct (Z.ltb_spec (byteZ c) 0) as [|_]; [lia|].
    destruct (Z.ltb_spec 0x10FFFF (byteZ c)) as [|_]; [lia|].
    destruct (Z.leb_spec 0xd800 (byteZ c)) as [|_]; [lia|]. cbn [orb andb].
    destruct (Z.ltb_spec (byteZ c) 0x80) as [_|]; [|lia].
    cbn [app]. by rewrite byte_byteZ.
Qed.

Lemma decodeUTF16BE_ascii_witness :
  decodeUTF16BE (bytes_of_string "abc") = "abc"%string
  /\ decodeUTF16BE (utf16be (bytes_of_string "Hi")) = "Hi"%string.
Proof.
  destruct (decodeUTF16BE_ascii (bytes_of_string "abc") (bytes_of_string "Hi")) as [H1 H2].
  split; [apply H1; exists 1%nat; reflexivity | apply H2; reflexivity].
Defined.

(** ** The array form of a bfrange entry *)

Lemma bfrangeArray_lookup (s e : Z) (n : nat) (arr : list Object) (i0 : Z)
    (cmap : CMap) (c : Z) :
  (n <= 7)%nat -> 0 <= s -> 0 <= i0 ->
  s + i0 + Z.of_nat (length arr) <= 256 ^ Z.of_nat n ->
  0 <= c < 256 ^ Z.of_nat n ->
  Map (bfrangeArray s e n i0 arr cmap) !! intToHex c n
  = match (if decide (s + i0 <= c /\ c <= e) then arr !! Z.to_nat (c - s - i0) else None) with
    | Some (HexStringObject h) => Some (decodeUTF16BE h)
    | _ => Map cmap !! intToHex c n
    end.
Proof.
  intros Hn Hs. revert i0 cmap.
  assert (256 ^ Z.of_nat n <= 256 ^ 7) as Hpow by (apply Z.pow_le_mono_r; lia).
  induction arr as [|elem arr IH]; intros i0 cmap Hi0 Hlen Hc.
  - cbn [bfrangeArray]. case_decide; by rewrite ?lookup_nil.
  - cbn [bfrangeArray length] in *. rewrite IH by lia. clear IH.
    rewrite (int64_small (s + i0)) by lia.
    destruct (decide (c = s + i0)) as [->|Hne].
    + rewrite decide_False by lia.
      replace (s + i0 - s - i0) with 0 by lia. cbn [Z.to_nat lookup list_lookup].
      case_decide as Hin.
      * destruct elem; try done. destruct (Z.leb_spec (s + i0) e) as [_|]; [|lia].
        cbn [setMap Map]. by rewrite lookup_insert_eq.
      * destruct elem; try done. destruct (Z.leb_spec (s + i0) e) as [|_]; [lia|]. done.
    + assert (Hkeep : Map (match elem with
                           | HexStringObject hexStr =>
                               if s + i0 <=? e
                               then setMap cmap (intToHex (s + i0) n) (decodeUTF16BE hexStr)
                               else cmap
                           | _ => cmap
                           end) !! intToHex c n = Map cmap !! intToHex c n).
      { destruct elem; try done. destruct (s + i0 <=? e); [|done].
        cbn [setMap Map]. rewrite lookup_insert_ne; [done|].
        intros Heq. apply intToHex_inj in Heq; lia. }
      case_decide as Hin1; case_decide as Hin2; try lia.
      * replace (Z.to_nat (c - s - i0)) with (S (Z.to_nat (c - s - (i0 + 1)))) by lia.
        cbn [lookup list_lookup]. by rewrite Hkeep.
      * exact Hkeep.
Qed.

(** X16.  The array form of a bfrange entry, [<start> <end> [<d0> <d1> ...]],
    for codes that fit the key: the code [start + i] is mapped to the
    element [di] decoded as UTF-16BE when the element is a hexadecimal
    string and the code does not exceed [end]; an element past [end]
    changes nothing. *)
Theorem bfrange_array_mapping (startHex endHex : list ascii) (arr : list Object)
    (cmap : CMap) :
  (length startHex <= 7)%nat ->
  hexToInt startHex + Z.of_nat (length arr) <= 256 ^ Z.of_nat (length startHex) ->
  exists cmap',
    bfrangeEntry (HexStringObject startHex) (HexStringObject endHex)
      (ArrayObject arr) cmap = Ok cmap'
    /\ forall (i : nat) (h : list ascii),
         arr !! i = Some (HexStringObject h) ->
         let key := intToHex (hexToInt startHex + Z.of_nat i) (length startHex) in
         (hexToInt startHex + Z.of_nat i <= hexToInt endHex ->
            Map cmap' !! key = Some (decodeUTF16BE h))
         /\ (hexToInt endHex < hexToInt startHex + Z.of_nat i ->
            Map cmap' !! key = Map cmap !! key).
Proof.
  intros Hlen Hfit. destruct (hexToInt_value startHex Hlen) as [Hs Hrange].
  assert (0 <= hexToInt startHex) as Hs0 by lia.
  eexists. split; [reflexivity|]. intros i h Hi key.
  pose proof (lookup_lt_Some _ _ _ Hi) as Hlt.
  unfold key. split; intros Hend.
  - rewrite bfrangeArray_lookup by lia. rewrite decide_True by lia.
    replace (Z.to_nat (hexToInt startHex + Z.of_nat i - hexToInt startHex - 0)) with i by lia.
    by rewrite Hi.
  - rewrite bfrangeArray_lookup by lia. by rewrite decide_False by lia.
Qed.

Lemma bfrange_array_mapping_witness :
  exists cmap',
    bfrangeEntry (HexStringObject (Fixture.bytes [0x41])) (HexStringObject (Fixture.bytes [0x41]))
      (ArrayObject [HexStringObject (Fixture.bytes [0; 0x61]);
                    HexStringObject (Fixture.bytes [0; 0x62])]) NewCMap = Ok cmap'
    /\ Map cmap' !! string_of_bytes (Fixture.bytes [0x41]) = Some "a"%string
    /\ Map cmap' !! string_of_bytes (Fixture.bytes [0x42]) = None.
Proof.
  destruct (bfrange_array_mapping (Fixture.bytes [0x41]) (Fixture.bytes [0x41])
              [HexStringObject (Fixture.bytes [0; 0x61]);
               HexStringObject (Fixture.bytes [0; 0x62])] NewCMap)
    as (cmap' & Hrun & Hmap); [simpl; lia|vm_compute; discriminate|].
  exists cmap'. split; [exact Hrun|]. split.
  - destruct (Hmap 0%nat _ eq_refl) as [H0 _]. apply H0. vm_compute. discriminate.
  - destruct (Hmap 1%nat _ eq_refl) as [_ H1]. apply H1. vm_compute. reflexivity.
Defined.

(** ** The loop of ParseCMap *)

Section WithGoLib.

Context (sc : GoLib).

(** A byte at which [ReadObject] returns the error of an unexpected
    token: it begins none of the objects. *)
Definition refused (b : ascii) : bool :=
  negb (Lexer.isWhitespace b
        || existsb (Ascii.eqb b) (bytes_of_string "/(<[%'")
        || Ascii.eqb b "034"
        || Lexer.isDigit b || Ascii.eqb b "-" || Ascii.eqb b "+" || Ascii.eqb b "."
        || Lexer.isAlpha b).

Lemma refused_dispatch (b : ascii) :
  refused b = true ->
  Lexer.isWhitespace b = false
  /\ Ascii.eqb b "/" = false /\ Ascii.eqb b "(" = false /\ Ascii.eqb b "<" = false
  /\ Ascii.eqb b "[" = false /\ Ascii.eqb b "%" = false
  /\ Ascii.eqb b "'" || Ascii.eqb b "034" = false
  /\ Lexer.isDigit b || Ascii.eqb b "-" || Ascii.eqb b "+" || Ascii.eqb b "." = false
  /\ Lexer.isAlpha b = false.
Proof.
  destruct b as [[] [] [] [] [] [] [] []]; vm_compute; intros H; repeat split; congruence.
Qed.

Lemma refused_again (fuel : nat) (b : ascii) (rest : list ascii) :
  refused b = true ->
  Lexer.ReadObject_fuel sc (S fuel) (b :: rest) = Err (errorString "unexpected token")
  /\ Lexer.unreadAfterError_fuel sc (S fuel) (b :: rest) = b :: rest.
Proof.
  intros Hb. destruct (refused_dispatch b Hb) as (Hws & E1 & E2 & E3 & E4 & E5 & E6 & E7 & E8).
  cbn [Lexer.ReadObject_fuel Lexer.unreadAfterError_fuel Lexer.skipWhitespace].
  by rewrite Hws, E1, E2, E3, E4, E5, E6, E7, E8.
Qed.

(** X17.  [ParseCMap] skips an error of the lexer that is not [io.EOF]
    and reads again.  In front of a byte that begins no object (a closing
    brace, say) the lexer has consumed nothing when it returns its error,
    so the next round meets the same byte: the loop never ends.  In the
    model the counter runs out, however large it is. *)
Theorem ParseCMap_loop_never_returns (fuel : nat) (b : ascii) (rest : list ascii)
    (cmap : CMap) :
  refused b = true ->
  Lexer.ReadObject sc (b :: rest) = Err (errorString "unexpected token")
  /\ ParseCMap_loop sc fuel (b :: rest) cmap = OutOfFuel.
Proof.
  intros Hb.
  assert (Hread : Lexer.ReadObject sc (b :: rest) = Err (errorString "unexpected token")).
  { unfold Lexer.ReadObject. rewrite Nat.add_1_r. by apply refused_again. }
  split; [exact Hread|].
  induction fuel as [|fuel IH]; [done|].
  cbn [ParseCMap_loop]. rewrite Hread.
  unfold Lexer.unreadAfterError. rewrite Nat.add_1_r.
  by rewrite (proj2 (refused_again _ b rest Hb)).
Qed.

End WithGoLib.

(** After an error that consumed input the loop reads on behind it: the
    dictionary below fails at its key [1], the name after it is read as
    the next object, and the end of the input ends the loop. *)
Example ParseCMap_reads_on_after_error :
  Lexer.ReadObject Fixture.lib (bytes_of_string "<< 1 /a")
    = Err (errorString "dictionary key must be a name")
  /\ Lexer.unreadAfterError Fixture.lib (bytes_of_string "<< 1 /a") = bytes_of_string "/a"
  /\ ParseCMap Fixture.lib (bytes_of_string "<< 1 /a") = Ok NewCMap.
Proof. by vm_compute. Qed.

Lemma ParseCMap_loop_never_returns_witness :
  Lexer.ReadObject Fixture.lib (bytes_of_string "} def") = Err (errorString "unexpected token")
  /\ ParseCMap_loop Fixture.lib 1000 (bytes_of_string "} def") NewCMap = OutOfFuel.
Proof.
  apply (ParseCMap_loop_never_returns Fixture.lib 1000 "}"%char (bytes_of_string " def") NewCMap).
  reflexivity.
Defined.

End CMapCodes.

(* ================================================================== *)
(** * The file key and the ciphers *)
(* ================================================================== *)

Module KeyFacts.

Import Crypto CryptoKeys CryptoFacts.

(** ** The password and the file key *)

(** X18.  [padPassword] returns 32 bytes: the password followed by the
    padding string, cut after 32 bytes. *)
Theorem padPassword_spec (password : list ascii) :
  padPassword password = take 32 (password ++ paddingString)
  /\ length (padPassword password) = 32%nat.
Proof.
  assert (Hpad : padPassword password = take 32 (password ++ paddingString)).
  { unfold padPassword.
    destruct (Nat.ltb_spec (length password) 32) as [Hshort|Hlong].
    - assert (Hpadded : copy (make 32) password
                        = password ++ make (32 - length password)).
      { unfold copy. change (length (make 32)) with 32%nat.
        rewrite (firstn_all2 (n := 32) password) by lia. f_equal.
        unfold make. generalize 32%nat. clear.
        induction password as [|c p IH]; intros [|n]; try done. cbn. apply IH. }
      rewrite Hpadded, take_app_length, drop_app_length.
      unfold copy. unfold make at 1. rewrite repeat_length.
      change (length paddingString) with 32%nat.
      rewrite skipn_all2 by (unfold make; rewrite repeat_length; lia).
      rewrite app_nil_r, take_app, (take_ge password) by lia. done.
    - unfold copy. change (length (make 32)) with 32%nat.
      rewrite skipn_all2 by (simpl; lia). rewrite app_nil_r.
      rewrite take_app. replace (32 - length password)%nat with 0%nat by lia.
      by rewrite take_0, app_nil_r. }
  split; [exact Hpad|]. rewrite Hpad, length_take, length_app.
  change (length paddingString) with 32%nat. lia.
Qed.

Lemma rehash_ok (rounds : nat) (keyLen : Z) (digest : list ascii) :
  0 <= keyLen <= 16 -> length digest = 16%nat ->
  exists digest', rehash rounds keyLen digest = Ok digest' /\ length digest' = 16%nat.
Proof.
  intros Hk. revert digest. induction rounds as [|rounds IH]; intros digest Hlen.
  - by exists digest.
  - cbn [rehash]. unfold sliceTo. rewrite Hlen.
    destruct (Z.ltb_spec keyLen 0) as [|_]; [lia|].
    destruct (Z.ltb_spec (Z.of_nat 16) keyLen) as [|_]; [lia|].
    cbn [orb mbind Result_bind Go.bind]. apply IH, MD5_Sum_length.
Qed.

Lemma computeObjectKey_length (h : EncryptionHandler) (objNum genNum : Z) :
  length (computeObjectKey h objNum genNum) = Nat.min (length (EncryptKey h) + 5) 16.
Proof.
  unfold computeObjectKey. rewrite length_take, MD5_Sum_length.
  destruct (Nat.ltb_spec 16 (length (EncryptKey h) + 5)); lia.
Qed.

(** X19.  [NewEncryptionHandler] derives the file key for the empty
    password.  For a key length of 0 to 135 bits the key has [Length / 8]
    bytes, and the key of every object has five bytes more, 16 at most.  A
    longer key makes the slice expression [digest[:keyLen]] panic: the
    digest has 16 bytes. *)
Theorem NewEncryptionHandler_key_length (d : EncryptDict.t) (fileID : list ascii) :
  (0 <= EncryptDict.Length d < 136 ->
     exists h,
       NewEncryptionHandler (Some d) fileID = Ok h
       /\ Z.of_nat (length (EncryptKey h)) = EncryptDict.Length d / 8
       /\ V h = EncryptDict.V d /\ R h = EncryptDict.R d
       /\ forall objNum genNum,
            Z.of_nat (length (computeObjectKey h objNum genNum))
            = Z.min (EncryptDict.Length d / 8 + 5) 16)
  /\ (136 <= EncryptDict.Length d -> NewEncryptionHandler (Some d) fileID = Panic).
Proof.
  unfold NewEncryptionHandler, computeEncryptionKey.
  cbn [Dict FileID R EncryptKey V].
  set (message := _ ++ _). set (keyLen := Z.quot (EncryptDict.Length d) 8).
  split.
  - intros Hlen.
    assert (Hquot : keyLen = EncryptDict.Length d / 8) by (apply Z.quot_div_nonneg; lia).
    assert (0 <= keyLen <= 16) as Hk.
    { rewrite Hquot. split; [apply Z.div_pos; lia|].
      assert (EncryptDict.Length d / 8 < 17) by (apply Z.div_lt_upper_bound; lia). lia. }
    assert (exists digest,
              (if 3 <=? EncryptDict.R d then rehash 50 keyLen (MD5.Sum message)
               else Ok (MD5.Sum message)) = Ok digest /\ length digest = 16%nat)
      as (digest & -> & Hdigest).
    { destruct (3 <=? EncryptDict.R d).
      - apply rehash_ok; [done|apply MD5_Sum_length].
      - eexists. split; [reflexivity|apply MD5_Sum_length]. }
    cbn [mbind Result_bind Go.bind]. unfold sliceTo. rewrite Hdigest.
    destruct (Z.ltb_spec keyLen 0) as [|_]; [lia|].
    destruct (Z.ltb_spec (Z.of_nat 16) keyLen) as [|_]; [lia|].
    cbn [orb mbind Result_bind Go.bind].
    eexists. split; [reflexivity|]. cbn [EncryptKey V R].
    assert (Hkey : Z.of_nat (length (take (Z.to_nat keyLen) digest)) = keyLen)
      by (rewrite length_take; lia).
    repeat split; [lia|].
    intros objNum genNum. rewrite computeObjectKey_length. cbn [EncryptKey]. lia.
  - intros Hlen.
    assert (17 <= keyLen) as Hk.
    { unfold keyLen. rewrite Z.quot_div_nonneg by lia. apply Z.div_le_lower_bound; lia. }
    assert (Hslice : forall digest, length digest = 16%nat -> sliceTo digest keyLen = Panic).
    { intros digest Hdigest. unfold sliceTo. rewrite Hdigest.
      destruct (Z.ltb_spec (Z.of_nat 16) keyLen) as [_|]; [|lia]. by rewrite orb_true_r. }
    destruct (3 <=? EncryptDict.R d).
    + cbn [rehash]. by rewrite Hslice by apply MD5_Sum_length.
    + cbn [mbind Result_bind Go.bind]. by rewrite Hslice by apply MD5_Sum_length.
Qed.

(** ** Decryption *)

Section WithCiphers.

Context (cs : Ciphers).

(** X20.  Under RC4 ([V] 1 or 2) [Decrypt] never returns an error: the
    key of an object has 5 to 16 bytes, which [rc4.NewCipher] accepts. *)
Theorem Decrypt_RC4_never_fails (h : EncryptionHandler) (data : list ascii)
    (objNum genNum : Z) :
  V h = 1 \/ V h = 2 ->
  exists out, Decrypt cs h data objNum genNum = Ok out.
Proof.
  intros HV. unfold Decrypt.
  destruct (length data =? 0)%nat; [by eexists|].
  replace ((V h =? 1) || (V h =? 2)) with true
    by (destruct HV as [-> | ->]; reflexivity).
  unfold decryptRC4. destruct (length data =? 0)%nat; [by eexists|].
  rewrite computeObjectKey_length.
  destruct (Nat.ltb_spec (Nat.min (length (EncryptKey h) + 5) 16) 1) as [|_]; [lia|].
  destruct (Nat.ltb_spec 256 (Nat.min (length (EncryptKey h) + 5) 16)) as [|_]; [lia|].
  by eexists.
Qed.

(** X21.  [decryptAES] on data of 16 bytes or more.  With a file key
    shorter than 11 bytes the key of the object is shorter than 16 bytes
    and [aes.NewCipher] refuses it; with a longer file key the data after
    the initialization vector are decrypted when they are whole blocks of
    16 bytes, and [CryptBlocks] panics when they are not. *)
Theorem decryptAES_outcomes (h : EncryptionHandler) (data : list ascii) (objNum genNum : Z) :
  (16 <= length data)%nat ->
  ((length (EncryptKey h) < 11)%nat ->
     decryptAES cs h data objNum genNum = Err (errorString "failed to create AES cipher"))
  /\ ((11 <= length (EncryptKey h))%nat ->
      decryptAES cs h data objNum genNum
      = if (length data mod 16 =? 0)%nat
        then Ok (removePadding
                   (aesCBCDecrypt cs (computeObjectKey h objNum genNum)
                      (take 16 data) (drop 16 data)))
        else Panic).
Proof.
  intros Hdata. unfold decryptAES.
  destruct (Nat.ltb_spec (length data) 16) as [|_]; [lia|].
  rewrite computeObjectKey_length, length_drop.
  split; intros Hkey.
  - replace (Nat.min (length (EncryptKey h) + 5) 16) with (length (EncryptKey h) + 5)%nat by lia.
    destruct (Nat.eqb_spec (length (EncryptKey h) + 5) 16) as [|_]; [lia|].
    destruct (Nat.eqb_spec (length (EncryptKey h) + 5) 24) as [|_]; [lia|].
    destruct (Nat.eqb_spec (length (EncryptKey h) + 5) 32) as [|_]; [lia|]. done.
  - replace (Nat.min (length (EncryptKey h) + 5) 16) with 16%nat by lia.
    cbn [Nat.eqb orb negb].
    replace ((length data - 16) mod 16)%nat with (length data mod 16)%nat;
      [by destruct (length data mod 16 =? 0)%nat|].
    replace (length data) with ((length data - 16) + 1 * 16)%nat at 1 by lia.
    by rewrite Nat.Div0.mod_add.
Qed.

End WithCiphers.

Lemma byteZ_small (n : Z) : 0 <= n < 256 -> byteZ (byte n) = n.
Proof. intros Hn. rewrite CMapFacts.byteZ_byte. by apply Z.mod_small. Qed.

(** X22.  [removePadding] leaves a prefix of the data and removes at most
    16 bytes; it removes a PKCS7 padding, [n] bytes of value [n] for [n]
    from 1 to 16, whatever the data before it. *)
Theorem removePadding_spec (data : list ascii) (n : Z) :
  (exists k, (k <= 16)%nat /\ removePadding data = take (length data - k) data)
  /\ (1 <= n <= 16 -> removePadding (data ++ repeat (byte n) (Z.to_nat n)) = data).
Proof.
  split.
  - unfold removePadding. destruct (last data) as [lastByte|].
    + set (paddingLen := Z.to_nat (byteZ lastByte)).
      destruct (Nat.eqb_spec paddingLen 0); cbn [orb];
        [exists 0%nat; split; [lia|]; by rewrite Nat.sub_0_r, firstn_all|].
      destruct (Nat.ltb_spec 16 paddingLen); cbn [orb];
        [exists 0%nat; split; [lia|]; by rewrite Nat.sub_0_r, firstn_all|].
      destruct (length data <? paddingLen)%nat;
        [exists 0%nat; split; [lia|]; by rewrite Nat.sub_0_r, firstn_all|].
      destruct (forallb _ _); [by exists paddingLen|].
      exists 0%nat. split; [lia|]. by rewrite Nat.sub_0_r, firstn_all.
    + exists 0%nat. split; [lia|]. by rewrite Nat.sub_0_r, firstn_all.
  - intros Hn. unfold removePadding.
    set (m := Z.to_nat n). assert (m = S (Nat.pred m)) as Hm by lia.
    assert (Hlast : last (data ++ repeat (byte n) m) = Some (byte n)).
    { rewrite Hm. cbn [repeat]. rewrite repeat_cons, app_assoc. apply last_snoc. }
    rewrite Hlast, byteZ_small by lia. fold m.
    rewrite length_app, repeat_length.
    destruct (Nat.eqb_spec m 0) as [|_]; [lia|].
    destruct (Nat.ltb_spec 16 m) as [|_]; [lia|].
    destruct (Nat.ltb_spec (length data + m) m) as [|_]; [lia|]. cbn [orb].
    replace (length data + m - m)%nat with (length data) by lia.
    rewrite drop_app_length, take_app_length.
    replace (forallb (Ascii.eqb (byte n)) (repeat (byte n) m)) with true; [done|].
    symmetry. apply forallb_forall. intros x Hx%repeat_spec. subst x. apply Ascii.eqb_refl.
Qed.

Lemma Decrypt_RC4_never_fails_witness :
  exists out,
    Decrypt Fixture.ciphers
      {| Dict := Dict aesHandler; FileID := []; EncryptKey := bytes_of_string "abcde";
         V := 2; R := 3 |} (bytes_of_string "data") 4 0 = Ok out.
Proof. apply Decrypt_RC4_never_fails. by right. Defined.

(** A dictionary for RC4 with a 40-bit key, and one that asks for 256
    bits. *)
Definition rc4Dict (bits : Z) : EncryptDict.t :=
  {| EncryptDict.Filter := "/Standard"; EncryptDict.V := 1; EncryptDict.R := 2;
     EncryptDict.O := repeat "o"%char 32; EncryptDict.U := repeat "u"%char 32;
     EncryptDict.P := -4; EncryptDict.Length := bits; EncryptDict.EncryptMetadata := true |}.

Lemma NewEncryptionHandler_key_length_witness :
  (exists h,
      NewEncryptionHandler (Some (rc4Dict 40)) (bytes_of_string "id") = Ok h
      /\ Z.of_nat (length (EncryptKey h)) = 5
      /\ Z.of_nat (length (computeObjectKey h 4 0)) = 10)
  /\ NewEncryptionHandler (Some (rc4Dict 256)) (bytes_of_string "id") = Panic.
Proof.
  split.
  - destruct (proj1 (NewEncryptionHandler_key_length (rc4Dict 40) (bytes_of_string "id")))
      as (h & Hrun & Hkey & _ & _ & Hobj); [simpl; lia|].
    exists h. split; [exact Hrun|]. split; [exact Hkey|]. exact (Hobj 4 0).
  - apply (proj2 (NewEncryptionHandler_key_length (rc4Dict 256) (bytes_of_string "id"))).
    simpl. lia.
Defined.

Lemma decryptAES_outcomes_witness :
  decryptAES Fixture.ciphers
    {| Dict := Dict aesHandler; FileID := []; EncryptKey := bytes_of_string "abcde";
       V := 4; R := 4 |} (repeat "x"%char 32) 4 0
  = Err (errorString "failed to create AES cipher")
  /\ decryptAES Fixture.ciphers aesHandler (repeat "x"%char 17) 4 0 = Panic.
Proof.
  split.
  - apply (proj1 (decryptAES_outcomes Fixture.ciphers
                    {| Dict := Dict aesHandler; FileID := []; EncryptKey := bytes_of_string "abcde";
                       V := 4; R := 4 |} (repeat "x"%char 32) 4 0 ltac:(simpl; lia))).
    simpl. lia.
  - apply (proj2 (decryptAES_outcomes Fixture.ciphers aesHandler (repeat "x"%char 17) 4 0
                    ltac:(simpl; lia))).
    simpl. lia.
Defined.

Lemma removePadding_spec_witness :
  removePadding (bytes_of_string "ab" ++ repeat (byte 2) 2) = bytes_of_string "ab".
Proof. apply (proj2 (removePadding_spec (bytes_of_string "ab") 2)). lia. Defined.

End KeyFacts.

(* ================================================================== *)
(** * The document: pages and encrypted objects *)
(* ================================================================== *)

Module DocumentFacts.

Import Pages PagesFacts Document.

Section WithObjectString.

Context (ObjectString : Object -> string).
Context (r : Reader).

(** A dictionary of type [/Page]. *)
Definition isPage (page : gmap string Object) : Prop :=
  exists nodeType, page !! "/Type" = Some nodeType /\ ObjectString nodeType = "/Page"%string.

(** What the walk does with an index below the number of leaves: it
    finds a page. *)
Definition walksTo (node : gmap string Object) (n : Z) : Prop :=
  exists fuel0, forall fuel idx,
    (fuel0 <= fuel)%nat -> 0 <= idx < n -> idx < 2 ^ 63 ->
    exists page, findPage ObjectString fuel r node idx = Ok (Some page, 0) /\ isPage page.

Definition kidsWalkTo (kids : list Object) (n : Z) : Prop :=
  exists fuel0, forall fuel idx,
    (fuel0 <= fuel)%nat -> 0 <= idx < n -> idx < 2 ^ 63 ->
    exists page,
      findPage_kids (findPage ObjectString fuel r) r kids idx = Ok (Some page, 0)
      /\ isPage page.

Lemma findPage_below_leaves (node : gmap string Object) (n : Z) :
  PageTree ObjectString r countAccurate node n -> walksTo node n.
Proof.
  revert node n.
  apply (PageTree_kids_ind ObjectString r countAccurate walksTo kidsWalkTo).
  - (* a leaf *)
    intros node nodeType Htype Hpage.
    exists 1%nat. intros [|fuel] idx Hfuel Hidx Hint; [lia|].
    exists node. split; [|by exists nodeType].
    cbn [findPage]. rewrite Htype, Hpage. cbn [String.eqb Ascii.eqb Bool.eqb].
    assert (idx = 0) as -> by lia. done.
  - (* an inner node *)
    intros node nodeType kidsObj kids n Htype Hpage Hkids Hres _ (fuel0 & IH).
    exists (S fuel0). intros [|fuel] idx Hfuel Hidx Hint; [lia|].
    cbn [findPage]. rewrite Htype.
    destruct (String.eqb_spec (ObjectString nodeType) "/Page"); [done|].
    rewrite Hkids, Hres. cbn [mbind Result_bind Go.bind].
    apply IH; [lia|done|done].
  - (* no kid *)
    exists 0%nat. intros fuel idx _ Hidx. lia.
  - (* a kid and the kids after it *)
    intros kidRef kid kids n m Hres Hkid (fuel1 & IHkid) Hcount _ (fuel2 & IHkids).
    apply findPage_past_leaves in Hkid as (Hn & fuel3 & Hpast).
    exists (Nat.max fuel1 (Nat.max fuel2 fuel3)). intros fuel idx Hfuel Hidx Hint.
    assert (Hdescend :
              exists page,
                ('(found, targetIndex) ← findPage ObjectString fuel r kid idx;
                 match found with
                 | Some _ => Ok (found, targetIndex)
                 | None => findPage_kids (findPage ObjectString fuel r) r kids targetIndex
                 end) = Ok (Some page, 0) /\ isPage page).
    { destruct (Z.lt_ge_cases idx n) as [Hlt|Hge].
      - destruct (IHkid fuel idx) as (page & Hrun & Hpage); [lia|lia|lia|].
        exists page. by rewrite Hrun.
      - rewrite Hpast by lia. cbn [mbind Result_bind Go.bind]. apply IHkids; lia. }
    cbn [findPage_kids]. rewrite Hres. cbn [mbind Result_bind Go.bind].
    destruct (kid !! "/Count") as [countObj|] eqn:Hc; [|exact Hdescend].
    destruct countObj; try exact Hdescend.
    rewrite (Hcount _ Hc).
    destruct (Z.ltb_spec idx n) as [Hlt|Hge]; [exact Hdescend|].
    rewrite int64_id by lia. apply IHkids; lia.
Qed.

(** The root of the page tree with an accurate [/Count] of its own. *)
Definition PagesRootCounted (n : Z) : Prop :=
  exists catDict rootPagesDict count,
    resolveKey r (XRef.Trailer (xref r)) "/Root" = Ok (Some (DictionaryObject catDict))
    /\ resolveKey r catDict "/Pages" = Ok (Some (DictionaryObject rootPagesDict))
    /\ PageTree ObjectString r countAccurate rootPagesDict n
    /\ rootPagesDict !! "/Count" = Some (NumberObject count)
    /\ float64_to_int count = n.

(** X23.  In a document whose page tree is well formed and whose [/Count]
    entries are accurate, the root included, [NumPages] is the number of
    pages, and [GetPage] returns a dictionary of type [/Page] for every
    index from 0 below [NumPages]. *)
Theorem NumPages_GetPage_agree (n : Z) :
  PagesRootCounted n ->
  NumPages r = Ok n
  /\ exists fuel0, forall fuel pageIndex,
       (fuel0 <= fuel)%nat -> 0 <= pageIndex < n -> pageIndex < 2 ^ 63 ->
       exists page, GetPage ObjectString fuel r pageIndex = Ok (Some page) /\ isPage page.
Proof.
  intros (catDict & rootPagesDict & count & Hroot & Hpages & Htree & Hcount & Hn).
  split.
  - unfold NumPages. rewrite Hroot. cbn [mbind Result_bind Go.bind].
    rewrite Hpages. cbn [mbind Result_bind Go.bind]. by rewrite Hcount, Hn.
  - apply findPage_below_leaves in Htree as (fuel0 & Hwalk).
    exists fuel0. intros fuel pageIndex Hfuel Hidx Hint.
    destruct (Hwalk fuel pageIndex Hfuel Hidx Hint) as (page & Hrun & Hpage).
    exists page. split; [|done]. unfold GetPage.
    rewrite Hroot. cbn [mbind Result_bind Go.bind].
    rewrite Hpages. cbn [mbind Result_bind Go.bind]. by rewrite Hrun.
Qed.

End WithObjectString.

Lemma NumPages_GetPage_agree_witness :
  NumPages (sampleReader 1) = Ok 2
  /\ exists fuel0, forall fuel,
       (fuel0 <= fuel)%nat ->
       exists page,
         GetPage Fixture.objectString fuel (sampleReader 1) 1 = Ok (Some page)
         /\ isPage Fixture.objectString page.
Proof.
  destruct (NumPages_GetPage_agree Fixture.objectString (sampleReader 1) 2)
    as (Hnum & fuel0 & Hget).
  - exists catalogDict, rootDict, 2%float.
    split; [reflexivity|]. split; [reflexivity|]. split; [|split; reflexivity].
    destruct (sampleReader_tree 1 countAccurate) as (c & p & Hc & Hp & Htree).
    + intros countObj Hcount.
      assert (Hone : innerDict 1 !! "/Count" = Some (NumberObject 1%float))
        by (vm_compute; reflexivity).
      rewrite Hone in Hcount. injection Hcount as <-. vm_compute. reflexivity.
    + intros countObj Hcount.
      assert (Hnone : pageDict !! "/Count" = None) by (vm_compute; reflexivity).
      rewrite Hnone in Hcount. discriminate.
    + assert (Hc' : resolveKey (sampleReader 1) (XRef.Trailer (xref (sampleReader 1))) "/Root"
                    = Ok (Some (DictionaryObject catalogDict))) by reflexivity.
      rewrite Hc' in Hc. injection Hc as <-.
      assert (Hp' : resolveKey (sampleReader 1) catalogDict "/Pages"
                    = Ok (Some (DictionaryObject rootDict))) by reflexivity.
      rewrite Hp' in Hp. injection Hp as <-. exact Htree.
  - split; [exact Hnum|]. exists fuel0. intros fuel Hfuel. apply Hget; [done|lia|lia].
Defined.

(** ** Decryption of objects *)

Lemma collect_lookup (results : gmap string (Result Object)) (d : gmap string Object) :
  collect results = Ok d -> forall key, results !! key = Ok <$> d !! key.
Proof.
  unfold collect. revert d.
  apply (map_fold_weak_ind
           (fun res m => forall d, res = Ok d -> forall key, m !! key = Ok <$> d !! key)).
  - intros d [= <-] key. by rewrite !lookup_empty.
  - intros i x m res Hfresh IH d Hd key.
    destruct res as [d0| | |]; try discriminate.
    destruct x as [val| | |]; try discriminate.
    cbn [mbind Result_bind Go.bind] in Hd. injection Hd as <-.
    destruct (decide (key = i)) as [->|Hne].
    + by rewrite !lookup_insert_eq.
    + rewrite !lookup_insert_ne by done. by apply IH.
Qed.

(** An object without bytes to decrypt. *)
Definition plain (obj : Object) : Prop :=
  match obj with
  | StringObject _ | HexStringObject _ | ArrayObject _ | DictionaryObject _ => False
  | _ => True
  end.

(** X24.  [decryptObject] on a dictionary keeps the keys of the
    dictionary, leaves the values of the metadata keys ([/Type],
    [/Length], [/Filter], ...) as they are, whatever they are, and leaves
    every number, name, boolean, null and reference as it is. *)
Theorem decryptObject_keeps_metadata (cs : Crypto.Ciphers) (h : Crypto.EncryptionHandler)
    (objNum genNum : Z) (d : gmap string Object) (obj' : Object) :
  decryptObject cs h objNum genNum (DictionaryObject d) = Ok obj' ->
  exists d',
    obj' = DictionaryObject d'
    /\ (forall key, is_Some (d' !! key) <-> is_Some (d !! key))
    /\ (forall key, isMetadataKey key = true -> d' !! key = d !! key)
    /\ (forall key val, d !! key = Some val -> plain val -> d' !! key = Some val).
Proof.
  cbn [decryptObject].
  destruct (collect _) as [d'| | |] eqn:Hcollect; try discriminate.
  cbn [mbind Result_bind Go.bind]. intros [= <-]. exists d'. split; [done|].
  pose proof (collect_lookup _ _ Hcollect) as Hlookup.
  assert (Hkey : forall key,
            (d !! key ≫= fun val =>
               Some (if isMetadataKey key then Ok val
                     else decryptObject cs h objNum genNum val)) = Ok <$> d' !! key).
  { intros key. rewrite <- Hlookup. by rewrite map_lookup_imap. }
  repeat split.
  - intros [v Hv]. specialize (Hkey key). rewrite Hv in Hkey.
    destruct (d !! key); [done|discriminate].
  - intros [v Hv]. specialize (Hkey key). rewrite Hv in Hkey.
    destruct (d' !! key); [done|discriminate].
  - intros key Hmeta. specialize (Hkey key). rewrite Hmeta in Hkey.
    destruct (d !! key), (d' !! key); cbn in Hkey; congruence.
  - intros key val Hval Hplain. specialize (Hkey key). rewrite Hval in Hkey.
    cbn [mbind option_bind] in Hkey.
    assert (Hsame : (if isMetadataKey key then Ok val
                     else decryptObject cs h objNum genNum val) = Ok val)
      by (destruct (isMetadataKey key); [done|by destruct val]).
    rewrite Hsame in Hkey. destruct (d' !! key); cbn in Hkey; congruence.
Qed.

Lemma decryptObject_keeps_metadata_witness :
  exists d',
    decryptObject Fixture.ciphers
      {| Crypto.Dict := Crypto.Dict CryptoFacts.aesHandler; Crypto.FileID := [];
         Crypto.EncryptKey := bytes_of_string "abcde"; Crypto.V := 2; Crypto.R := 3 |} 4 0
      (DictionaryObject {[ "/Length" := StringObject "5"; "/Title" := StringObject "abc" ]})
    = Ok (DictionaryObject d')
    /\ d' !! "/Length" = Some (StringObject "5").
Proof.
  destruct (decryptObject Fixture.ciphers _ 4 0
              (DictionaryObject {[ "/Length" := StringObject "5";
                                   "/Title" := StringObject "abc" ]}))
    as [obj'| | |] eqn:Hrun; try (vm_compute in Hrun; discriminate).
  destruct (decryptObject_keeps_metadata _ _ _ _ _ _ Hrun) as (d' & -> & _ & Hmeta & _).
  exists d'. split; [reflexivity|]. rewrite Hmeta by reflexivity. reflexivity.
Defined.

End DocumentFacts.

(* ================================================================== *)
(** * The extractor: operators *)
(* ================================================================== *)

Module OperatorFacts.

Import Extract ExtractFacts.

#[local] Open Scope float_scope.

(** An image operator adds to the list of images and changes nothing
    else. *)
Definition onlyImages (record : Extractor -> Result Extractor) : Prop :=
  forall e e', record e = Ok e' ->
    gState e' = gState e /\ gStack e' = gStack e /\ textState e' = textState e
    /\ lastX e' = lastX e /\ lastY e' = lastY e /\ buffer e' = buffer e.

(** The depth of the nesting of [q] and [Q] after a sequence of
    operations that starts at depth [depth]; [None] when a [Q] comes
    without its [q]. *)
Fixpoint nesting (ops : list Operation) (depth : nat) : option nat :=
  match ops with
  | [] => Some depth
  | op :: ops =>
      if String.eqb (Operator op) "q" then nesting ops (S depth)
      else if String.eqb (Operator op) "Q" then
        match depth with
        | O => None
        | S depth => nesting ops depth
        end
      else nesting ops depth
  end.

(** The operators that index their operands without a check, with the
    number of operands they need. *)
Definition shortOperands (op : Operation) : bool :=
  let operator := Operator op in
  let n := length (Operands op) in
  (existsb (String.eqb operator) ["Tc"; "Tw"; "Tz"; "TL"; "TJ"]%string && (n <? 1)%nat)
  || (existsb (String.eqb operator) ["Tf"; "Td"; "TD"; quote]%string && (n <? 2)%nat).

Section WithTables.

Context (glyphToUnicode : gmap string string).
Context (recordInlineImage : gmap string Object -> Extractor -> Result Extractor).
Context (recordImage : string -> Extractor -> Result Extractor).

#[local] Abbreviation processOp :=
  (Extract.processOp glyphToUnicode recordInlineImage recordImage).
#[local] Abbreviation processOps :=
  (Extract.processOps glyphToUnicode recordInlineImage recordImage).

Lemma processOps_bind (ops : list Operation) (r : Result Extractor) :
  foldl (fun r op => e ← r; processOp e op) r ops
  = (e ← r; processOps e ops).
Proof.
  revert r. induction ops as [|op ops IH]; intros r.
  - by destruct r.
  - cbn [foldl]. rewrite IH. destruct r as [e| | |]; try done.
    cbn [mbind Result_bind Go.bind]. unfold Extract.processOps. cbn [foldl].
    by rewrite IH.
Qed.

Lemma processOps_cons (e : Extractor) (op : Operation) (ops : list Operation) :
  processOps e (op :: ops) = (e1 ← processOp e op; processOps e1 ops).
Proof. unfold Extract.processOps at 1. cbn [foldl]. by rewrite processOps_bind. Qed.

(** X25.  Without image extraction, [processOp] panics exactly when the
    operator indexes an operand that is not there: [Tc], [Tw], [Tz], [TL]
    and [TJ] without an operand, [Tf], [Td], [TD] and the double quote with
    fewer than two.  Every other operation returns. *)
Theorem processOp_panics_iff (e : Extractor) (op : Operation) :
  images e = None ->
  if shortOperands op then processOp e op = Panic
  else exists e', processOp e op = Ok e'.
Proof.
  intros Himages. destruct op as [operator operands].
  unfold shortOperands, Extract.processOp. cbn [Operator Operands existsb].
  rewrite Himages.
  destruct (String.eqb_spec operator "q") as [->|_]; [by eexists|].
  destruct (String.eqb_spec operator "Q") as [->|_];
    [cbn; destruct (last (gStack e)); by eexists|].
  destruct (String.eqb_spec operator "cm") as [->|_].
  { cbn. destruct operands as [|a [|b [|c [|d [|e5 [|f [|g rest]]]]]]]; by eexists. }
  destruct (String.eqb_spec operator "BT") as [->|_]; [by eexists|].
  destruct (String.eqb_spec operator "Tc") as [->|_];
    [cbn; destruct operands; [done|by eexists]|].
  destruct (String.eqb_spec operator "Tw") as [->|_];
    [cbn; destruct operands; [done|by eexists]|].
  destruct (String.eqb_spec operator "Tz") as [->|_];
    [cbn; destruct operands; [done|by eexists]|].
  destruct (String.eqb_spec operator "TL") as [->|_];
    [cbn; destruct operands; [done|by eexists]|].
  destruct (String.eqb_spec operator "Tf") as [->|_];
    [cbn; destruct operands as [|a [|b rest]]; [done|done|by eexists]|].
  destruct (String.eqb_spec operator "Td") as [->|_];
    [cbn; destruct operands as [|a [|b rest]]; [done|done|by eexists]|].
  destruct (String.eqb_spec operator "TD") as [->|_];
    [cbn; destruct operands as [|a [|b rest]]; [done|done|by eexists]|].
  destruct (String.eqb_spec operator "Tm") as [->|_].
  { cbn. destruct operands as [|a [|b [|c [|d [|e5 [|f [|g rest]]]]]]]; by eexists. }
  destruct (String.eqb_spec operator "T*") as [->|_]; [by eexists|].
  destruct (String.eqb_spec operator "Tj") as [->|_]; [by eexists|].
  destruct (String.eqb_spec operator "TJ") as [->|_].
  { cbn. destruct operands as [|a rest]; [done|]. cbn. destruct a; by eexists. }
  destruct (String.eqb_spec operator "'") as [->|_]; [by eexists|].
  destruct (String.eqb_spec operator quote) as [->|_].
  { cbn. destruct operands as [|a [|b rest]]; [done|done|by eexists]. }
  cbn [orb andb].
  destruct (String.eqb_spec operator "INLINE_IMAGE") as [->|_]; [by eexists|].
  destruct (String.eqb_spec operator "Do") as [->|_]; by eexists.
Qed.

(** ** What an operation leaves alone *)

(** The output after [e'] continues the output after [e]. *)
Definition extends (e e' : Extractor) : Prop :=
  exists text, buffer e' = buffer e +:+ text.

Lemma extends_refl (e e' : Extractor) : buffer e' = buffer e -> extends e e'.
Proof. intros Heq. exists ""%string. by rewrite append_empty_r. Qed.

Lemma extends_trans (e1 e2 e3 : Extractor) : extends e1 e2 -> extends e2 e3 -> extends e1 e3.
Proof.
  intros [t1 H1] [t2 H2]. exists (t1 +:+ t2). by rewrite H2, H1, append_assoc.
Qed.

(** The graphics state and its stack are the same in both states. *)
Definition sameGraphics (e e' : Extractor) : Prop :=
  gState e' = gState e /\ gStack e' = gStack e.

Lemma handleText_frame (e : Extractor) (obj : Object) :
  sameGraphics e (handleText glyphToUnicode e obj)
  /\ extends e (handleText glyphToUnicode e obj).
Proof.
  assert (Hbreak : forall x y, exists t, writeBreak e x y = buffer e +:+ t).
  { intros x y. unfold writeBreak.
    repeat case_match; (by eexists) || (exists ""%string; by rewrite append_empty_r). }
  unfold handleText.
  destruct obj; try (split; [done|by apply extends_refl]);
    (split; [done|]; unfold extends; cbn [with_textState with_output buffer];
     match goal with |- context [writeBreak e ?x ?y] => destruct (Hbreak x y) as [t ->] end;
     eexists; by rewrite append_assoc).
Qed.

Lemma showElement_frame (e : Extractor) (obj : Object) :
  sameGraphics e (showElement glyphToUnicode e obj)
  /\ extends e (showElement glyphToUnicode e obj).
Proof.
  destruct obj; try apply handleText_frame. split; [done|by apply extends_refl].
Qed.

Lemma showElements_frame (arr : list Object) (e : Extractor) :
  sameGraphics e (foldl (showElement glyphToUnicode) e arr)
  /\ extends e (foldl (showElement glyphToUnicode) e arr).
Proof.
  revert e. induction arr as [|obj arr IH]; intros e.
  - split; [done|by apply extends_refl].
  - cbn [foldl]. destruct (IH (showElement glyphToUnicode e obj)) as [[Hs Hk] Hext].
    destruct (showElement_frame e obj) as [[Hs' Hk'] Hext'].
    split; [split; congruence|by eapply extends_trans].
Qed.

Lemma showText_frame (e : Extractor) (operands : list Object) :
  sameGraphics e (showText glyphToUnicode e operands)
  /\ extends e (showText glyphToUnicode e operands).
Proof.
  destruct operands; [split; [done|by apply extends_refl]|apply handleText_frame].
Qed.

Hypothesis recordInlineImage_onlyImages : forall dict, onlyImages (recordInlineImage dict).
Hypothesis recordImage_onlyImages : forall name, onlyImages (recordImage name).

Definition graphicsOperator (operator : string) : bool :=
  String.eqb operator "q" || String.eqb operator "Q" || String.eqb operator "cm".

Lemma processOp_effects (e e' : Extractor) (op : Operation) :
  processOp e op = Ok e' ->
  extends e e'
  /\ (if graphicsOperator (Operator op)
      then textState e' = textState e /\ buffer e' = buffer e
           /\ lastX e' = lastX e /\ lastY e' = lastY e
      else sameGraphics e e')
  /\ (Operator op <> "q"%string -> Operator op <> "Q"%string -> gStack e' = gStack e).
Proof.
  destruct op as [operator operands].
  unfold graphicsOperator, Extract.processOp. cbn [Operator Operands].
  destruct (String.eqb_spec operator "q") as [->|_].
  { intros [= <-]. split; [by apply extends_refl|done]. }
  destruct (String.eqb_spec operator "Q") as [->|_].
  { destruct (last (gStack e)); intros [= <-]; (split; [by apply extends_refl|done]). }
  destruct (String.eqb_spec operator "cm") as [->|_].
  { destruct (length operands =? 6)%nat.
    - destruct (argsToMatrix operands); try discriminate.
      intros [= <-]. split; [by apply extends_refl|done].
    - intros [= <-]. split; [by apply extends_refl|done]. }
  cbn [orb].
  intros Hrun.
  cut (extends e e' /\ sameGraphics e e'); [intros [Hext Hsame]; by destruct Hsame|].
  revert Hrun.
  assert (Hsame : forall e1 : Extractor,
            gState e1 = gState e -> gStack e1 = gStack e -> buffer e1 = buffer e ->
            Ok e1 = Ok e' -> extends e e' /\ sameGraphics e e').
  { intros e1 Hs Hk Hb [= <-]. split; [by apply extends_refl|done]. }
  assert (Hshow : forall e1 : Extractor,
            gState e1 = gState e -> gStack e1 = gStack e -> buffer e1 = buffer e ->
            forall operands',
            Ok (showText glyphToUnicode e1 operands') = Ok e' ->
            extends e e' /\ sameGraphics e e').
  { intros e1 Hs Hk Hb operands' [= <-].
    destruct (showText_frame e1 operands') as [[Hs' Hk'] Hext].
    split; [|split; congruence].
    eapply extends_trans; [apply extends_refl; exact Hb|exact Hext]. }
  destruct (String.eqb_spec operator "BT") as [->|_]; [by apply Hsame|].
  destruct (String.eqb_spec operator "Tc") as [->|_].
  { destruct (numberArg operands 0); try discriminate. by apply Hsame. }
  destruct (String.eqb_spec operator "Tw") as [->|_].
  { destruct (numberArg operands 0); try discriminate. by apply Hsame. }
  destruct (String.eqb_spec operator "Tz") as [->|_].
  { destruct (numberArg operands 0); try discriminate. by apply Hsame. }
  destruct (String.eqb_spec operator "TL") as [->|_].
  { destruct (numberArg operands 0); try discriminate. by apply Hsame. }
  destruct (String.eqb_spec operator "Tf") as [->|_].
  { destruct (arg operands 0); try discriminate. cbn [mbind Result_bind Go.bind].
    destruct (numberArg operands 1); try discriminate. by apply Hsame. }
  destruct (String.eqb_spec operator "Td") as [->|_].
  { destruct (numberArg operands 0); try discriminate. cbn [mbind Result_bind Go.bind].
    destruct (numberArg operands 1); try discriminate. by apply Hsame. }
  destruct (String.eqb_spec operator "TD") as [->|_].
  { destruct (numberArg operands 0); try discriminate. cbn [mbind Result_bind Go.bind].
    destruct (numberArg operands 1); try discriminate. by apply Hsame. }
  destruct (String.eqb_spec operator "Tm") as [->|_].
  { destruct (length operands =? 6)%nat; [|by apply Hsame].
    destruct (argsToMatrix operands); try discriminate. by apply Hsame. }
  destruct (String.eqb_spec operator "T*") as [->|_]; [by apply Hsame|].
  destruct (String.eqb_spec operator "Tj") as [->|_]; [by apply Hshow|].
  destruct (String.eqb_spec operator "TJ") as [->|_].
  { destruct (arg operands 0) as [first| | |]; try discriminate.
    cbn [mbind Result_bind Go.bind].
    destruct first; try by apply Hsame.
    intros [= <-]. destruct (showElements_frame elems e) as [Hg Hext]. done. }
  destruct (String.eqb_spec operator "'") as [->|_]; [by apply Hshow|].
  destruct (String.eqb_spec operator quote) as [->|_].
  { destruct (numberArg operands 0); try discriminate. cbn [mbind Result_bind Go.bind].
    destruct (numberArg operands 1); try discriminate. by apply Hshow. }
  assert (Himage : forall record, onlyImages record -> record e = Ok e' ->
            extends e e' /\ sameGraphics e e').
  { intros record Honly Hrun. destruct (Honly e e' Hrun) as (Hs & Hk & _ & _ & _ & Hb).
    split; [by apply extends_refl|done]. }
  destruct (String.eqb_spec operator "INLINE_IMAGE") as [->|_].
  { destruct (images e); [|by apply Hsame].
    destruct operands as [|[] rest]; try by apply Hsame.
    by apply Himage. }
  destruct (String.eqb_spec operator "Do") as [->|_]; [|by apply Hsame].
  destruct (images e); [|by apply Hsame].
  destruct operands as [|[] rest]; try by apply Hsame.
  by apply Himage.
Qed.

(** X26.  What an operation leaves alone.  No operation takes back what
    is written: the output after it continues the output before it.  The
    operators [q], [Q] and [cm] change neither the output nor the text
    state nor the position of the last text; every other operator leaves
    the graphics state and the stack of saved graphics states as they
    are. *)
Theorem processOp_frame (e e' : Extractor) (op : Operation) :
  processOp e op = Ok e' ->
  extends e e'
  /\ (if graphicsOperator (Operator op)
      then textState e' = textState e /\ buffer e' = buffer e
           /\ lastX e' = lastX e /\ lastY e' = lastY e
      else sameGraphics e e').
Proof.
  intros Hrun. destruct (processOp_effects e e' op Hrun) as (Hext & Hframe & _).
  split; [exact Hext|exact Hframe].
Qed.

(** ** Sequences of operations *)

Lemma processOps_app (e : Extractor) (ops1 ops2 : list Operation) :
  processOps e (ops1 ++ ops2) = (e1 ← processOps e ops1; processOps e1 ops2).
Proof. unfold Extract.processOps at 1. rewrite foldl_app. by rewrite processOps_bind. Qed.

Lemma processOps_extends (ops : list Operation) (e e' : Extractor) :
  processOps e ops = Ok e' -> extends e e'.
Proof.
  revert e. induction ops as [|op ops IH]; intros e.
  - intros [= <-]. by apply extends_refl.
  - rewrite processOps_cons.
    destruct (processOp e op) as [e1| | |] eqn:Hop; try discriminate.
    cbn [mbind Result_bind Go.bind]. intros Hrun.
    destruct (processOp_effects e e1 op Hop) as (Hext & _).
    eapply extends_trans; [exact Hext|by apply IH].
Qed.

(** The saved graphics states below the ones a sequence pushes stay in
    place while the sequence does not pop more than it pushed. *)
Lemma processOps_stack (ops : list Operation) (e e' : Extractor)
    (base extra : list GraphicsState) (depth : nat) :
  gStack e = base ++ extra ->
  nesting ops (length extra) = Some depth ->
  processOps e ops = Ok e' ->
  exists extra', gStack e' = base ++ extra' /\ length extra' = depth.
Proof.
  revert e extra. induction ops as [|op ops IH]; intros e extra Hstack Hnest.
  - intros [= <-]. exists extra. split; [done|]. cbn in Hnest. congruence.
  - rewrite processOps_cons.
    destruct (processOp e op) as [e1| | |] eqn:Hop; try discriminate.
    cbn [mbind Result_bind Go.bind]. intros Hrun.
    cbn [nesting] in Hnest.
    destruct (String.eqb_spec (Operator op) "q") as [Hq|Hnq].
    { apply (IH e1 (extra ++ [gState e])); [|by rewrite length_app, Nat.add_1_r|done].
      destruct op as [operator operands]. cbn in Hq. subst operator.
      unfold Extract.processOp in Hop. cbn in Hop. injection Hop as <-.
      cbn [with_gStack gStack]. by rewrite Hstack, app_assoc. }
    destruct (String.eqb_spec (Operator op) "Q") as [HQ|HnQ].
    { destruct extra as [|top extra _] using rev_ind; [done|].
      rewrite length_app, Nat.add_1_r in Hnest.
      apply (IH e1 extra); [|done|done].
      destruct op as [operator operands]. cbn in HQ. subst operator.
      unfold Extract.processOp in Hop. cbn in Hop.
      rewrite Hstack, app_assoc, last_snoc in Hop. injection Hop as <-.
      cbn [with_gStack gStack]. rewrite length_app. cbn [length].
      rewrite Nat.add_sub. by rewrite take_app_length. }
    apply (IH e1 extra); [|done|done].
    destruct (processOp_effects e e1 op Hop) as (_ & _ & Hkeep).
    by rewrite Hkeep.
Qed.

(** Between [q] and [Q], for image operators that only add images. *)
Lemma processOps_balanced (e e' : Extractor) (ops : list Operation)
    (operands operands' : list Object) :
  nesting ops 0 = Some 0%nat ->
  processOps e ({| Operator := "q"; Operands := operands |} :: ops
                ++ [{| Operator := "Q"; Operands := operands' |}]) = Ok e' ->
  gState e' = gState e /\ gStack e' = gStack e /\ extends e e'.
Proof.
  intros Hnest Hrun. pose proof (processOps_extends _ _ _ Hrun) as Hext.
  rewrite processOps_cons in Hrun.
  unfold Extract.processOp at 1 in Hrun. cbn [Operator String.eqb Ascii.eqb Bool.eqb] in Hrun.
  cbn [mbind Result_bind Go.bind] in Hrun.
  rewrite processOps_app in Hrun.
  destruct (processOps _ ops) as [e2| | |] eqn:Hops; try discriminate.
  cbn [mbind Result_bind Go.bind] in Hrun.
  destruct (processOps_stack ops (with_gStack e (gStack e ++ [gState e])) e2
              (gStack e ++ [gState e]) [] 0) as (extra' & Hstack & Hlen);
    [by rewrite app_nil_r|exact Hnest|exact Hops|].
  destruct extra'; [|discriminate]. rewrite app_nil_r in Hstack.
  rewrite processOps_cons in Hrun.
  unfold Extract.processOp at 1 in Hrun. cbn [Operator String.eqb Ascii.eqb Bool.eqb] in Hrun.
  rewrite Hstack, last_snoc in Hrun.
  cbn [mbind Result_bind Go.bind Extract.processOps foldl] in Hrun.
  injection Hrun as <-. cbn [with_gStack with_gState gState gStack].
  rewrite length_app. cbn [length]. rewrite Nat.add_sub, take_app_length.
  by repeat split.
Qed.

End WithTables.

(** ** The image operators *)

(** Two states that differ at most in the images recorded. *)
Definition imagesApart (e e' : Extractor) : Prop :=
  gState e' = gState e /\ gStack e' = gStack e /\ textState e' = textState e
  /\ lastX e' = lastX e /\ lastY e' = lastY e /\ buffer e' = buffer e.

Lemma imagesApart_refl (e : Extractor) : imagesApart e e.
Proof. by repeat split. Qed.

Lemma imagesApart_trans (e1 e2 e3 : Extractor) :
  imagesApart e1 e2 -> imagesApart e2 e3 -> imagesApart e1 e3.
Proof.
  intros (H1 & H2 & H3 & H4 & H5 & H6) (K1 & K2 & K3 & K4 & K5 & K6).
  repeat split; congruence.
Qed.

Lemma appendImage_apart (e e' : Extractor) (img : Image) :
  Images.appendImage e img = Ok e' -> imagesApart e e'.
Proof.
  unfold Images.appendImage. destruct (images e); [|discriminate].
  intros [= <-]. by repeat split.
Qed.

Lemma recordInlineImage_adds (dict : gmap string Object) :
  onlyImages (Images.recordInlineImage dict).
Proof. intros e e' Hrun. by apply appendImage_apart in Hrun. Qed.

Lemma recordNestedImage_adds (processForm : Object -> Extractor -> Result Extractor)
    (name : string) (xobj : Object) :
  (forall x, onlyImages (processForm x)) ->
  onlyImages (Images.recordNestedImage processForm name xobj).
Proof.
  intros Hform e e' Hrun.
  assert (Hdict : forall d,
    (subtype ← Pages.resolveKey (reader e) d "/Subtype";
     match subtype with
     | Some (NameObject subtype) =>
         if String.eqb subtype "/Form" then processForm xobj e
         else if negb (String.eqb subtype "/Image") then Ok e
         else
           w ← Pages.resolveKey (reader e) d "/Width";
           h ← Pages.resolveKey (reader e) d "/Height";
           cs ← Pages.resolveKey (reader e) d "/ColorSpace";
           Images.appendImage e
             {| Type_ := "image"; ID := name; Rect := Images.calculateImageRect e;
                Width := match w with Some (NumberObject w) => w | _ => 0 end;
                Height := match h with Some (NumberObject h) => h | _ => 0 end;
                ColorSpace := match cs with Some (NameObject cs) => cs | _ => "" end |}
     | _ => Ok e
     end) = Ok e' -> imagesApart e e').
  { intros d Hd.
    destruct (Pages.resolveKey (reader e) d "/Subtype") as [subtype| | |];
      cbn [mbind Result_bind Go.bind] in Hd; try discriminate.
    destruct subtype as [[]|]; try (injection Hd as <-; apply imagesApart_refl).
    destruct (String.eqb s "/Form"); [by apply (Hform xobj)|].
    destruct (negb (String.eqb s "/Image")); [injection Hd as <-; apply imagesApart_refl|].
    destruct (Pages.resolveKey (reader e) d "/Width") as [w| | |];
      cbn [mbind Result_bind Go.bind] in Hd; try discriminate.
    destruct (Pages.resolveKey (reader e) d "/Height") as [h| | |];
      cbn [mbind Result_bind Go.bind] in Hd; try discriminate.
    destruct (Pages.resolveKey (reader e) d "/ColorSpace") as [cs| | |];
      cbn [mbind Result_bind Go.bind] in Hd; try discriminate.
    by apply appendImage_apart in Hd. }
  unfold Images.recordNestedImage in Hrun.
  destruct xobj; try (injection Hrun as <-; apply imagesApart_refl);
    exact (Hdict _ Hrun).
Qed.

Lemma formOperations_add
    (step : Extractor -> Operation -> Result Extractor) (ops : list Operation)
    (e e' : Extractor) :
  (forall op, onlyImages (fun e => step e op)) ->
  foldl (fun r op => e ← r; step e op) (Ok e) ops = Ok e' -> imagesApart e e'.
Proof.
  intros Hstep. revert e'. induction ops as [|op ops IH] using rev_ind; intros e' Hrun.
  - injection Hrun as <-. apply imagesApart_refl.
  - rewrite foldl_app in Hrun. cbn [foldl] in Hrun.
    destruct (foldl _ (Ok e) ops) as [e1| | |]; cbn [mbind Result_bind Go.bind] in Hrun;
      try discriminate.
    apply (imagesApart_trans e e1 e'); [by apply IH|by apply (Hstep op)].
Qed.

Lemma processFormXObject_adds (contentOperations : list ascii -> list Operation)
    (fuel : nat) (xobj : Object) :
  onlyImages (Images.processFormXObject contentOperations fuel xobj).
Proof.
  revert xobj. induction fuel as [|fuel IH]; intros xobj e e' Hrun; [discriminate|].
  cbn [Images.processFormXObject] in Hrun.
  destruct xobj; try (injection Hrun as <-; apply imagesApart_refl).
  destruct (Pages.resolveKey (reader e) Dictionary "/Resources") as [res| | |];
    cbn [mbind Result_bind Go.bind] in Hrun; try discriminate.
  revert Hrun. apply formOperations_add. intros op e1 e2 Hop.
  unfold Images.formOperation in Hop.
  destruct (String.eqb (Operator op) "Do"); [|injection Hop as <-; apply imagesApart_refl].
  destruct (Operands op) as [|[] ?]; try (injection Hop as <-; apply imagesApart_refl).
  destruct (match res with Some (DictionaryObject d) => Some d | _ => None end)
    as [formResources|]; [|injection Hop as <-; apply imagesApart_refl].
  destruct (Pages.resolveKey (reader e1) formResources "/XObject") as [nested| | |];
    cbn [mbind Result_bind Go.bind] in Hop; try discriminate.
  destruct nested as [[]|]; try (injection Hop as <-; apply imagesApart_refl).
  destruct (Pages.resolveKey (reader e1) dict s) as [nestedXObj| | |];
    cbn [mbind Result_bind Go.bind] in Hop; try discriminate.
  destruct nestedXObj as [nestedXObj|]; [|injection Hop as <-; apply imagesApart_refl].
  revert Hop. by apply recordNestedImage_adds.
Qed.

Lemma recordImage_adds (contentOperations : list ascii -> list Operation)
    (fuel : nat) (name : string) :
  onlyImages (Images.recordImage contentOperations fuel name).
Proof.
  intros e e' Hrun. unfold Images.recordImage in Hrun.
  destruct (xobjects e !! name) as [ref|]; [|injection Hrun as <-; apply imagesApart_refl].
  destruct (Pages.Resolve (reader e) ref) as [xobj| | |];
    cbn [mbind Result_bind Go.bind] in Hrun; try discriminate.
  revert Hrun. apply recordNestedImage_adds. intros x. apply processFormXObject_adds.
Qed.

(** X27.  A sequence of operations between [q] and [Q] in which every
    [Q] has its [q] (and the other way round) leaves the graphics state and
    the stack of saved graphics states as the [q] found them, whatever the
    operations in between are: [cm] changes the matrix, the text operators
    leave it alone, and [INLINE_IMAGE] and [Do], with [recordInlineImage],
    [recordImage] and the forms they walk through, only add images.  The
    output only grows. *)
Theorem processOps_q_Q_balanced (glyphToUnicode : gmap string string)
    (contentOperations : list ascii -> list Operation) (fuel : nat)
    (e e' : Extractor) (ops : list Operation) (operands operands' : list Object) :
  nesting ops 0 = Some 0%nat ->
  Extract.processOps glyphToUnicode Images.recordInlineImage
    (Images.recordImage contentOperations fuel) e
    ({| Operator := "q"; Operands := operands |} :: ops
     ++ [{| Operator := "Q"; Operands := operands' |}]) = Ok e' ->
  gState e' = gState e /\ gStack e' = gStack e /\ extends e e'.
Proof.
  intros Hnest Hrun.
  eapply processOps_balanced; [| |exact Hnest|exact Hrun].
  - intros dict. apply recordInlineImage_adds.
  - intros name. apply recordImage_adds.
Qed.

(** ** Decoding with a CMap *)

(** X30.  [handleText] looks the bytes of a string up in the CMap two at
    a time and one at a time.  A CMap whose keys are all longer than two
    bytes therefore never applies: the bytes are written as they are. *)
Theorem decodeWithCMap_long_keys (m : gmap string string) (rawBytes : list ascii)
    (decoded : string) :
  (forall key, is_Some (m !! key) -> (2 < String.length key)%nat) ->
  decodeWithCMap m rawBytes decoded = decoded +:+ string_of_bytes rawBytes.
Proof.
  intros Hkeys.
  assert (Hmiss : forall key, (String.length key <= 2)%nat -> m !! key = None).
  { intros key Hlen. destruct (m !! key) eqn:Hkey; [|done].
    specialize (Hkeys key ltac:(by rewrite Hkey)). lia. }
  remember (length rawBytes) as n eqn:Hn. revert rawBytes decoded Hn.
  induction n as [n IH] using lt_wf_ind. intros rawBytes decoded ->.
  destruct rawBytes as [|b rest]; [by rewrite append_empty_r|].
  cbn [decodeWithCMap].
  rewrite (Hmiss (string_of_bytes [b])) by (simpl; lia).
  assert (Hone : decodeWithCMap m rest (WriteByte decoded b)
                 = decoded +:+ string_of_bytes (b :: rest)).
  { rewrite (IH (length rest)) by (simpl; lia || done).
    unfold WriteByte. by rewrite append_assoc. }
  destruct rest as [|b2 rest']; [exact Hone|].
  rewrite (Hmiss (string_of_bytes [b; b2])) by (simpl; lia). exact Hone.
Qed.

Lemma decodeWithCMap_long_keys_witness :
  decodeWithCMap {[ "0041"%string := "A"%string ]} (Fixture.bytes [0; 0x41]%Z) ""
  = string_of_bytes (Fixture.bytes [0; 0x41]%Z).
Proof.
  apply (decodeWithCMap_long_keys {[ "0041"%string := "A"%string ]}
           (Fixture.bytes [0; 0x41]%Z) "").
  intros key [val Hkey]. apply lookup_singleton_Some in Hkey as [<- _]. simpl. lia.
Defined.

(** The examples run without image extraction: the image operators
    are not reached. *)
Definition noImage {A} (_ : A) (e : Extractor) : Result Extractor := Ok e.

Lemma noImage_onlyImages {A} (a : A) : onlyImages (noImage a).
Proof. intros e e' [= <-]. by repeat split. Qed.

Lemma processOp_panics_iff_witness :
  Extract.processOp ∅ noImage noImage freshExtractor (op "Tf" [NameObject "/F1"]) = Panic
  /\ exists e', Extract.processOp ∅ noImage noImage freshExtractor (op "Tj" []) = Ok e'.
Proof.
  split.
  - exact (processOp_panics_iff ∅ noImage noImage freshExtractor
             (op "Tf" [NameObject "/F1"]) eq_refl).
  - exact (processOp_panics_iff ∅ noImage noImage freshExtractor (op "Tj" []) eq_refl).
Defined.

Lemma processOp_frame_witness :
  exists e',
    Extract.processOp ∅ noImage noImage sampleExtractor (op "Tj" [StringObject "There"]) = Ok e'
    /\ extends sampleExtractor e' /\ sameGraphics sampleExtractor e'.
Proof.
  eexists. split; [reflexivity|].
  apply (processOp_frame ∅ noImage noImage noImage_onlyImages noImage_onlyImages
           sampleExtractor _ (op "Tj" [StringObject "There"])).
  reflexivity.
Defined.

(** An image among the resources of the page, with its height behind a
    reference, and the same image among the resources of a form: [Do]
    records it under the name it is called by; a name without a resource
    records nothing. *)
Definition sampleImage : Object :=
  StreamObject {[ "/Subtype" := NameObject "/Image"; "/Width" := NumberObject 10;
                  "/Height" := IndirectObject 5 0;
                  "/ColorSpace" := NameObject "/DeviceRGB" ]} [].

Definition sampleForm : Object :=
  StreamObject
    {[ "/Subtype" := NameObject "/Form";
       "/Resources" :=
         DictionaryObject {[ "/XObject" := DictionaryObject {[ "/Im2" := sampleImage ]} ]} ]}
    [].

Definition pageWithImages : Extractor :=
  {| reader := {| Pages.xref := XRef.NewXRefTable;
                  Pages.objectAt := fun n _ =>
                    if (n =? 5)%Z then Ok (NumberObject 20)
                    else Err (errorString "object not found in xref") |};
     page := ∅; gState := {| CTM := IdentityMatrix |}; gStack := [];
     textState := NewTextState; fonts := ∅; lastX := 0; lastY := 0; buffer := "";
     images := Some [];
     xobjects := {[ "/Im1" := sampleImage; "/Fm1" := sampleForm ]} |}.

Example recordImage_sample :
  let parser (_ : list ascii) := [op "q" []; op "Do" [NameObject "/Im2"]; op "Q" []] in
  let recorded name :=
    e ← Images.recordImage parser 2 name pageWithImages; Ok (images e) in
  let image name :=
    {| Type_ := "image"; ID := name; Rect := [0; 0; 1; 1];
       Width := 10; Height := 20; ColorSpace := "/DeviceRGB" |} in
  recorded "/Im1"%string = Ok (Some [image "/Im1"%string])
  /\ recorded "/Fm1"%string = Ok (Some [image "/Im2"%string])
  /\ recorded "/Im9"%string = Ok (Some []).
Proof. repeat split; vm_compute; reflexivity. Qed.

(** A page with the extraction of images on: an inline image of 8 by 4
    under a matrix that doubles the sides, a [Do] for a name the page has
    no resource for, and a string, between [q] and [Q]. *)
Definition imageExtractor : Extractor := Images.with_images sampleExtractor (Some []).

Lemma processOps_q_Q_balanced_witness :
  exists e',
    Extract.processOps ∅ Images.recordInlineImage (Images.recordImage (fun _ => []) 1)
      imageExtractor
      [op "q" []; op "cm" [NumberObject 2; NumberObject 0; NumberObject 0;
                           NumberObject 2; NumberObject 0; NumberObject 0];
       op "q" [];
       op "INLINE_IMAGE" [DictionaryObject {[ "/W" := NumberObject 8; "/H" := NumberObject 4 ]}];
       op "Do" [NameObject "/Im1"];
       op "Tj" [StringObject "There"]; op "Q" []; op "Q" []] = Ok e'
    /\ images e' = Some [{| Type_ := "inline_image"; ID := ""; Rect := [0; 0; 2; 2];
                            Width := 8; Height := 4; ColorSpace := "" |}]
    /\ gState e' = gState imageExtractor /\ gStack e' = gStack imageExtractor
    /\ extends imageExtractor e'.
Proof.
  eexists. split; [vm_compute; reflexivity|]. split; [reflexivity|].
  apply (processOps_q_Q_balanced ∅ (fun _ => []) 1 imageExtractor _
           [op "cm" [NumberObject 2; NumberObject 0; NumberObject 0;
                     NumberObject 2; NumberObject 0; NumberObject 0];
            op "q" [];
            op "INLINE_IMAGE"
              [DictionaryObject {[ "/W" := NumberObject 8; "/H" := NumberObject 4 ]}];
            op "Do" [NameObject "/Im1"];
            op "Tj" [StringObject "There"]; op "Q" []] [] []).
  - reflexivity.
  - vm_compute. reflexivity.
Defined.

End OperatorFacts.

(* ================================================================== *)
(** * Fonts *)
(* ================================================================== *)

Module FontsFacts.

Import Pages Extract Fonts CMapFacts.

#[local] Open Scope float_scope.

(** ** The encoding *)

Lemma differences_names (names : list string) (code : Z) (encoding : gmap Z string) (key : Z) :
  (- 2 ^ 63 <= code)%Z -> (code + Z.of_nat (length names) < 2 ^ 63)%Z ->
  differences (map NameObject names) code encoding !! key
  = if decide (code <= key < code + Z.of_nat (length names))%Z
    then names !! Z.to_nat (key - code)
    else encoding !! key.
Proof.
  revert code encoding. induction names as [|name names IH]; intros code encoding Hlo Hhi.
  - cbn [map differences length]. case_decide; [lia|done].
  - cbn [map differences length] in *. rewrite int64_small by lia.
    rewrite IH by lia. clear IH.
    destruct (decide (key = code)) as [->|Hne].
    + rewrite decide_False by lia. rewrite decide_True by lia.
      rewrite Z.sub_diag. cbn. by rewrite lookup_insert_eq.
    + rewrite lookup_insert_ne by done.
      case_decide as H1; case_decide as H2; try lia; [|done].
      replace (Z.to_nat (key - code)) with (S (Z.to_nat (key - (code + 1)))) by lia.
      done.
Qed.

(** X28.  [parseEncoding] on an encoding dictionary whose [/Differences]
    array is a code followed by glyph names: the names are assigned to the
    codes from the given code on, one after the other, and no other code of
    the font's encoding changes. *)
Theorem parseEncoding_differences (r : Reader) (f : Font) (encDict : gmap string Object)
    (c : float) (names : list string) :
  encDict !! "/Differences" = Some (ArrayObject (NumberObject c :: map NameObject names)) ->
  (- 2 ^ 63 <= float64_to_int c)%Z ->
  (float64_to_int c + Z.of_nat (length names) < 2 ^ 63)%Z ->
  exists f',
    parseEncoding r f (DictionaryObject encDict) = Ok f'
    /\ forall key,
         Encoding f' !! key
         = if decide (float64_to_int c <= key < float64_to_int c + Z.of_nat (length names))%Z
           then names !! Z.to_nat (key - float64_to_int c)
           else Encoding f !! key.
Proof.
  intros Hdiff Hlo Hhi. unfold parseEncoding.
  cbn [Resolve mbind Result_bind Go.bind]. unfold resolveKey. rewrite Hdiff.
  cbn [Resolve mbind Result_bind Go.bind].
  eexists. split; [reflexivity|]. intros key.
  cbn [with_Encoding Encoding differences]. by apply differences_names.
Qed.

(** ** The widths *)

Lemma loadWidths_lookup (widths : list Object) (first i : Z) (m : gmap Z float) (key : Z) :
  (0 <= i)%Z -> (- 2 ^ 63 <= first)%Z -> (first + i + Z.of_nat (length widths) < 2 ^ 63)%Z ->
  loadWidths first i widths m !! key
  = match (if decide (first + i <= key)%Z then widths !! Z.to_nat (key - first - i) else None) with
    | Some (NumberObject w) => Some w
    | _ => m !! key
    end.
Proof.
  revert i m. induction widths as [|wObj widths IH]; intros i m Hi Hlo Hhi.
  - cbn [loadWidths]. case_decide; by rewrite ?lookup_nil.
  - cbn [loadWidths length] in *. rewrite IH by lia. clear IH.
    rewrite int64_small by lia.
    destruct (decide (key = first + i)%Z) as [->|Hne].
    + rewrite decide_False by lia. rewrite decide_True by lia.
      replace (first + i - first - i)%Z with 0%Z by lia. cbn [Z.to_nat lookup list_lookup].
      destruct wObj; try done. by rewrite lookup_insert_eq.
    + assert (Hkeep : match wObj with
                      | NumberObject w => <[(first + i)%Z := w]> m
                      | _ => m
                      end !! key = m !! key).
      { destruct wObj; try done. by rewrite lookup_insert_ne. }
      case_decide as H1; case_decide as H2; try lia.
      * replace (Z.to_nat (key - first - i)) with (S (Z.to_nat (key - first - (i + 1)))) by lia.
        cbn [lookup list_lookup]. by rewrite Hkeep.
      * exact Hkeep.
Qed.

(** X29.  [loadFont] on a simple font with [/FirstChar] and [/Widths] and
    without [/ToUnicode] and [/Encoding]: the width of code
    [FirstChar + i] is the [i]-th element of [/Widths] when that is a
    number; the width of a space is the width of code 32 when the font
    gives one and 250 when it does not; the font gets an empty CMap and an
    empty encoding, and is not taken for a CID font. *)
Theorem loadFont_widths (sc : GoLib) (r : Reader) (obj : gmap string Object)
    (bf : option Object) (firstObj : float) (widths : list Object) :
  resolveKey r obj "/BaseFont" = Ok bf ->
  resolveKey r obj "/FirstChar" = Ok (Some (NumberObject firstObj)) ->
  resolveKey r obj "/Widths" = Ok (Some (ArrayObject widths)) ->
  resolveKey r obj "/ToUnicode" = Ok None ->
  obj !! "/Encoding" = None ->
  (- 2 ^ 63 <= float64_to_int firstObj)%Z ->
  (float64_to_int firstObj + Z.of_nat (length widths) < 2 ^ 63)%Z ->
  exists f,
    loadFont sc r obj = Ok f
    /\ (forall (i : nat) (w : float),
          widths !! i = Some (NumberObject w) ->
          Widths f !! (float64_to_int firstObj + Z.of_nat i)%Z = Some w)
    /\ SpaceWidth f = match Widths f !! 32%Z with Some w => w | None => 250 end
    /\ CMap f = Some CMapParser.NewCMap /\ Encoding f = ∅ /\ IsCID f = false.
Proof.
  intros Hbf Hfirst Hwidths Hto Henc Hlo Hhi. unfold loadFont.
  rewrite Hbf. cbn [mbind Result_bind Go.bind].
  rewrite Hfirst. cbn [mbind Result_bind Go.bind].
  rewrite Hwidths. cbn [mbind Result_bind Go.bind].
  rewrite Hto. cbn [mbind Result_bind Go.bind]. rewrite Henc.
  eexists. split; [reflexivity|]. cbn [Widths SpaceWidth CMap Encoding IsCID].
  split; [|done]. intros i w Hi.
  rewrite loadWidths_lookup by lia. rewrite decide_True by lia.
  replace (Z.to_nat (float64_to_int firstObj + Z.of_nat i - float64_to_int firstObj - 0))
    with i by lia.
  by rewrite Hi.
Qed.

(** The encoding [[65 /Alpha /Beta]], and the font with the widths
    [[278 250]] from code 31 on. *)
Lemma parseEncoding_differences_witness :
  exists f',
    parseEncoding (reader ExtractFacts.sampleExtractor) ExtractFacts.sampleFont
      (DictionaryObject
         {[ "/Differences" :=
              ArrayObject [NumberObject 65; NameObject "/Alpha"; NameObject "/Beta"] ]})
    = Ok f'
    /\ Encoding f' !! 66%Z = Some "/Beta"%string.
Proof.
  destruct (parseEncoding_differences (reader ExtractFacts.sampleExtractor)
              ExtractFacts.sampleFont
              {[ "/Differences" :=
                   ArrayObject [NumberObject 65; NameObject "/Alpha"; NameObject "/Beta"] ]}
              65 ["/Alpha"; "/Beta"]%string)
    as (f' & Hrun & Henc); [reflexivity|vm_compute; discriminate|vm_compute; reflexivity|].
  exists f'. split; [exact Hrun|]. rewrite Henc. vm_compute. reflexivity.
Defined.

Lemma loadFont_widths_witness :
  exists f,
    loadFont Fixture.lib (reader ExtractFacts.sampleExtractor)
      {[ "/FirstChar" := NumberObject 31;
         "/Widths" := ArrayObject [NumberObject 278; NumberObject 250] ]} = Ok f
    /\ Widths f !! 32%Z = Some 250.
Proof.
  destruct (loadFont_widths Fixture.lib (reader ExtractFacts.sampleExtractor)
              {[ "/FirstChar" := NumberObject 31;
                 "/Widths" := ArrayObject [NumberObject 278; NumberObject 250] ]}
              None 31 [NumberObject 278; NumberObject 250])
    as (f & Hrun & Hw & _);
    [reflexivity|reflexivity|reflexivity|reflexivity|reflexivity
    |vm_compute; discriminate|vm_compute; reflexivity|].
  exists f. split; [exact Hrun|]. exact (Hw 1%nat 250 eq_refl).
Defined.

End FontsFacts.
